(** * TIDL backend compiler: a shallow embedding of
      [python/tvm/relay/backend/contrib/tidl.py]

    The development follows the layout of the Python module:
    - [Py]        the fragment of Python's built-ins the module relies on
                  (results with exceptions, [str] methods, [int], [re.findall]);
    - [Calib]     the parsing stage of [subgraph_calibration];
    - [Relay]     the Relay expressions and modules the passes work on;
    - [Indexer]   [traverse_expr], [find_in_nodes], [find_out_nodes];
    - [Prune]     [VarReplacer], [VarRenamer], [SubgraphRemover] and the two
                  pruning passes;
    - [Quant]     [tensor_quant_flatten] over IEEE 754 binary floats;
    - [Importer]  [tidl_import_tuple_node] and the head of [ImportRelayIR];
    - [Compiler]  [TIDLCompiler.enable];
    - [CalibGraph]    [add_new_outputs] and the collection of the captured
                      tensors in [generate_subgraph_tensors];
    - [SubgraphInput] [obtain_subgraph_tensor] and the first steps of the
                      import of one subgraph;
    - [Cfg]           [print_list] of [subgraph_cfg_gen];
    - [ImportInit]    the geometry computed by [tidl_import_init]. *)

From Stdlib Require Import Bool Ascii String List ZArith Lia SpecFloat.
From Stdlib Require Import Permutation Sorted.
From Equations Require Import Equations.
Import ListNotations.

#[local] Set Warnings "-register-all".

Local Open Scope string_scope.
Local Open Scope Z_scope.

(* ================================================================== *)
(** * Python built-ins used by the module *)
(* ================================================================== *)

Module Py.

(** Exceptions the embedded code can raise. *)
Inductive exn : Type :=
| ValueError
| IndexError
| KeyError
| AttributeError
| UnboundLocalError
| RecursionError
| OverflowError
| OSError
| TVMError.

(** A Python call either returns or raises. *)
Inductive result (A : Type) : Type :=
| Returned (a : A)
| Raised (e : exn).
Arguments Returned {A} a.
Arguments Raised {A} e.

Definition bind {A B} (r : result A) (k : A -> result B) : result B :=
  match r with
  | Returned a => k a
  | Raised e => Raised e
  end.

Definition of_option {A} (e : exn) (o : option A) : result A :=
  match o with
  | Some a => Returned a
  | None => Raised e
  end.

Declare Scope py_scope.
Delimit Scope py_scope with py.
Notation "x <- c ;; k" := (bind c (fun x => k))
  (at level 61, c at next level, right associativity) : py_scope.
Notation "' p <- c ;; k" := (bind c (fun 'p => k))
  (at level 61, p pattern, c at next level, right associativity) : py_scope.

(** ** [str] *)

Definition len (s : string) : nat := String.length s.

(** [s.startswith(p)] *)
Fixpoint startswith (p s : string) : bool :=
  match p, s with
  | EmptyString, _ => true
  | String a p', String b s' => Ascii.eqb a b && startswith p' s'
  | String _ _, EmptyString => false
  end.

(** [s[n:]] *)
Fixpoint drop (n : nat) (s : string) : string :=
  match n, s with
  | O, _ => s
  | S n', String _ s' => drop n' s'
  | S _, EmptyString => EmptyString
  end.

(** [s.find(sub)]: offset of the first occurrence, [None] for Python's -1. *)
Fixpoint find (sub s : string) : option nat :=
  if startswith sub s then Some O
  else match s with
       | EmptyString => None
       | String _ s' => option_map S (find sub s')
       end.

(** [s.rfind(sub)]: offset of the last occurrence, [None] for Python's -1. *)
Fixpoint rfind (sub s : string) : option nat :=
  match s with
  | EmptyString => if startswith sub s then Some O else None
  | String _ s' =>
      match rfind sub s' with
      | Some i => Some (S i)
      | None => if startswith sub s then Some O else None
      end
  end.

(** [sub in s] *)
Definition contains (sub s : string) : bool :=
  match find sub s with Some _ => true | None => false end.

(** [s.split(sep, 1)] for a non-empty [sep]: a list of one or two pieces,
    cut at the first occurrence of [sep]. *)
Fixpoint split1_aux (sep s : string) : option (string * string) :=
  if startswith sep s then Some (EmptyString, drop (len sep) s)
  else match s with
       | EmptyString => None
       | String c s' =>
           match split1_aux sep s' with
           | Some (before, after) => Some (String c before, after)
           | None => None
           end
       end.

Definition split1 (sep s : string) : list string :=
  match split1_aux sep s with
  | Some (before, after) => [before; after]
  | None => [s]
  end.

(** [s.split(c)] for a one-character separator: every piece, empty ones
    included. *)
Fixpoint split_char (c : ascii) (s : string) : list string :=
  match s with
  | EmptyString => [EmptyString]
  | String a s' =>
      if Ascii.eqb a c then EmptyString :: split_char c s'
      else match split_char c s' with
           | piece :: rest => String a piece :: rest
           | [] => [String a EmptyString]
           end
  end.

(** [sep.join(pieces)] *)
Fixpoint join (sep : string) (pieces : list string) : string :=
  match pieces with
  | [] => EmptyString
  | [p] => p
  | p :: rest => p ++ sep ++ join sep rest
  end.

(** [l[i]] on a list: [IndexError] out of range (non-negative [i]). *)
Definition getitem {A} (l : list A) (i : nat) : result A :=
  of_option IndexError (nth_error l i).

(** ** Digits, [int(str)] and [re.findall(r"\d+", s)] *)

Definition is_digit (c : ascii) : bool :=
  let n := nat_of_ascii c in (48 <=? n)%nat && (n <=? 57)%nat.

Definition digit_val (c : ascii) : Z := Z.of_nat (nat_of_ascii c) - 48.

(** Characters [int] and [str.strip] treat as white space (ASCII range). *)
Definition is_space (c : ascii) : bool :=
  let n := nat_of_ascii c in
  ((9 <=? n)%nat && (n <=? 13)%nat) || ((28 <=? n)%nat && (n <=? 32)%nat).

Fixpoint lstrip (s : string) : string :=
  match s with
  | String c s' => if is_space c then lstrip s' else s
  | EmptyString => s
  end.

Fixpoint rstrip (s : string) : string :=
  match s with
  | EmptyString => EmptyString
  | String c s' =>
      match rstrip s' with
      | EmptyString => if is_space c then EmptyString else String c EmptyString
      | t => String c t
      end
  end.

(** Decimal digits with single underscores between them, as [int] accepts. *)
Fixpoint int_digits (s : string) (acc : Z) (after_digit : bool) : option Z :=
  match s with
  | EmptyString => if after_digit then Some acc else None
  | String c s' =>
      if is_digit c then int_digits s' (10 * acc + digit_val c) true
      else if Ascii.eqb c "_" && after_digit then int_digits s' acc false
      else None
  end.

(** [int(s)] in base 10: [ValueError] on anything but an integer literal. *)
Definition int (s : string) : result Z :=
  match rstrip (lstrip s) with
  | String "-" body => of_option ValueError (option_map Z.opp (int_digits body 0 false))
  | String "+" body => of_option ValueError (int_digits body 0 false)
  | body => of_option ValueError (int_digits body 0 false)
  end.

(** [re.findall(r"\d+", s)]: the maximal runs of digits, left to right.
    [run] is the run being read, in reverse. *)
Fixpoint findall_digits_aux (s : string) (run : option string) : list string :=
  match s with
  | EmptyString => match run with Some r => [r] | None => [] end
  | String c s' =>
      if is_digit c then
        findall_digits_aux s'
          (Some (match run with Some r => r ++ String c EmptyString
                            | None => String c EmptyString end))
      else match run with
           | Some r => r :: findall_digits_aux s' None
           | None => findall_digits_aux s' None
           end
  end.

Definition findall_digits (s : string) : list string := findall_digits_aux s None.

(** [list(map(int, qs))] *)
Fixpoint map_int (qs : list string) : result (list Z) :=
  match qs with
  | [] => Returned []
  | q :: rest =>
      bind (int q) (fun n => bind (map_int rest) (fun ns => Returned (n :: ns)))
  end.

(** [str(n)] for a natural number. *)
Fixpoint str_nat_aux (fuel n : nat) (acc : string) : string :=
  match fuel with
  | O => acc
  | S fuel' =>
      let d := ascii_of_nat (48 + Nat.modulo n 10) in
      match Nat.div n 10 with
      | O => String d acc
      | q => str_nat_aux fuel' q (String d acc)
      end
  end.

Definition str_nat (n : nat) : string := str_nat_aux (S n) n EmptyString.

End Py.

(* ================================================================== *)
(** * [subgraph_calibration]: reading the calibration tool's output *)
(* ================================================================== *)

Module Calib.
Import Py.
Local Open Scope py_scope.

Definition output_dataQ_token : string := "Number of output dataQ:".

(** Lines 548-570.  [console_out] and [error] are the decoded stdout and
    stderr of the tool.  The result is the pair [(status, out_data_q)] the
    function returns; [None] stands for Python's [None]. *)
Definition parse_output (console_out error : string)
  : result (bool * option (list Z)) :=
  if negb (contains "error" console_out)
     && negb (contains "ERROR" console_out)
     && String.eqb error "" then
    match rfind output_dataQ_token console_out with
    | None => Returned (false, None)
    | Some out_buf_ind =>
        last_line <- getitem (split1 output_dataQ_token console_out) 1 ;;
        head <- getitem (split1 ". Output dataQ:" last_line) 0 ;;
        num_outputs <- int head ;;
        out_quants <- getitem (split1 ". Output dataQ:" last_line) 1 ;;
        quants <- getitem (split1 "End of output dataQ" out_quants) 0 ;;
        outq <- map_int (findall_digits quants) ;;
        if negb (num_outputs =? Z.of_nat (List.length outq))
        then Returned (false, None)
        else Returned (true, Some outq)
    end
  else Returned (false, None).

(** The whole function, from the point where the subprocess has been
    launched: [run] is [None] when [Popen], [communicate] or the ASCII
    decoding raised (the bare [except] of lines 538-546), and the captured
    pair otherwise.  Writing the raw input and the two descriptor files
    (lines 505-535) does not influence the returned value. *)
Definition subgraph_calibration (run : option (string * string))
  : result (bool * option (list Z)) :=
  match run with
  | None => Returned (false, None)
  | Some (console_out, error) => parse_output console_out error
  end.

End Calib.

(* ================================================================== *)
(** * NumPy arrays *)
(* ================================================================== *)

Module Np.

(** An [ndarray] of floats: its shape and its elements in C (row-major)
    order.  Elements are IEEE 754 binary floats as specified by
    [SpecFloat]; the format (precision and exponent range) is a parameter
    of the operations that round. *)
Record ndarray : Type := mk_ndarray {
  shape : list nat;
  dtype : string;
  data : list spec_float
}.

Definition spec_float_eq_dec (x y : spec_float) : {x = y} + {x <> y}.
Proof.
  decide equality; try apply Bool.bool_dec; try apply Z.eq_dec;
    apply Pos.eq_dec.
Defined.

Definition ndarray_eq_dec (x y : ndarray) : {x = y} + {x <> y}.
Proof.
  decide equality; try apply string_dec;
    try apply (list_eq_dec spec_float_eq_dec);
    apply (list_eq_dec Nat.eq_dec).
Defined.

End Np.

(* ================================================================== *)
(** * Relay expressions and modules *)
(* ================================================================== *)

Module Relay.

(** Checked types: tensors and tuples. *)
Inductive ty : Type :=
| TensorType (shape : list nat) (dtype : string)
| TupleType (fields : list ty).

(** Function attributes, a [DictAttrs]: [None] is Python's [None]. *)
Definition attrs : Type := option (list (string * string)).

(** The graph nodes the module handles.  Python compares nodes by object
    identity; here a node is identified with its structure, so that a node
    shared by several parents is the same subterm of each of them. *)
Inductive expr : Type :=
| Var (name_hint : string) (checked_type : ty)
| Constant (data : Np.ndarray)
| GlobalVar (name_hint : string)
| Op (name : string)
| Call (op : expr) (args : list expr)
| Tuple (fields : list expr)
| TupleGetItem (tuple_value : expr) (index : nat)
| Function (params : list expr) (body : expr) (fattrs : attrs).

Fixpoint ty_eq_dec (a b : ty) {struct a} : {a = b} + {a <> b}.
Proof.
  decide equality; try apply string_dec;
    try apply (list_eq_dec Nat.eq_dec);
    apply (list_eq_dec ty_eq_dec).
Defined.

Definition attrs_eq_dec (a b : attrs) : {a = b} + {a <> b}.
Proof.
  decide equality.
  apply list_eq_dec. decide equality; apply string_dec.
Defined.

Fixpoint expr_eq_dec (a b : expr) {struct a} : {a = b} + {a <> b}.
Proof.
  decide equality; try apply string_dec; try apply ty_eq_dec;
    try apply Np.ndarray_eq_dec; try apply Nat.eq_dec;
    try apply attrs_eq_dec;
    apply (list_eq_dec expr_eq_dec).
Defined.

Definition is_Op (e : expr) : bool :=
  match e with Op _ => true | _ => false end.

(** Size of a node, counting every constructor once. *)
Fixpoint size (e : expr) : nat :=
  match e with
  | Call op args => S (size op + list_sum (map size args))
  | Tuple fields => S (list_sum (map size fields))
  | TupleGetItem t _ => S (size t)
  | Function params body _ => S (list_sum (map size params) + size body)
  | _ => 1%nat
  end.

(** ** Function attributes *)

(** Truth value of [fn.attrs]: [None] and the empty dictionary are false. *)
Definition attrs_truthy (a : attrs) : bool :=
  match a with
  | Some (_ :: _) => true
  | _ => false
  end.

Fixpoint assoc_get (l : list (string * string)) (key : string) : option string :=
  match l with
  | [] => None
  | (k, v) :: rest => if String.eqb k key then Some v else assoc_get rest key
  end.

Fixpoint assoc_set (l : list (string * string)) (key value : string)
  : list (string * string) :=
  match l with
  | [] => [(key, value)]
  | (k, v) :: rest =>
      if String.eqb k key then (k, value) :: rest
      else (k, v) :: assoc_set rest key value
  end.

(** [fn.attrs[key]]: subscripting [None] or a missing key raises. *)
Definition attrs_get (a : attrs) (key : string) : Py.result string :=
  match a with
  | Some l => Py.of_option Py.TVMError (assoc_get l key)
  | None => Py.Raised Py.TVMError
  end.

Definition fn_attrs (f : expr) : Py.result attrs :=
  match f with
  | Function _ _ a => Py.Returned a
  | _ => Py.Raised Py.AttributeError
  end.

Definition fn_params (f : expr) : Py.result (list expr) :=
  match f with
  | Function params _ _ => Py.Returned params
  | _ => Py.Raised Py.AttributeError
  end.

Definition fn_body (f : expr) : Py.result expr :=
  match f with
  | Function _ body _ => Py.Returned body
  | _ => Py.Raised Py.AttributeError
  end.

(** [fn.with_attr(key, value)] *)
Definition with_attr (f : expr) (key value : string) : Py.result expr :=
  match f with
  | Function params body a =>
      Py.Returned
        (Function params body
           (Some (assoc_set (match a with Some l => l | None => [] end) key value)))
  | _ => Py.Raised Py.AttributeError
  end.

(** ** Modules *)

(** An [IRModule]: its global functions by name, in the order
    [get_global_vars] lists them (taken to be the order of insertion). *)
Definition IRModule : Type := list (string * expr).

Definition get_global_vars (m : IRModule) : list string := map fst m.

Fixpoint mod_get (m : IRModule) (name : string) : option expr :=
  match m with
  | [] => None
  | (k, f) :: rest => if String.eqb k name then Some f else mod_get rest name
  end.

(** [mod[name]] *)
Definition mod_item (m : IRModule) (name : string) : Py.result expr :=
  Py.of_option Py.TVMError (mod_get m name).

(** [mod[name] = f] with a string key: the definition is replaced when the
    name is bound and added otherwise. *)
Fixpoint mod_update (m : IRModule) (name : string) (f : expr) : IRModule :=
  match m with
  | [] => [(name, f)]
  | (k, g) :: rest =>
      if String.eqb k name then (k, f) :: rest
      else (k, g) :: mod_update rest name f
  end.

(** [mod[GlobalVar(name)] = f] with a new [GlobalVar] object: a second
    global of the same name is refused. *)
Definition mod_add (m : IRModule) (name : string) (f : expr) : Py.result IRModule :=
  match mod_get m name with
  | Some _ => Py.Raised Py.TVMError
  | None => Py.Returned (m ++ [(name, f)])%list
  end.

End Relay.

(* ================================================================== *)
(** * Graph indexer and adjacency resolver *)
(* ================================================================== *)

Module Indexer.
Import Py Relay.
Local Open Scope list_scope.
Local Open Scope py_scope.

(** The node dictionary: a Python [dict] from node to index, kept in
    insertion order (the order [for node in all_nodes] iterates in). *)
Definition node_dict : Type := list (expr * nat).

Fixpoint dict_get (d : node_dict) (node : expr) : option nat :=
  match d with
  | [] => None
  | (k, v) :: rest => if expr_eq_dec k node then Some v else dict_get rest node
  end.

(** [node in node_dict] *)
Definition dict_mem (d : node_dict) (node : expr) : bool :=
  match dict_get d node with Some _ => true | None => false end.

(** [all_nodes[node]] *)
Definition dict_item (d : node_dict) (node : expr) : result Z :=
  match dict_get d node with
  | Some v => Returned (Z.of_nat v)
  | None => Raised KeyError
  end.

Definition keys (d : node_dict) : list expr := map fst d.
Definition values (d : node_dict) : list nat := map snd d.

(** Lines 39-44. *)
Definition traverse_expr (node : expr) (d : node_dict) : node_dict :=
  if dict_mem d node then d
  else if is_Op node then d
  else d ++ [(node, List.length d)].

(** Modelled from the spec: [relay.analysis.post_order_visit], which is
    part of TVM but not of the module.  Section 4.1 describes a single-pass
    post-order traversal that visits each argument or field before the node
    itself and reaches every node once.  [post_order] lists the nodes of the
    tree below [e], children first; [visit_order] keeps the first visit of
    each node; [post_order_visit] runs the callback over them. *)
Fixpoint post_order (e : expr) : list expr :=
  match e with
  | Call op args => post_order op ++ flat_map post_order args ++ [e]
  | Tuple fields => flat_map post_order fields ++ [e]
  | TupleGetItem t _ => post_order t ++ [e]
  | Function params body _ =>
      flat_map post_order params ++ post_order body ++ [e]
  | _ => [e]
  end.

(** The first occurrence of every element, in order. *)
Fixpoint first_visits (seen l : list expr) : list expr :=
  match l with
  | [] => []
  | x :: rest =>
      if in_dec expr_eq_dec x seen then first_visits seen rest
      else x :: first_visits (x :: seen) rest
  end.

Definition visit_order (e : expr) : list expr := first_visits [] (post_order e).

Definition post_order_visit {D} (e : expr) (fvisit : expr -> D -> D) (d : D) : D :=
  fold_left (fun acc node => fvisit node acc) (visit_order e) d.

(** Lines 1165-1166 and 1201-1202: the node dictionary of a function. *)
Definition index_nodes (root : expr) : node_dict :=
  post_order_visit root traverse_expr [].

(** Lines 74-85: the loop of [find_in_nodes] over the arguments, with
    [rec] the recursive call for a Tuple argument. *)
Definition scan_in_nodes (rec : expr -> result (list Z))
    (all_nodes : node_dict) (input_prefix : string)
  : list expr -> list Z -> result (list Z) :=
  fix scan (in_nodes : list expr) (input_nodes : list Z) : result (list Z) :=
    match in_nodes with
    | [] => Returned input_nodes
    | node :: rest =>
        match node with
        | Call _ _ =>
            idx <- dict_item all_nodes node ;;
            scan rest (input_nodes ++ [idx])
        | TupleGetItem tuple_value _ =>
            idx <- dict_item all_nodes tuple_value ;;
            scan rest (input_nodes ++ [idx])
        | Tuple _ =>
            sub <- rec node ;;
            scan rest (input_nodes ++ sub)
        | Var name_hint _ =>
            if contains input_prefix name_hint && contains "_i" name_hint
            then scan rest (input_nodes ++ [-1])
            else scan rest input_nodes
        | _ => scan rest input_nodes
        end
    end.

(** Lines 46-87.  A node that is neither a Call nor a Tuple leaves
    [in_nodes] unbound. *)
Fixpoint find_in_nodes (all_nodes : node_dict) (this_node : expr)
    (input_prefix : string) {struct this_node} : result (list Z) :=
  match this_node with
  | Call _ args =>
      scan_in_nodes (fun n => find_in_nodes all_nodes n input_prefix)
        all_nodes input_prefix args []
  | Tuple fields =>
      scan_in_nodes (fun n => find_in_nodes all_nodes n input_prefix)
        all_nodes input_prefix fields []
  | _ => Raised UnboundLocalError
  end.

(** [this_node in node.args] *)
Definition node_in (this_node : expr) (l : list expr) : bool :=
  if in_dec expr_eq_dec this_node l then true else false.

(** Lines 115-123: the loop over the fields of a Tuple consumer;
    [tuple_node_outs] is the result of the recursive call on the Tuple. *)
Fixpoint scan_fields (all_nodes : node_dict) (this_node node : expr)
    (tuple_node_outs : result (list Z)) (fields : list expr)
    (output_nodes : list Z) : result (list Z) :=
  match fields with
  | [] => Returned output_nodes
  | f :: rest =>
      if expr_eq_dec this_node f then
        outs <- tuple_node_outs ;;
        match outs with
        | [] =>
            idx <- dict_item all_nodes node ;;
            scan_fields all_nodes this_node node tuple_node_outs rest
              (output_nodes ++ [idx])
        | _ =>
            scan_fields all_nodes this_node node tuple_node_outs rest
              (output_nodes ++ outs)
        end
      else scan_fields all_nodes this_node node tuple_node_outs rest output_nodes
  end.

(** Lines 90-125.  [fuel] bounds the depth of the recursion through
    consumers; running out of it is Python's [RecursionError]. *)
Fixpoint find_out_nodes_fuel (fuel : nat) (all_nodes : node_dict)
    (this_node : expr) : result (list Z) :=
  match fuel with
  | O => Raised RecursionError
  | S fuel' =>
      (fix items (l : node_dict) (output_nodes : list Z) : result (list Z) :=
         match l with
         | [] => Returned output_nodes
         | (node, node_idx) :: rest =>
             match node with
             | Call _ args =>
                 if node_in this_node args
                 then items rest (output_nodes ++ [Z.of_nat node_idx])
                 else items rest output_nodes
             | TupleGetItem tuple_value _ =>
                 if expr_eq_dec this_node tuple_value then
                   outs <- find_out_nodes_fuel fuel' all_nodes node ;;
                   items rest (output_nodes ++ outs)
                 else items rest output_nodes
             | Tuple fields =>
                 output_nodes' <-
                   scan_fields all_nodes this_node node
                     (find_out_nodes_fuel fuel' all_nodes node)
                     fields output_nodes ;;
                 items rest output_nodes'
             | _ => items rest output_nodes
             end
         end) all_nodes []
  end.

(** The largest node of the dictionary. *)
Definition max_size (d : node_dict) : nat :=
  fold_right Nat.max O (map size (keys d)).

(** A consumer is strictly larger than the node it consumes, so the
    recursion is never deeper than the largest node of the dictionary. *)
Definition find_out_nodes (all_nodes : node_dict) (this_node : expr)
  : result (list Z) :=
  find_out_nodes_fuel (S (max_size all_nodes)) all_nodes this_node.

(** Lines 621-625: the record handed to the C library.  A [None] list is
    the NULL pointer. *)
Record InOutNodes : Type := mk_InOutNodes {
  this_node_idx : Z;
  num_in_nodes : Z;
  num_out_nodes : Z;
  in_nodes_ptr : option (list Z);
  out_nodes_ptr : option (list Z)
}.

Definition list_or_null (l : list Z) : option (list Z) :=
  match l with [] => None | _ => Some l end.

(** Lines 127-172. *)
Definition find_in_out_nodes (all_nodes : node_dict) (this_node : expr)
    (input_prefix : string) : result InOutNodes :=
  this_idx <- dict_item all_nodes this_node ;;
  in_nodes <- find_in_nodes all_nodes this_node input_prefix ;;
  out_nodes <- find_out_nodes all_nodes this_node ;;
  Returned {| this_node_idx := this_idx;
              num_in_nodes := Z.of_nat (List.length in_nodes);
              num_out_nodes := Z.of_nat (List.length out_nodes);
              in_nodes_ptr := list_or_null in_nodes;
              out_nodes_ptr := list_or_null out_nodes |}.

End Indexer.

(* ================================================================== *)
(** * Subgraph extraction and pruning *)
(* ================================================================== *)

Module Prune.
Import Py Relay.
Local Open Scope list_scope.
Local Open Scope py_scope.

(** A Python [dict] keyed by nodes. *)
Definition var_map : Type := list (expr * expr).

Fixpoint var_map_get (m : var_map) (k : expr) : option expr :=
  match m with
  | [] => None
  | (k', v) :: rest => if expr_eq_dec k' k then Some v else var_map_get rest k
  end.

Fixpoint var_map_set (m : var_map) (k v : expr) : var_map :=
  match m with
  | [] => [(k, v)]
  | (k', v') :: rest =>
      if expr_eq_dec k' k then (k', v) :: rest
      else (k', v') :: var_map_set rest k v
  end.

(** ** [VarReplacer] (lines 224-232)

    [ExprMutator] (TVM's [expr_functor.py]) rebuilds every node from its
    visited children and returns leaves as they are; a visit is memoised
    per object, which a pure visit on structure does not observe. *)
Fixpoint VarReplacer (m : var_map) (e : expr) : expr :=
  match e with
  | Var _ _ =>
      match var_map_get m e with
      | Some r => r
      | None => e
      end
  | Call op args => Call (VarReplacer m op) (map (VarReplacer m) args)
  | Tuple fields => Tuple (map (VarReplacer m) fields)
  | TupleGetItem t i => TupleGetItem (VarReplacer m t) i
  | Function params body a =>
      Function (map (VarReplacer m) params) (VarReplacer m body) a
  | _ => e
  end.

(** [[f(x) for x in l]] for a visit that can raise. *)
Definition map_result {A B} (f : A -> result B) : list A -> result (list B) :=
  fix go (l : list A) : result (list B) :=
    match l with
    | [] => Returned []
    | x :: rest => y <- f x ;; ys <- go rest ;; Returned (y :: ys)
    end.

(** [for arg, param in zip(args, params): var_map[param] = visit(arg)]
    for a visit that can raise. *)
Definition zip_var_map (visit : expr -> result expr)
  : list expr -> list expr -> var_map -> result var_map :=
  fix go (args params : list expr) (m : var_map) : result var_map :=
    match args, params with
    | arg :: args', param :: params' =>
        v <- visit arg ;;
        go args' params' (var_map_set m param v)
    | _, _ => Returned m
    end.

(** ** [UnpackComposites] (lines 234-254) *)

Fixpoint Unpacker (e : expr) : result expr :=
  match e with
  | Call op args =>
      let default :=
        new_fn <- Unpacker op ;;
        new_args <- map_result Unpacker args ;;
        Returned (Call new_fn new_args) in
      match op with
      | Function params body a =>
          if attrs_truthy a then
            composite <- attrs_get a "Composite" ;;
            if negb (String.eqb composite "") then
              m <- zip_var_map Unpacker args params [] ;;
              Returned (VarReplacer m body)
            else default
          else default
      | _ => default
      end
  | Tuple fields =>
      fields' <- map_result Unpacker fields ;;
      Returned (Tuple fields')
  | TupleGetItem t i =>
      t' <- Unpacker t ;;
      Returned (TupleGetItem t' i)
  | Function params body a =>
      params' <- map_result Unpacker params ;;
      body' <- Unpacker body ;;
      Returned (Function params' body' a)
  | _ => Returned e
  end.

(** [not mod[name].attrs or mod[name].attrs["Compiler"] != compiler],
    negated: the function carries the compiler's tag. *)
Definition is_tagged (f : expr) (compiler : string) : result bool :=
  a <- fn_attrs f ;;
  if attrs_truthy a then
    c <- attrs_get a "Compiler" ;;
    Returned (String.eqb c compiler)
  else Returned false.

Fixpoint unpack_globals (m : IRModule) (compiler : string) (names : list string)
  : result IRModule :=
  match names with
  | [] => Returned m
  | name :: rest =>
      f <- mod_item m name ;;
      tagged <- is_tagged f compiler ;;
      if negb tagged then unpack_globals m compiler rest
      else
        f' <- Unpacker f ;;
        unpack_globals (mod_update m name f') compiler rest
  end.

Definition UnpackComposites (m : IRModule) (compiler : string) : result IRModule :=
  unpack_globals m compiler (get_global_vars m).

(** ** [RemoveMultiplyByOne] (lines 316-333) *)

(** The value of the float is exactly 1. *)
Definition is_one (v : spec_float) : bool :=
  match v with
  | S754_finite false m e => (e <=? 0) && (Zpos m =? 2 ^ (- e))
  | _ => false
  end.

(** [data.shape == () and data.item() == 1.0] *)
Definition is_scalar_one (d : Np.ndarray) : bool :=
  match Np.shape d, Np.data d with
  | [], [v] => is_one v
  | _, _ => false
  end.

Definition is_Constant (e : expr) : bool :=
  match e with Constant _ => true | _ => false end.

Definition constant_is_one (e : expr) : bool :=
  match e with Constant d => is_scalar_one d | _ => false end.

(** [expr.op.name]: only operators have a [name]. *)
Definition op_name (op : expr) : result string :=
  match op with
  | Op name => Returned name
  | _ => Raised AttributeError
  end.

Fixpoint RemoveMultiplyByOne (e : expr) : result expr :=
  match e with
  | Call op args =>
      let default :=
        new_fn <- RemoveMultiplyByOne op ;;
        new_args <- map_result RemoveMultiplyByOne args ;;
        Returned (Call new_fn new_args) in
      name <- op_name op ;;
      if String.eqb name "multiply" then
        arg1 <- getitem args 1 ;;
        if constant_is_one arg1 then getitem args 0
        else
          arg0 <- getitem args 0 ;;
          if constant_is_one arg0 then Returned arg1
          else default
      else default
  | Tuple fields =>
      fields' <- map_result RemoveMultiplyByOne fields ;;
      Returned (Tuple fields')
  | TupleGetItem t i =>
      t' <- RemoveMultiplyByOne t ;;
      Returned (TupleGetItem t' i)
  | Function params body a =>
      params' <- map_result RemoveMultiplyByOne params ;;
      body' <- RemoveMultiplyByOne body ;;
      Returned (Function params' body' a)
  | _ => Returned e
  end.

(** ** [VarRenamer] (lines 369-378) *)

(** ["_".join(name.split('_')[:2])] *)
Definition subgraph_of (name : string) : string :=
  join "_" (firstn 2 (split_char "_" name)).

Definition VarRenamer_visit_var (new_subgraph_name : string) (var : expr)
  : result expr :=
  match var with
  | Var name_hint checked_type =>
      if negb (String.eqb (subgraph_of name_hint) new_subgraph_name) then
        slot <- getitem (split_char "_" name_hint) 2 ;;
        Returned (Var (new_subgraph_name ++ "_" ++ slot)%string checked_type)
      else Returned var
  | _ => Returned var
  end.

Fixpoint VarRenamer (new_subgraph_name : string) (e : expr) : result expr :=
  match e with
  | Var _ _ => VarRenamer_visit_var new_subgraph_name e
  | Call op args =>
      op' <- VarRenamer new_subgraph_name op ;;
      args' <- map_result (VarRenamer new_subgraph_name) args ;;
      Returned (Call op' args')
  | Tuple fields =>
      fields' <- map_result (VarRenamer new_subgraph_name) fields ;;
      Returned (Tuple fields')
  | TupleGetItem t i =>
      t' <- VarRenamer new_subgraph_name t ;;
      Returned (TupleGetItem t' i)
  | Function params body a =>
      params' <- map_result (VarRenamer new_subgraph_name) params ;;
      body' <- VarRenamer new_subgraph_name body ;;
      Returned (Function params' body' a)
  | _ => Returned e
  end.

(** ** [SubgraphRemover] (lines 380-418) *)

(** The mutable part of the mutator: its counter, the module being built
    and the memo table of [ExprMutator.visit]. *)
Record remover_state : Type := mk_state {
  count : nat;
  new_mod : IRModule;
  memo_map : var_map
}.

Definition memoise (e r : expr) (st : remover_state) : remover_state :=
  {| count := count st; new_mod := new_mod st;
     memo_map := var_map_set (memo_map st) e r |}.

Definition name_in (name : string) (l : list string) : bool :=
  existsb (String.eqb name) l.

Section SubgraphRemover.
Variable subgraphs_to_remove : list string.
Variable mod_ : IRModule.
Variable rename_starting_from_0 : bool.

Definition visitor : Type := expr -> remover_state -> result (expr * remover_state).

(** [[self.visit(arg) for arg in args]] *)
Definition visit_args (visit : visitor)
  : list expr -> remover_state -> result (list expr * remover_state) :=
  fix go (l : list expr) (st : remover_state) :=
    match l with
    | [] => Returned ([], st)
    | x :: rest =>
        '(x', st1) <- visit x st ;;
        '(rest', st2) <- go rest st1 ;;
        Returned (x' :: rest', st2)
    end.

(** [for arg, param in zip(call.args, func.params):
       var_map[param] = super().visit(arg)] *)
Definition visit_zip (visit : visitor)
  : list expr -> list expr -> var_map -> remover_state
    -> result (var_map * remover_state) :=
  fix go (args params : list expr) (m : var_map) (st : remover_state) :=
    match args, params with
    | arg :: args', param :: params' =>
        '(v, st1) <- visit arg st ;;
        go args' params' (var_map_set m param v) st1
    | _, _ => Returned (m, st)
    end.

(** Lines 401-417: a call of a subgraph that is kept. *)
Definition copy_subgraph (visit : visitor) (name : string) (args : list expr)
    (st : remover_state) : result (expr * remover_state) :=
  if rename_starting_from_0 then
    new_name <- getitem (split_char "_" name) 0 ;;
    let new_name := (new_name ++ "_" ++ str_nat (count st))%string in
    let st := {| count := S (count st); new_mod := new_mod st;
                 memo_map := memo_map st |} in
    '(args', st) <- visit_args visit args st ;;
    func <- mod_item mod_ name ;;
    subgraph_func <- VarRenamer new_name func ;;
    subgraph_func <- with_attr subgraph_func "global_symbol" new_name ;;
    new_mod' <- mod_add (new_mod st) new_name subgraph_func ;;
    Returned (Call (GlobalVar new_name) args',
              {| count := count st; new_mod := new_mod';
                 memo_map := memo_map st |})
  else
    '(args', st) <- visit_args visit args st ;;
    func <- mod_item mod_ name ;;
    new_mod' <- mod_add (new_mod st) name func ;;
    Returned (Call (GlobalVar name) args',
              {| count := count st; new_mod := new_mod';
                 memo_map := memo_map st |}).

(** [ExprMutator.visit] with [visit_call] overridden (lines 389-418);
    the other nodes take the defaults of [ExprMutator]. *)
Fixpoint visit (e : expr) (st : remover_state) {struct e}
  : result (expr * remover_state) :=
  match var_map_get (memo_map st) e with
  | Some r => Returned (r, st)
  | None =>
      '(r, st') <-
        match e with
        | Call op args =>
            let default :=
              '(new_fn, st1) <- visit op st ;;
              '(new_args, st2) <- visit_args visit args st1 ;;
              Returned (Call new_fn new_args, st2) in
            match op with
            | GlobalVar name =>
                if name_in name subgraphs_to_remove then
                  func <- mod_item mod_ name ;;
                  params <- fn_params func ;;
                  '(m, st1) <- visit_zip visit args params [] st ;;
                  body <- fn_body func ;;
                  Returned (VarReplacer m body, st1)
                else if negb (String.eqb name "main") then
                  copy_subgraph visit name args st
                else default
            | _ => default
            end
        | Tuple fields =>
            '(fields', st1) <- visit_args visit fields st ;;
            Returned (Tuple fields', st1)
        | TupleGetItem t i =>
            '(t', st1) <- visit t st ;;
            Returned (TupleGetItem t' i, st1)
        | Function params body a =>
            '(params', st1) <- visit_args visit params st ;;
            '(body', st2) <- visit body st1 ;;
            Returned (Function params' body' a, st2)
        | _ => Returned (e, st)
        end ;;
      Returned (r, memoise e r st')
  end.

End SubgraphRemover.

(** [new_mod = tvm.IRModule();
     new_mod["main"] = SubgraphRemover(names, mod, new_mod).visit(mod["main"])] *)
Definition remove_subgraphs (names : list string) (m : IRModule) : result IRModule :=
  main <- mod_item m "main" ;;
  '(new_main, st) <- visit names m true main
                       {| count := O; new_mod := []; memo_map := [] |} ;;
  Returned (mod_update (new_mod st) "main" new_main).

Definition is_TupleType (t : ty) : bool :=
  match t with TupleType _ => true | _ => false end.

Definition checked_type_of (e : expr) : result ty :=
  match e with
  | Var _ t => Returned t
  | _ => Raised AttributeError
  end.

(** Lines 420-431. *)
Fixpoint arity_offenders (m : IRModule) (compiler : string) (names : list string)
  : result (list string) :=
  match names with
  | [] => Returned []
  | name :: rest =>
      f <- mod_item m name ;;
      tagged <- is_tagged f compiler ;;
      if negb tagged then arity_offenders m compiler rest
      else
        params <- fn_params f ;;
        offends <-
          (if negb (Nat.eqb (List.length params) 1) then Returned true
           else p <- getitem params 0 ;;
                t <- checked_type_of p ;;
                Returned (is_TupleType t)) ;;
        others <- arity_offenders m compiler rest ;;
        Returned (if offends : bool then name :: others else others)
  end.

Definition PruneSubgraphsWithMoreThanOneInput (m : IRModule) (compiler : string)
  : result IRModule :=
  subgraph_names_to_remove <- arity_offenders m compiler (get_global_vars m) ;;
  remove_subgraphs subgraph_names_to_remove m.

(** ** [PruneSubgraphs] (lines 433-447) *)

(** [sorted(l, key=...)]: stable, ascending. *)
Fixpoint insert_by {A} (key : A -> Z) (x : A) (l : list A) : list A :=
  match l with
  | [] => [x]
  | y :: rest =>
      if key x <=? key y then x :: l else y :: insert_by key x rest
  end.

Definition sorted_by {A} (key : A -> Z) (l : list A) : list A :=
  fold_right (insert_by key) [] l.

(** [l[:stop]] for any integer [stop]. *)
Definition slice_to {A} (stop : Z) (l : list A) : list A :=
  let n := Z.of_nat (List.length l) in
  let stop' := if stop <? 0 then Z.max 0 (stop + n) else Z.min stop n in
  firstn (Z.to_nat stop') l.

Section PruneSubgraphs.
(** [relay.analysis.get_total_mac_number], an analysis of TVM. *)
Variable get_total_mac_number : expr -> Z.

Fixpoint collect_macs (m : IRModule) (compiler : string) (names : list string)
  : result (list (string * Z)) :=
  match names with
  | [] => Returned []
  | name :: rest =>
      f <- mod_item m name ;;
      tagged <- is_tagged f compiler ;;
      if negb tagged then collect_macs m compiler rest
      else
        others <- collect_macs m compiler rest ;;
        Returned ((name, get_total_mac_number f) :: others)
  end.

Definition subgraphs_to_remove (m : IRModule) (compiler : string)
    (num_subgraphs_to_keep : Z) : result (list string) :=
  subgraph_with_macs <- collect_macs m compiler (get_global_vars m) ;;
  let subgraph_with_macs := sorted_by snd subgraph_with_macs in
  Returned (map fst (slice_to (- num_subgraphs_to_keep) subgraph_with_macs)).

Definition PruneSubgraphs (m : IRModule) (compiler : string)
    (num_subgraphs_to_keep : Z) : result IRModule :=
  subgraph_names_to_remove <- subgraphs_to_remove m compiler num_subgraphs_to_keep ;;
  remove_subgraphs subgraph_names_to_remove m.

End PruneSubgraphs.

(** The test both passes apply to a global name: [mod[name]] carries the
    compiler's tag. *)
Definition tagged_name (m : IRModule) (compiler : string) (name : string) : bool :=
  match mod_item m name with
  | Returned f =>
      match is_tagged f compiler with
      | Returned b => b
      | Raised _ => false
      end
  | Raised _ => false
  end.

(** The tagged subgraphs of a module. *)
Definition tagged_subgraphs (m : IRModule) (compiler : string) : list string :=
  filter (tagged_name m compiler) (get_global_vars m).

End Prune.

(* ================================================================== *)
(** * Quantization of boundary tensors *)
(* ================================================================== *)

Module Quant.
Import Py Np.
Local Open Scope list_scope.
Local Open Scope py_scope.

(** The binary formats of NumPy's [float32] and [float64]. *)
Inductive format : Type := binary32 | binary64.

Definition prec (f : format) : Z :=
  match f with binary32 => 24 | binary64 => 53 end.

Definition emax (f : format) : Z :=
  match f with binary32 => 128 | binary64 => 1024 end.

Definition is_nan (x : spec_float) : bool :=
  match x with S754_nan => true | _ => false end.

Definition is_zero (x : spec_float) : bool :=
  match x with S754_zero _ => true | _ => false end.

Definition is_infinity (x : spec_float) : bool :=
  match x with S754_infinity _ => true | _ => false end.

(** [x < 0] *)
Definition is_negative (x : spec_float) : bool := SFltb x (S754_zero false).

(** NumPy's [maximum] and [minimum] on scalars: a NaN wins. *)
Definition np_maximum (a b : spec_float) : spec_float :=
  if is_nan a || SFltb b a then a else b.

Definition np_minimum (a b : spec_float) : spec_float :=
  if is_nan a || SFltb a b then a else b.

(** [np.amin] and [np.amax] of all the elements; an empty array has no
    minimum. *)
Definition amin (a : ndarray) : result spec_float :=
  match data a with
  | [] => Raised ValueError
  | x :: rest => Returned (fold_left np_minimum rest x)
  end.

Definition amax (a : ndarray) : result spec_float :=
  match data a with
  | [] => Raised ValueError
  | x :: rest => Returned (fold_left np_maximum rest x)
  end.

(** Python's [max(a, b)]: the first argument unless the second is larger. *)
Definition py_max (a b : spec_float) : spec_float :=
  if SFltb a b then b else a.

(** [input_tensor[0,:]]: the first entry along the first axis of an array
    of two or more dimensions. *)
Definition batch0 (a : ndarray) : result ndarray :=
  match shape a with
  | S _ :: (_ :: _) as rest =>
      Returned {| shape := rest; dtype := dtype a;
                  data := firstn (fold_right Nat.mul 1%nat rest) (data a) |}
  | _ => Raised IndexError
  end.

(** [a.transpose(2,0,1)] of a three-dimensional array, elements in C order:
    entry [(c,h,w)] of the result is entry [(h,w,c)] of [a]. *)
Definition transpose_201 (a : ndarray) : ndarray :=
  match shape a with
  | [H; W; C] =>
      {| shape := [C; H; W]; dtype := dtype a;
         data :=
           flat_map (fun c =>
             flat_map (fun h =>
               map (fun w => nth ((h * W + w) * C + c) (data a) S754_nan)
                 (seq 0 W))
               (seq 0 H))
             (seq 0 C) |}
  | _ => a
  end.

(** The quotient of [m] by [d] rounded to the nearest integer, ties to
    the even one. *)
Definition round_half_even (m d : Z) : Z :=
  let q := m / d in
  match 2 * (m mod d) ?= d with
  | Lt => q
  | Gt => q + 1
  | Eq => if Z.even q then q else q + 1
  end.

Section Format.
Variable fmt : format.

(** The float of an integer literal. *)
Definition of_Z (n : Z) : spec_float :=
  binary_normalize (prec fmt) (emax fmt) n 0 false.

(** [np.rint]: the nearest integral value, ties to even; zeros,
    infinities and NaN are returned as they are. *)
Definition rint (x : spec_float) : spec_float :=
  match x with
  | S754_finite s m e =>
      if 0 <=? e then x
      else match round_half_even (Zpos m) (2 ^ (- e)) with
           | Zpos p => binary_round (prec fmt) (emax fmt) s p 0
           | _ => S754_zero s
           end
  | _ => x
  end.

(** [np.clip(z, lo, hi)] on a scalar. *)
Definition clip (z lo hi : spec_float) : spec_float :=
  np_minimum (np_maximum z lo) hi.

(** Lines 189-222.  The result is [(output, scale, sign)], [output]
    being the elements of the flattened array.  All operations are
    carried out in the one format [fmt]. *)
Definition tensor_quant_flatten (input_tensor : ndarray) (data_layout : string)
  : result (list spec_float * spec_float * Z) :=
  input_tensor <- batch0 input_tensor ;;
  let input_tensor :=
    if String.eqb data_layout "NHWC"
       && Nat.eqb (List.length (shape input_tensor)) 3
    then transpose_201 input_tensor else input_tensor in
  lowest <- amin input_tensor ;;
  '(sign, scale, quant_min, quant_max) <-
    (if SFleb (S754_zero false) lowest then
       highest <- amax input_tensor ;;
       Returned (0, SFdiv (prec fmt) (emax fmt) (of_Z 255) highest, 0, 255)
     else
       lowest <- amin input_tensor ;;
       highest <- amax input_tensor ;;
       Returned (1, SFdiv (prec fmt) (emax fmt) (of_Z 128)
                      (py_max (SFabs lowest) highest), -128, 127)) ;;
  let y := map (fun x => SFmul (prec fmt) (emax fmt) x scale) (data input_tensor) in
  let z := map rint y in
  let z := map (fun v => clip v (of_Z quant_min) (of_Z quant_max)) z in
  Returned (z, scale, sign).

End Format.

End Quant.

(* ================================================================== *)
(** * Effects: the calls that leave the module *)
(* ================================================================== *)

Module Eff.
Import Py.

(** The calls into the native import library that are modelled. *)
Inductive lib_call : Type :=
| tidlImportOutData (n : Z)
| tidlImportLinkNodes (in_out_nodes : Indexer.InOutNodes).

(** What the compiler does beyond computing: the graph passes it runs, the
    graph execution, loading and closing the library and the calls into it,
    in the order they happen. *)
Inductive event : Type :=
| RunPass (name : string)
| ExecuteGraph
| LoadLibrary (path : string)
| CloseLibrary
| LibCall (c : lib_call).

(** A computation reads the history of events so far and extends it; an
    exception keeps the events that happened before it. *)
Definition M (A : Type) : Type := list event -> result A * list event.

Definition ret {A} (a : A) : M A := fun h => (Returned a, h).

Definition raise {A} (e : exn) : M A := fun h => (Raised e, h).

Definition bindM {A B} (c : M A) (k : A -> M B) : M B :=
  fun h =>
    match c h with
    | (Returned a, h') => k a h'
    | (Raised e, h') => (Raised e, h')
    end.

Definition lift {A} (r : result A) : M A := fun h => (r, h).

Definition emit (ev : event) : M unit := fun h => (Returned tt, (h ++ [ev])%list).

(** An external step: it is recorded, then it returns or raises. *)
Definition step {A} (ev : event) (r : result A) : M A :=
  bindM (emit ev) (fun _ => lift r).

Declare Scope eff_scope.
Delimit Scope eff_scope with eff.
Notation "x <~ c ;; k" := (bindM c (fun x => k))
  (at level 61, c at next level, right associativity) : eff_scope.
Notation "' p <~ c ;; k" := (bindM c (fun 'p => k))
  (at level 61, p pattern, c at next level, right associativity) : eff_scope.

End Eff.

(* ================================================================== *)
(** * Accelerator importer *)
(* ================================================================== *)

Module Importer.
Import Py Relay Indexer Eff.
Local Open Scope list_scope.
Local Open Scope eff_scope.

Definition MAX_NUM_OUTPUTS_PER_DATA_LAYER : nat := 16.

Section Session.
Variable tidl_target : string.

(** The value [tidlImportLinkNodes] returns, which may depend on all the
    calls made before. *)
Variable link_status : list event -> InOutNodes -> Z.

(** [_tidlImportLinkNodes(in_out_nodes, ...)] *)
Definition call_link (ion : InOutNodes) : M Z :=
  fun h => (Returned (link_status h ion), h ++ [LibCall (tidlImportLinkNodes ion)]).

(** One round of the loop of lines 1108-1140: the data layer of
    [nodes_for_this_data_layer] inputs starting at [imported_nodes]. *)
Definition import_out_data (in_nodes : list Z) (imported_nodes new_node_ind : nat)
    (nodes_for_this_data_layer : nat) : M Z :=
  _ <~ emit (LibCall (tidlImportOutData (Z.of_nat nodes_for_this_data_layer))) ;;
  call_link
    {| this_node_idx := Z.of_nat new_node_ind;
       num_in_nodes := Z.of_nat nodes_for_this_data_layer;
       num_out_nodes := 0;
       in_nodes_ptr :=
         Some (firstn nodes_for_this_data_layer (skipn imported_nodes in_nodes));
       out_nodes_ptr := None |}.

(** Lines 1108-1141: the [while] loop and the [return True] after it. *)
Equations? out_data_loop (in_nodes : list Z) (imported_nodes new_node_ind : nat)
    (h : list event) : result bool * list event
    by wf (List.length in_nodes - imported_nodes)%nat lt :=
  out_data_loop in_nodes imported_nodes new_node_ind h
    with lt_dec imported_nodes (List.length in_nodes) => {
    | right _ := (Returned true, h)
    | left _
        with Nat.ltb (List.length in_nodes - imported_nodes)
               MAX_NUM_OUTPUTS_PER_DATA_LAYER => {
        | true :=
            bindM (import_out_data in_nodes imported_nodes new_node_ind
                     (List.length in_nodes - imported_nodes))
              (fun status =>
                 if status =? 0 then ret false else ret true) h
        | false
            with import_out_data in_nodes imported_nodes new_node_ind
                   MAX_NUM_OUTPUTS_PER_DATA_LAYER h => {
            | (Raised e, h') := (Raised e, h')
            | (Returned status, h') :=
                if status =? 0 then (Returned false, h')
                else out_data_loop in_nodes
                       (imported_nodes + MAX_NUM_OUTPUTS_PER_DATA_LAYER)
                       (new_node_ind + 1) h' } } }.
Proof. unfold MAX_NUM_OUTPUTS_PER_DATA_LAYER. lia. Qed.

(** Lines 1097-1144. *)
Definition tidl_import_tuple_node (all_nodes : node_dict) (node : expr) : M bool :=
  out_nodes <~ lift (find_out_nodes all_nodes node) ;;
  if Nat.eqb (List.length out_nodes) 0 then
    in_nodes <~ lift (find_in_nodes all_nodes node tidl_target) ;;
    out_data_loop in_nodes 0 (List.length all_nodes + 1)
  else ret true.

(** Lines 1164-1172: the names of the subgraphs to import, read off the
    nodes of [main]. *)
Definition global_var_names (all_nodes : node_dict) : list string :=
  flat_map (fun node =>
              match node with
              | GlobalVar name_hint =>
                  if contains tidl_target name_hint then [name_hint] else []
              | _ => []
              end) (keys all_nodes).

Definition tidl_subgraphs (m : IRModule) : result (list string) :=
  Py.bind (mod_item m "main") (fun main =>
  Returned (global_var_names (index_nodes main))).

Section ImportRelayIR.
Context {params tensors : Type}.

(** Lines 1179-1256, the body of the loop over the subgraphs: [false]
    when it ends in [return False], [true] when it runs to its end. *)
Variable import_subgraph : IRModule -> params -> tensors -> string -> M bool.

Fixpoint import_all (m : IRModule) (p : params) (t : tensors)
    (names : list string) : M bool :=
  match names with
  | [] => ret true
  | name :: rest =>
      ok <~ import_subgraph m p t name ;;
      if ok : bool then import_all m p t rest else ret false
  end.

(** Lines 1146-1257. *)
Definition ImportRelayIR (m : IRModule) (p : params) (t : tensors) : M bool :=
  names <~ lift (tidl_subgraphs m) ;;
  if Nat.eqb (List.length names) 0 then ret false
  else import_all m p t names.

End ImportRelayIR.

End Session.

End Importer.

(* ================================================================== *)
(** * Compilation orchestrator *)
(* ================================================================== *)

Module Compiler.
Import Py Relay Eff.
Local Open Scope list_scope.
Local Open Scope eff_scope.

(** The attributes [TIDLCompiler.__init__] sets from its keyword
    arguments (all four taken to be given); [tidl_tools_path] may be
    Python's [None]. *)
Record TIDLCompiler : Type := mk_TIDLCompiler {
  num_tidl_subgraphs : Z;
  data_layout : string;
  artifacts_folder : string;
  tidl_tools_path : option string;
  tidl_target : string
}.

(** Lines 1285-1292: the only supported platform is AM57 from version
    (6,3) on; [None] is [sys.exit]. *)
Definition version_ge (v w : Z * Z) : bool :=
  (fst w <? fst v) || ((fst v =? fst w) && (snd w <=? snd v)).

Definition init (platform : string) (version : Z * Z) (num_subgraphs : Z)
    (layout artifacts : string) (tools : option string) : option TIDLCompiler :=
  if String.eqb platform "AM57" && version_ge version (6, 3) then
    Some {| num_tidl_subgraphs := num_subgraphs; data_layout := layout;
            artifacts_folder := artifacts; tidl_tools_path := tools;
            tidl_target := "tidl" |}
  else None.

(** [os.path.join(a, b)] for a relative [b]. *)
Fixpoint ends_with_slash (a : string) : bool :=
  match a with
  | EmptyString => false
  | String c EmptyString => Ascii.eqb c "/"
  | String _ rest => ends_with_slash rest
  end.

Definition path_join (a b : string) : string :=
  if String.eqb a "" then b
  else if ends_with_slash a then (a ++ b)%string
  else (a ++ "/" ++ b)%string.

(** The status codes of [enable]. *)
Definition status_success : Z := 1.
Definition status_failure : Z := -1.
Definition status_skipped : Z := 0.

Section Enable.
(** Parameter dictionaries and captured tensors. *)
Definition params_t : Type := list (string * Np.ndarray).
Definition tensors_t : Type := list (string * Np.ndarray).

(** Graph passes of TVM the compiler runs as black boxes; each is a
    function from the graph it is given to the graph it returns. *)
Variable RemoveUnusedFunctions : IRModule -> result IRModule.
Variable bind_params_by_name : expr -> params_t -> result expr.
Variable FoldConstant : IRModule -> result IRModule.
Variable merge_sequential_ops : IRModule -> result IRModule.
Variable AnnotateTarget : string -> IRModule -> result IRModule.
Variable MergeCompilerRegions : IRModule -> result IRModule.
Variable PartitionGraph : IRModule -> result IRModule.
Variable get_total_mac_number : expr -> Z.

(** [generate_subgraph_tensors] (lines 335-367) builds and runs the
    calibration graph. *)
Variable generate_subgraph_tensors :
  string -> IRModule -> params_t -> string -> Np.ndarray -> result tensors_t.

(** The file system and the dynamic loader. *)
Variable path_exists : string -> bool.
Variable CDLL : string -> result unit.

(** The body of the import loop, see [Importer.ImportRelayIR]; its first
    two arguments are the calibration tool and the compiler object. *)
Variable import_subgraph :
  string -> TIDLCompiler -> IRModule -> params_t -> tensors_t -> string -> M bool.

(** Lines 1329-1342: from the original graph to the pruned partitioned
    graph. *)
Definition partition (self : TIDLCompiler) (mod_orig : IRModule)
    (params : params_t) : M IRModule :=
  m <~ step (RunPass "RemoveUnusedFunctions") (RemoveUnusedFunctions mod_orig) ;;
  main <~ lift (mod_item m "main") ;;
  main <~ step (RunPass "bind_params_by_name") (bind_params_by_name main params) ;;
  let m := mod_update m "main" main in
  m <~ step (RunPass "FoldConstant") (FoldConstant m) ;;
  main <~ lift (mod_item m "main") ;;
  main <~ step (RunPass "RemoveMultiplyByOne") (Prune.RemoveMultiplyByOne main) ;;
  let m := mod_update m "main" main in
  m <~ step (RunPass "_merge_sequential_ops") (merge_sequential_ops m) ;;
  m <~ step (RunPass "AnnotateTarget") (AnnotateTarget (tidl_target self) m) ;;
  m <~ step (RunPass "MergeCompilerRegions") (MergeCompilerRegions m) ;;
  m <~ step (RunPass "PartitionGraph") (PartitionGraph m) ;;
  m <~ step (RunPass "UnpackComposites")
         (Prune.UnpackComposites m (tidl_target self)) ;;
  m <~ step (RunPass "PruneSubgraphsWithMoreThanOneInput")
         (Prune.PruneSubgraphsWithMoreThanOneInput m (tidl_target self)) ;;
  step (RunPass "PruneSubgraphs")
    (Prune.PruneSubgraphs get_total_mac_number m (tidl_target self)
       (num_tidl_subgraphs self)).

(** Lines 1294-1368.  [input] is the dictionary of named input tensors,
    in iteration order. *)
Definition enable (self : TIDLCompiler) (mod_orig : IRModule)
    (params : params_t) (input : list (string * Np.ndarray))
  : M (IRModule * Z) :=
  if Nat.ltb 1 (List.length input) then ret (mod_orig, status_failure)
  else
    let binding := nth_error input (List.length input - 1) in
    m <~ partition self mod_orig params ;;
    '(input_node, input_data) <~ lift (of_option UnboundLocalError binding) ;;
    subgraph_tensors <~
      step ExecuteGraph
        (generate_subgraph_tensors (tidl_target self) m params
           input_node input_data) ;;
    match tidl_tools_path self with
    | Some tools =>
        let tidl_calib_tool := path_join tools "eve_test_dl_algo_ref.out" in
        let tidl_import_lib := path_join tools "tidl_relayImport.so" in
        if path_exists tidl_calib_tool && path_exists tidl_import_lib then
          _ <~ step (LoadLibrary tidl_import_lib) (CDLL tidl_import_lib) ;;
          import_success <~
            Importer.ImportRelayIR (tidl_target self)
              (import_subgraph tidl_calib_tool self) m params subgraph_tensors ;;
          _ <~ emit CloseLibrary ;;
          if import_success : bool then ret (m, status_success)
          else ret (mod_orig, status_failure)
        else ret (mod_orig, status_skipped)
    | None => ret (mod_orig, status_skipped)
    end.

End Enable.

End Compiler.

(* ================================================================== *)
(** * Calibration graph: the additional outputs and their names *)
(* ================================================================== *)

Module CalibGraph.
Import Py Relay.
Local Open Scope list_scope.

(** A Python [dict] with integer keys, in insertion order. *)
Definition int_dict (A : Type) : Type := list (nat * A).

Fixpoint int_dict_get {A} (d : int_dict A) (k : nat) : option A :=
  match d with
  | [] => None
  | (k', v) :: rest => if Nat.eqb k' k then Some v else int_dict_get rest k
  end.

(** [d[k] = v] *)
Fixpoint int_dict_set {A} (d : int_dict A) (k : nat) (v : A) : int_dict A :=
  match d with
  | [] => [(k, v)]
  | (k', v') :: rest =>
      if Nat.eqb k' k then (k', v) :: rest
      else (k', v') :: int_dict_set rest k v
  end.

(** A Python [dict] with string keys, in insertion order. *)
Definition str_dict (A : Type) : Type := list (string * A).

Fixpoint str_dict_set {A} (d : str_dict A) (k : string) (v : A) : str_dict A :=
  match d with
  | [] => [(k, v)]
  | (k', v') :: rest =>
      if String.eqb k' k then (k', v) :: rest
      else (k', v') :: str_dict_set rest k v
  end.

(** The two attributes of [CalibrationGraphMutator] that
    [add_new_outputs] updates (lines 265-268). *)
Record outputs_state : Type := mk_outputs {
  additional_outputs : list expr;
  name_map : int_dict string
}.

Definition no_outputs : outputs_state :=
  {| additional_outputs := []; name_map := [] |}.

Section Mutator.
Variable num_original_outputs : nat.

(** [self.name_map[self.num_original_outputs + len(self.additional_outputs)] = name;
     self.additional_outputs.append(out)] *)
Definition add_output (name : string) (out : expr) (st : outputs_state)
  : outputs_state :=
  {| additional_outputs := additional_outputs st ++ [out];
     name_map :=
       int_dict_set (name_map st)
         (num_original_outputs + List.length (additional_outputs st)) name |}.

(** Lines 272-278: the loop over [enumerate(expr.fields)], from index [i]. *)
Fixpoint add_fields (subgraph_name : string) (was_input : bool) (i : nat)
    (fields : list expr) (st : outputs_state) : outputs_state :=
  match fields with
  | [] => st
  | out :: rest =>
      let name :=
        if was_input then (subgraph_name ++ "_" ++ str_nat i)%string
        else (subgraph_name ++ "_o" ++ str_nat i)%string in
      add_fields subgraph_name was_input (S i) rest (add_output name out st)
  end.

(** Lines 269-285. *)
Definition add_new_outputs (subgraph_name : string) (e : expr)
    (was_input : bool) (st : outputs_state) : outputs_state :=
  match e with
  | Tuple fields => add_fields subgraph_name was_input 0 fields st
  | _ =>
      let name :=
        if was_input then subgraph_name
        else (subgraph_name ++ "_o0")%string in
      add_output name e st
  end.

End Mutator.

(** Lines 360-365 of [generate_subgraph_tensors]: the loop over
    [range(len(results))], from index [i]. *)
Fixpoint collect_tensors {A} (name_map : int_dict string) (results : list A)
    (i : nat) (subgraph_tensors : str_dict A) : str_dict A :=
  match results with
  | [] => subgraph_tensors
  | r :: rest =>
      collect_tensors name_map rest (S i)
        (match int_dict_get name_map i with
         | Some name => str_dict_set subgraph_tensors name r
         | None => subgraph_tensors
         end)
  end.

End CalibGraph.

(* ================================================================== *)
(** * Import of one subgraph: its number and its calibration input *)
(* ================================================================== *)

Module SubgraphInput.
Import Py Np.
Local Open Scope list_scope.
Local Open Scope py_scope.

(** [s.replace(old, "")]: the occurrences of [old] are removed from left to
    right; [skip] counts the characters of an occurrence still to drop. *)
Fixpoint remove_aux (old s : string) (skip : nat) : string :=
  match s with
  | EmptyString => EmptyString
  | String c s' =>
      match skip with
      | S k => remove_aux old s' k
      | O =>
          if startswith old s then remove_aux old s' (len old - 1)
          else String c (remove_aux old s' 0)
      end
  end.

Definition remove (old s : string) : string :=
  match old with
  | EmptyString => s
  | _ => remove_aux old s 0
  end.

(** Lines 174-187: the tensors whose name holds the prefix somewhere. *)
Definition obtain_subgraph_tensor {A} (subgraph_tensors : list (string * A))
    (tensor_name_prefix : string) : list A :=
  map snd (filter (fun kv => contains tensor_name_prefix (fst kv)) subgraph_tensors).

Section Subgraph.
Variable fmt : Quant.format.
Variable tidl_target : string.
Variable data_layout : string.

(** Lines 1180-1193 of [ImportRelayIR]: the number of the subgraph, and its
    captured input quantized for the calibration; [None] is the
    [return False] of line 1190.  The result holds the subgraph id, the
    triple returned by [tensor_quant_flatten] and the shape of the input. *)
Definition subgraph_input (subgraph_tensors : list (string * ndarray))
    (tidl_subgraph : string)
  : result (option (Z * (list spec_float * spec_float * Z) * list nat)) :=
  subgraph_id <- int (remove (tidl_target ++ "_") tidl_subgraph) ;;
  let in_tensor_name := (tidl_subgraph ++ "_i")%string in
  let input_fp := obtain_subgraph_tensor subgraph_tensors in_tensor_name in
  if Nat.ltb 1 (List.length input_fp) then Returned None
  else
    first <- getitem input_fp 0 ;;
    quantized <- Quant.tensor_quant_flatten fmt first data_layout ;;
    Returned (Some (subgraph_id, quantized, shape first)).

End Subgraph.

End SubgraphInput.

(* ================================================================== *)
(** * Subgraph configuration file: printing a list *)
(* ================================================================== *)

Module Cfg.
Import Py.
Local Open Scope list_scope.

(** [str(in_list)], given the [repr] of each element. *)
Definition str_list (reprs : list string) : string :=
  ("[" ++ join ", " reprs ++ "]")%string.

(** [s.replace(c, "", count)] for a one-character [c]: the first [count]
    occurrences are removed, all of them when [count] is [None] (a
    negative or absent count). *)
Fixpoint remove_char (c : ascii) (count : option nat) (s : string) : string :=
  match s with
  | EmptyString => EmptyString
  | String a s' =>
      if Ascii.eqb a c then
        match count with
        | None => remove_char c None s'
        | Some (S k) => remove_char c (Some k) s'
        | Some O => s
        end
      else String a (remove_char c count s')
  end.

Definition replace_count (count : Z) : option nat :=
  if count <? 0 then None else Some (Z.to_nat count).

(** Lines 471-476 of [subgraph_cfg_gen]. *)
Definition print_list (reprs : list string) : string :=
  let str0 := str_list reprs in
  let str1 := remove_char "[" None str0 in
  let str2 := remove_char "]" None str1 in
  let str3 :=
    remove_char "," (replace_count (Z.of_nat (List.length reprs) - 1)) str2 in
  str3.

End Cfg.

(* ================================================================== *)
(** * Initializing the import: the geometry of the input *)
(* ================================================================== *)

Module ImportInit.
Import Py.
Local Open Scope list_scope.

(** Lines 965-975 of [tidl_import_init]: a vector is expanded to four
    dimensions; [None] is the [return False] of an unsupported shape. *)
Definition expand_shape (data_layout : string) (input_shape : list nat)
  : option (list nat) :=
  match input_shape with
  | [n; w] =>
      if String.eqb data_layout "NCHW" then Some [n; 1; 1; w]%nat
      else Some [n; 1; w; 1]%nat
  | [_; _; _; _] => Some input_shape
  | _ => None
  end.

(** Lines 977-985: the layout and [(channel, height, width)] handed to
    [tidlImportInit]; [None] is the [return False] of an unsupported
    layout.  [in_shape] has four entries here. *)
Definition geometry (data_layout : string) (input_shape : list nat)
  : option (string * (nat * nat * nat)) :=
  match expand_shape data_layout input_shape with
  | Some [_; d1; d2; d3] =>
      if String.eqb data_layout "NCHW" then Some ("NCHW", (d1, d2, d3))
      else if String.eqb data_layout "NHWC" then Some ("NHWC", (d3, d1, d2))
      else None
  | _ => None
  end.

End ImportInit.

(* ================================================================== *)
(** * Sample graphs *)
(* ================================================================== *)

Module Samples.
Import Py Relay.
Local Open Scope list_scope.

Definition f32 : ty := TensorType [1; 3]%nat "float32".

Definition x : expr := Var "x" f32.

(** A one-input subgraph [name] computing a relu for compiler [compiler]. *)
Definition relu_subgraph (name compiler : string) : expr :=
  Function [Var (name ++ "_i0")%string f32]
    (Call (Op "nn.relu") [Var (name ++ "_i0")%string f32])
    (Some [("Compiler", compiler); ("global_symbol", name)]).

(** [main] calls one subgraph of the accelerator and, on its result, one
    subgraph of another compiler. *)
Definition two_compilers : IRModule :=
  [("main", Function [x]
              (Call (GlobalVar "dnnl_5") [Call (GlobalVar "tidl_3") [x]]) None);
   ("tidl_3", relu_subgraph "tidl_3" "tidl");
   ("dnnl_5", relu_subgraph "dnnl_5" "dnnl")].

Definition two_compilers_pruned : IRModule :=
  [("tidl_1", relu_subgraph "tidl_1" "tidl");
   ("dnnl_0", relu_subgraph "dnnl_0" "dnnl");
   ("main", Function [x]
              (Call (GlobalVar "dnnl_0") [Call (GlobalVar "tidl_1") [x]]) None)].

(** [main] calls one subgraph of the accelerator. *)
Definition one_subgraph : IRModule :=
  [("main", Function [x] (Call (GlobalVar "tidl_3") [x]) None);
   ("tidl_3", relu_subgraph "tidl_3" "tidl")].

Definition one_subgraph_pruned : IRModule :=
  [("tidl_0", relu_subgraph "tidl_0" "tidl");
   ("main", Function [x] (Call (GlobalVar "tidl_0") [x]) None)].

(** A graph without subgraphs. *)
Definition no_subgraph : IRModule :=
  [("main", Function [x] (Call (Op "nn.relu") [x]) None)].

Definition macs (e : expr) : Z := 7.

Definition input_data : Np.ndarray :=
  {| Np.shape := [1; 3]%nat; Np.dtype := "float32";
     Np.data := [S754_zero false; S754_zero false; S754_zero false] |}.

Definition one_input : list (string * Np.ndarray) := [("data", input_data)].

Definition two_inputs : list (string * Np.ndarray) :=
  [("data", input_data); ("mask", input_data)].

(** Stand-ins for the black boxes of [Compiler.enable]: passes that leave
    the graph as it is, an execution that captures nothing, and an import
    body that succeeds. *)
Definition pass (m : IRModule) : result IRModule := Returned m.
Definition bind_params (e : expr) (p : Compiler.params_t) : result expr := Returned e.
Definition annotate (target : string) (m : IRModule) : result IRModule := Returned m.
Definition run_graph (target : string) (m : IRModule) (p : Compiler.params_t)
    (node : string) (d : Np.ndarray) : result Compiler.tensors_t := Returned [].
Definition load (path : string) : result unit := Returned tt.
Definition import_ok (tool : string) (self : Compiler.TIDLCompiler) (m : IRModule)
    (p : Compiler.params_t) (t : Compiler.tensors_t) (name : string) : Eff.M bool :=
  Eff.ret true.

Definition compiler (tools : option string) : Compiler.TIDLCompiler :=
  {| Compiler.num_tidl_subgraphs := 4; Compiler.data_layout := "NCHW";
     Compiler.artifacts_folder := "artifacts"; Compiler.tidl_tools_path := tools;
     Compiler.tidl_target := "tidl" |}.

(** [enable] with the stand-ins; [present] tells which files exist and
    [partitioned] is the graph the stand-in of [PartitionGraph] returns. *)
Definition enable_sample (present : string -> bool) (tools : option string)
    (partitioned mod_orig : IRModule) (input : list (string * Np.ndarray))
  : result (IRModule * Z) * list Eff.event :=
  Compiler.enable pass bind_params pass pass annotate pass
    (fun _ => Returned partitioned) macs run_graph
    present load import_ok (compiler tools) mod_orig [] input [].

Definition partition_sample (tools : option string)
    (partitioned mod_orig : IRModule) : result IRModule * list Eff.event :=
  Compiler.partition pass bind_params pass pass annotate pass
    (fun _ => Returned partitioned) macs (compiler tools) mod_orig [] [].

(** Calibration output with two marker phrases. *)
Definition two_markers : string :=
  "Number of output dataQ: 1. Output dataQ: 5End of output dataQ Number of output dataQ: 2. Output dataQ: 7, 8End of output dataQ".

End Samples.

(* ================================================================== *)
(** * Properties *)
(* ================================================================== *)

Local Open Scope list_scope.

(** ** Calibration output *)

(** C3 (the code departs from it): the count and the scales are to be read
    at the last marker phrase.  On an output with two marker phrases the code
    reads at the first one: it returns the single scale 5 declared there,
    where the last phrase declares the two scales 7 and 8.  With one marker
    phrase the scenario of the specification is parsed as expected, and a
    declared count that differs from the number of integers gives
    [(False, None)]. *)
Theorem C3_reads_first_marker :
  Calib.subgraph_calibration (Some (Samples.two_markers, ""))
    = Py.Returned (true, Some [5])
  /\ Py.rfind Calib.output_dataQ_token Samples.two_markers = Some 62%nat
  /\ Calib.subgraph_calibration
       (Some (Py.drop 62 Samples.two_markers, ""))
     = Py.Returned (true, Some [7; 8])
  /\ Calib.subgraph_calibration
       (Some ("...Number of output dataQ: 2. Output dataQ: 100, 200End of output dataQ...", ""))
     = Py.Returned (true, Some [100; 200])
  /\ Calib.subgraph_calibration
       (Some ("Number of output dataQ: 3. Output dataQ: 100, 200End of output dataQ", ""))
     = Py.Returned (false, None).
Proof. repeat split; vm_compute; reflexivity. Qed.

(** ** Orchestrator *)

Section EnableFacts.
Import Py Relay Eff Compiler.

Variable RemoveUnusedFunctions : IRModule -> result IRModule.
Variable bind_params_by_name : expr -> params_t -> result expr.
Variable FoldConstant : IRModule -> result IRModule.
Variable merge_sequential_ops : IRModule -> result IRModule.
Variable AnnotateTarget : string -> IRModule -> result IRModule.
Variable MergeCompilerRegions : IRModule -> result IRModule.
Variable PartitionGraph : IRModule -> result IRModule.
Variable get_total_mac_number : expr -> Z.
Variable generate_subgraph_tensors :
  string -> IRModule -> params_t -> string -> Np.ndarray -> result tensors_t.
Variable path_exists : string -> bool.
Variable CDLL : string -> result unit.
Variable import_subgraph :
  string -> TIDLCompiler -> IRModule -> params_t -> tensors_t -> string -> M bool.

Let enable_ :=
  enable RemoveUnusedFunctions bind_params_by_name FoldConstant
    merge_sequential_ops AnnotateTarget MergeCompilerRegions PartitionGraph
    get_total_mac_number generate_subgraph_tensors path_exists CDLL
    import_subgraph.

Let partition_ :=
  partition RemoveUnusedFunctions bind_params_by_name FoldConstant
    merge_sequential_ops AnnotateTarget MergeCompilerRegions PartitionGraph
    get_total_mac_number.

(** The two tool files are not both on disk, or no tools path is set. *)
Definition tools_absent (self : TIDLCompiler) : Prop :=
  match tidl_tools_path self with
  | None => True
  | Some tools =>
      path_exists (path_join tools "eve_test_dl_algo_ref.out")
      && path_exists (path_join tools "tidl_relayImport.so") = false
  end.

(** [enable] up to the test of the tools path, when the passes and the
    graph execution return. *)
Lemma enable_after_partition self mod_orig params node data h m h1 ts :
  partition_ self mod_orig params h = (Returned m, h1) ->
  generate_subgraph_tensors (tidl_target self) m params node data = Returned ts ->
  enable_ self mod_orig params [(node, data)] h =
    match tidl_tools_path self with
    | Some tools =>
        let tidl_calib_tool := path_join tools "eve_test_dl_algo_ref.out" in
        let tidl_import_lib := path_join tools "tidl_relayImport.so" in
        if path_exists tidl_calib_tool && path_exists tidl_import_lib then
          bindM (step (LoadLibrary tidl_import_lib) (CDLL tidl_import_lib))
            (fun _ =>
               bindM (Importer.ImportRelayIR (tidl_target self)
                        (import_subgraph tidl_calib_tool self) m params ts)
                 (fun import_success =>
                    bindM (emit CloseLibrary)
                      (fun _ =>
                         if import_success : bool then ret (m, status_success)
                         else ret (mod_orig, status_failure))))
            (h1 ++ [ExecuteGraph])
        else (Returned (mod_orig, status_skipped), h1 ++ [ExecuteGraph])
    | None => (Returned (mod_orig, status_skipped), h1 ++ [ExecuteGraph])
    end.
Proof.
  intros Hp Hg. unfold enable_, enable. cbn [List.length Nat.ltb Nat.leb].
  fold partition_. unfold bindM at 1. rewrite Hp.
  cbn [nth_error Nat.sub of_option lift bindM]. unfold bindM at 1.
  unfold step, bindM, emit, lift. rewrite Hg.
  destruct (tidl_tools_path self) as [tools|]; [|reflexivity].
  cbv zeta.
  destruct (path_exists _ && path_exists _); reflexivity.
Qed.

(** C5: with two or more named input tensors [enable] returns the graph it
    was given together with the status -1 (the value that also reports a
    failed compilation), and the history of events is unchanged: no pass,
    no graph execution and no library call has happened. *)
Theorem C5_multi_input_rejected self mod_orig params input h :
  (2 <= List.length input)%nat ->
  enable_ self mod_orig params input h
    = (Returned (mod_orig, status_failure), h).
Proof.
  intros Hlen. unfold enable_, enable.
  destruct (Nat.ltb_spec 1 (List.length input)) as [_|Hle]; [reflexivity|lia].
Qed.

(** C1 (as amended): when the tools are absent, every call with one input
    tensor that gets as far as the test of the tools returns the original
    graph, not the partitioned one, with the status 0. *)
Theorem C1_tools_absent_returns_original
    self mod_orig params node data h m h1 ts :
  partition_ self mod_orig params h = (Returned m, h1) ->
  generate_subgraph_tensors (tidl_target self) m params node data = Returned ts ->
  tools_absent self ->
  enable_ self mod_orig params [(node, data)] h
    = (Returned (mod_orig, status_skipped), h1 ++ [ExecuteGraph]).
Proof.
  intros Hp Hg Habs.
  rewrite (enable_after_partition _ _ _ _ _ _ _ _ _ Hp Hg).
  unfold tools_absent in Habs.
  destruct (tidl_tools_path self) as [tools|]; [|reflexivity].
  cbv zeta. rewrite Habs. reflexivity.
Qed.

End EnableFacts.

(** Witness of C5: two named inputs. *)
Lemma C5_witness :
  (2 <= List.length Samples.two_inputs)%nat /\
  Samples.enable_sample (fun _ => true) (Some "/opt/tidl")
    Samples.one_subgraph Samples.no_subgraph Samples.two_inputs
  = (Py.Returned (Samples.no_subgraph, -1), []).
Proof.
  split; [simpl; lia|].
  unfold Samples.enable_sample.
  apply C5_multi_input_rejected. simpl. lia.
Defined.

(** C1 (as stated, refuted): with the tool files missing the partitioned and
    pruned graph of the sample is [one_subgraph_pruned], yet [enable] returns
    the original [no_subgraph] with status 0. *)
Lemma C1_counterexample :
  fst (Samples.partition_sample (Some "/opt/tidl")
         Samples.one_subgraph Samples.no_subgraph)
    = Py.Returned Samples.one_subgraph_pruned
  /\ fst (Samples.enable_sample (fun _ => false) (Some "/opt/tidl")
            Samples.one_subgraph Samples.no_subgraph Samples.one_input)
     = Py.Returned (Samples.no_subgraph, 0)
  /\ fst (Samples.enable_sample (fun _ => false) (Some "/opt/tidl")
            Samples.one_subgraph Samples.no_subgraph Samples.one_input)
     <> Py.Returned (Samples.one_subgraph_pruned, 0).
Proof.
  split; [vm_compute; reflexivity|].
  split; [vm_compute; reflexivity|].
  vm_compute. discriminate.
Qed.

(** Witness of C1 as amended: the sample with the tool files missing. *)
Lemma C1_witness :
  Samples.enable_sample (fun _ => false) (Some "/opt/tidl")
    Samples.one_subgraph Samples.no_subgraph Samples.one_input
  = (Py.Returned (Samples.no_subgraph, 0),
     snd (Samples.partition_sample (Some "/opt/tidl")
            Samples.one_subgraph Samples.no_subgraph)
       ++ [Eff.ExecuteGraph]).
Proof.
  unfold Samples.enable_sample, Samples.one_input.
  apply (C1_tools_absent_returns_original
           Samples.pass Samples.bind_params Samples.pass Samples.pass
           Samples.annotate Samples.pass
           (fun _ => Py.Returned Samples.one_subgraph) Samples.macs
           Samples.run_graph (fun _ => false) Samples.load Samples.import_ok
           (Samples.compiler (Some "/opt/tidl")) Samples.no_subgraph []
           "data" Samples.input_data [] Samples.one_subgraph_pruned _ []).
  - vm_compute. reflexivity.
  - reflexivity.
  - vm_compute. reflexivity.
Defined.

(** ** Graph indexer *)

Section IndexerFacts.
Import Py Relay Indexer.

Definition not_Op (e : expr) : bool := negb (is_Op e).

(** The nodes a node refers to. *)
Definition children (e : expr) : list expr :=
  match e with
  | Call op args => op :: args
  | Tuple fields => fields
  | TupleGetItem t _ => [t]
  | Function params body _ => params ++ [body]
  | _ => []
  end.

Lemma size_in_list a l : In a l -> (size a <= list_sum (map size l))%nat.
Proof.
  induction l as [|b l IH]; simpl; [tauto|].
  intros [->|Hin]; [lia|]. specialize (IH Hin). lia.
Qed.

Lemma size_child e c : In c (children e) -> (size c < size e)%nat.
Proof.
  destruct e; simpl; try tauto.
  - intros [->|Hin]; [lia|]. apply size_in_list in Hin. lia.
  - intros Hin. apply size_in_list in Hin. lia.
  - intros [->|[]]. lia.
  - intros Hin. apply in_app_or in Hin as [Hin|[->|[]]].
    + apply size_in_list in Hin. lia.
    + lia.
Qed.

Lemma expr_size_ind (P : expr -> Prop) :
  (forall e, (forall c, In c (children e) -> P c) -> P e) -> forall e, P e.
Proof.
  intros step e. remember (size e) as n eqn:Hn. revert e Hn.
  induction n as [n IH] using lt_wf_ind. intros e ->.
  apply step. intros c Hc. apply (IH (size c)); [apply size_child; exact Hc|reflexivity].
Qed.

Lemma post_order_eq e :
  post_order e = flat_map post_order (children e) ++ [e].
Proof.
  destruct e; simpl; try reflexivity.
  - rewrite <- app_assoc. reflexivity.
  - rewrite app_nil_r. reflexivity.
  - rewrite flat_map_app. simpl. rewrite app_nil_r, <- app_assoc. reflexivity.
Qed.

Lemma post_order_self e : In e (post_order e).
Proof. rewrite post_order_eq. apply in_or_app. right. left. reflexivity. Qed.

(** ** Dictionaries *)

Lemma dict_get_In d node : dict_get d node <> None <-> In node (keys d).
Proof.
  induction d as [|[k v] d IH]; simpl.
  - split; [congruence|tauto].
  - destruct (expr_eq_dec k node) as [->|Hne].
    + split; [auto|congruence].
    + rewrite IH. split; [auto|]. intros [Heq|Hin]; [contradiction|exact Hin].
Qed.

Lemma dict_mem_In d node : dict_mem d node = true <-> In node (keys d).
Proof.
  unfold dict_mem. rewrite <- dict_get_In.
  destruct (dict_get d node); split; congruence.
Qed.

Lemma dict_mem_not_In d node : dict_mem d node = false <-> ~ In node (keys d).
Proof.
  rewrite <- dict_mem_In. destruct (dict_mem d node); split; congruence.
Qed.

(** What one call of [traverse_expr] does to the keys. *)
Lemma traverse_expr_keys node d :
  keys (traverse_expr node d)
  = if dict_mem d node then keys d
    else if is_Op node then keys d else keys d ++ [node].
Proof.
  unfold traverse_expr. destruct (dict_mem d node); [reflexivity|].
  destruct (is_Op node); [reflexivity|].
  unfold keys. rewrite map_app. reflexivity.
Qed.

(** Indices are handed out in sequence. *)
Definition contiguous (d : node_dict) : Prop :=
  values d = seq 0 (List.length d).

Lemma traverse_expr_contiguous node d :
  contiguous d -> contiguous (traverse_expr node d).
Proof.
  unfold contiguous, traverse_expr. intros Hd.
  destruct (dict_mem d node); [exact Hd|].
  destruct (is_Op node); [exact Hd|].
  unfold values in *. rewrite map_app, length_app, Hd. simpl.
  rewrite Nat.add_1_r, seq_S. reflexivity.
Qed.

Definition traverse_all (l : list expr) (d : node_dict) : node_dict :=
  fold_left (fun acc node => traverse_expr node acc) l d.

Lemma traverse_all_contiguous l d :
  contiguous d -> contiguous (traverse_all l d).
Proof.
  revert d. induction l as [|x l IH]; simpl; intros d Hd; [exact Hd|].
  apply IH. apply traverse_expr_contiguous. exact Hd.
Qed.

Lemma traverse_all_keys l d :
  NoDup l -> (forall n, In n l -> ~ In n (keys d)) ->
  keys (traverse_all l d) = keys d ++ filter not_Op l.
Proof.
  revert d. induction l as [|x l IH]; simpl; intros d Hnd Hfresh.
  - rewrite app_nil_r. reflexivity.
  - inversion Hnd as [|? ? Hx Hnd']; subst.
    assert (Hk : keys (traverse_expr x d)
                 = if is_Op x then keys d else keys d ++ [x]).
    { rewrite traverse_expr_keys.
      destruct (dict_mem d x) eqn:Hm; [|reflexivity].
      apply dict_mem_In in Hm. exfalso. apply (Hfresh x); auto. }
    rewrite IH; [| exact Hnd' |].
    + rewrite Hk. unfold not_Op at 2. destruct (is_Op x); simpl.
      * reflexivity.
      * rewrite <- app_assoc. reflexivity.
    + intros n Hn Hin. rewrite Hk in Hin.
      assert (Hin' : In n (keys d) \/ n = x).
      { destruct (is_Op x); [left; exact Hin|].
        apply in_app_or in Hin as [Hin|[Heq|[]]]; [left|right]; auto. }
      destruct Hin' as [Hin'| ->]; [apply (Hfresh n); auto|contradiction].
Qed.

(** Traversing again nodes that are indexed or operators changes nothing. *)
Lemma traverse_all_stable l d :
  (forall n, In n l -> In n (keys d) \/ is_Op n = true) ->
  traverse_all l d = d.
Proof.
  induction l as [|x l IH]; simpl; intros H; [reflexivity|].
  assert (Hx : traverse_expr x d = d).
  { unfold traverse_expr. destruct (H x (or_introl eq_refl)) as [Hin|Hop].
    - apply dict_mem_In in Hin. rewrite Hin. reflexivity.
    - rewrite Hop. destruct (dict_mem d x); reflexivity. }
  rewrite Hx. apply IH. intros n Hn. apply H. right. exact Hn.
Qed.

(** ** The order of first visits *)

Lemma first_visits_In seen l n :
  In n (first_visits seen l) <-> In n l /\ ~ In n seen.
Proof.
  revert seen. induction l as [|y l IH]; simpl; intros seen; [tauto|].
  destruct (in_dec expr_eq_dec y seen) as [Hy|Hy].
  - rewrite IH. split.
    + intros [H1 H2]. auto.
    + intros [[->|H1] H2]; [contradiction|auto].
  - simpl. rewrite IH. simpl. split.
    + intros [->|[H1 H2]]; [auto|]. split; [auto|tauto].
    + intros [[->|H1] H2]; [auto|].
      destruct (expr_eq_dec y n) as [->|Hne]; [auto|right]. split; [auto|].
      intros [Heq|Hin]; auto.
Qed.

Lemma first_visits_NoDup seen l : NoDup (first_visits seen l).
Proof.
  revert seen. induction l as [|y l IH]; simpl; intros seen; [constructor|].
  destruct (in_dec expr_eq_dec y seen); [apply IH|].
  constructor; [|apply IH].
  rewrite first_visits_In. simpl. tauto.
Qed.

(** Whatever precedes the first visit of [e] in the list was visited
    before. *)
Lemma first_visits_split seen l r1 e r2 :
  first_visits seen l = r1 ++ e :: r2 ->
  exists l1 l2, l = l1 ++ e :: l2
                /\ forall n, In n l1 -> In n seen \/ In n r1.
Proof.
  revert seen r1. induction l as [|y l IH]; simpl; intros seen r1 H.
  - destruct r1; discriminate.
  - destruct (in_dec expr_eq_dec y seen) as [Hy|Hy].
    + destruct (IH _ _ H) as (l1 & l2 & -> & Hl1).
      exists (y :: l1), l2. split; [reflexivity|].
      intros n [->|Hn]; auto.
    + destruct r1 as [|z r1]; simpl in H; injection H as Hz Hrest.
      * subst y. exists [], l. split; [reflexivity|]. intros n [].
      * subst z. destruct (IH _ _ Hrest) as (l1 & l2 & -> & Hl1).
        exists (y :: l1), l2. split; [reflexivity|].
        intros n [->|Hn]; [right; left; reflexivity|].
        destruct (Hl1 n Hn) as [[->|Hs]|Hr]; simpl; auto.
Qed.

Lemma filter_split (f : expr -> bool) l r1 e r2 :
  filter f l = r1 ++ e :: r2 ->
  exists l1 l2, l = l1 ++ e :: l2 /\ r1 = filter f l1.
Proof.
  revert r1. induction l as [|y l IH]; simpl; intros r1 H.
  - destruct r1; discriminate.
  - destruct (f y) eqn:Hy.
    + destruct r1 as [|z r1]; simpl in H; injection H as Hz Hrest.
      * subst y. exists [], l. split; reflexivity.
      * subst z. destruct (IH _ Hrest) as (l1 & l2 & -> & ->).
        exists (y :: l1), l2. simpl. rewrite Hy. split; reflexivity.
    + destruct (IH _ H) as (l1 & l2 & -> & ->).
      exists (y :: l1), l2. simpl. rewrite Hy. split; reflexivity.
Qed.

(** In a list with this property every occurrence of a node comes after
    an occurrence of each of its children. *)
Definition children_first (l : list expr) : Prop :=
  forall l1 e l2, l = l1 ++ e :: l2 ->
                  forall c, In c (children e) -> In c l1.

Lemma children_first_app a b :
  children_first a ->
  (forall l1 e l2, b = l1 ++ e :: l2 ->
                   forall c, In c (children e) -> In c (a ++ l1)) ->
  children_first (a ++ b).
Proof.
  intros Ha Hb l1 e l2 Heq c Hc.
  apply app_eq_app in Heq as [l [[-> Hl]|[-> Hl]]].
  - destruct l as [|z l]; simpl in Hl.
    + subst b. specialize (Hb [] e l2 eq_refl c Hc).
      rewrite !app_nil_r in *. exact Hb.
    + injection Hl as Hz Hl2. subst z. apply (Ha l1 e l eq_refl c Hc).
  - apply (Hb l e l2 Hl c Hc).
Qed.

Lemma children_first_weaken a b :
  children_first b ->
  forall l1 e l2, b = l1 ++ e :: l2 ->
                  forall c, In c (children e) -> In c (a ++ l1).
Proof.
  intros Hb l1 e l2 Heq c Hc. apply in_or_app. right.
  apply (Hb l1 e l2 Heq c Hc).
Qed.

Lemma children_first_flat_map l :
  (forall c, In c l -> children_first (post_order c)) ->
  children_first (flat_map post_order l).
Proof.
  induction l as [|x l IH]; simpl; intros H.
  - intros l1 e l2 Heq. destruct l1; discriminate.
  - apply children_first_app; [apply H; auto|].
    apply children_first_weaken. apply IH. auto.
Qed.

Lemma post_order_children_first e : children_first (post_order e).
Proof.
  induction e as [e IH] using expr_size_ind.
  rewrite post_order_eq. apply children_first_app.
  - apply children_first_flat_map. exact IH.
  - intros l1 e' l2 Heq c Hc. destruct l1 as [|z l1]; simpl in Heq.
    + injection Heq as <- _. rewrite app_nil_r.
      apply in_flat_map. exists c. split; [exact Hc|apply post_order_self].
    + injection Heq as _ Heq. destruct l1; discriminate.
Qed.

(** ** Reading indices off a contiguous dictionary *)

Lemma dict_get_at d s r1 e r2 :
  keys d = r1 ++ e :: r2 -> values d = seq s (List.length d) -> ~ In e r1 ->
  dict_get d e = Some (s + List.length r1)%nat.
Proof.
  revert d s. induction r1 as [|z r1 IH]; intros d s Hk Hv Hnin.
  - destruct d as [|[k v] d]; simpl in *; [discriminate|].
    injection Hk as -> _. injection Hv as -> _.
    destruct (expr_eq_dec e e); [|contradiction].
    f_equal. lia.
  - destruct d as [|[k v] d]; simpl in *; [discriminate|].
    injection Hk as -> Hk. injection Hv as -> Hv.
    destruct (expr_eq_dec z e) as [->|Hne]; [exfalso; auto|].
    rewrite (IH d (S s) Hk Hv); [f_equal; lia|tauto].
Qed.

Lemma dict_get_before d s r1 r2 c :
  keys d = r1 ++ r2 -> values d = seq s (List.length d) -> In c r1 ->
  exists j, dict_get d c = Some j /\ (j < s + List.length r1)%nat.
Proof.
  revert d s. induction r1 as [|z r1 IH]; intros d s Hk Hv Hin; [destruct Hin|].
  destruct d as [|[k v] d]; simpl in *; [discriminate|].
  injection Hk as -> Hk. injection Hv as -> Hv.
  destruct (expr_eq_dec z c) as [->|Hne].
  - exists s. split; [reflexivity|lia].
  - destruct Hin as [Heq|Hin]; [contradiction|].
    destruct (IH d (S s) Hk Hv Hin) as (j & Hj & Hlt).
    exists j. split; [exact Hj|lia].
Qed.

(** ** The node dictionary of a graph *)

Lemma index_nodes_keys root :
  keys (index_nodes root) = filter not_Op (visit_order root).
Proof.
  unfold index_nodes, post_order_visit. fold (traverse_all (visit_order root) []).
  rewrite traverse_all_keys; [reflexivity|apply first_visits_NoDup|].
  intros n _ [].
Qed.

Lemma index_nodes_contiguous root : contiguous (index_nodes root).
Proof.
  unfold index_nodes, post_order_visit. fold (traverse_all (visit_order root) []).
  apply traverse_all_contiguous. reflexivity.
Qed.

Lemma index_nodes_NoDup root : NoDup (keys (index_nodes root)).
Proof.
  rewrite index_nodes_keys. apply NoDup_filter. apply first_visits_NoDup.
Qed.

Lemma index_nodes_In root n :
  In n (keys (index_nodes root)) <-> In n (post_order root) /\ is_Op n = false.
Proof.
  rewrite index_nodes_keys, filter_In. unfold visit_order, not_Op.
  rewrite first_visits_In. simpl.
  destruct (is_Op n); simpl; intuition congruence.
Qed.

Lemma index_nodes_children_first root e c :
  In e (keys (index_nodes root)) -> In c (children e) -> is_Op c = false ->
  exists i j, dict_get (index_nodes root) e = Some i
              /\ dict_get (index_nodes root) c = Some j /\ (j < i)%nat.
Proof.
  intros He Hc Hop.
  destruct (in_split _ _ He) as (r1 & r2 & Hk).
  assert (Hnd := index_nodes_NoDup root). rewrite Hk in Hnd.
  apply NoDup_remove_2 in Hnd.
  assert (Hnin : ~ In e r1) by (intros H; apply Hnd, in_or_app; auto).
  assert (Hcr : In c r1).
  { pose proof Hk as Hk'. rewrite index_nodes_keys in Hk'.
    apply filter_split in Hk' as (l1 & l2 & Hvo & ->).
    unfold visit_order in Hvo.
    apply first_visits_split in Hvo as (p1 & p2 & Hpo & Hp1).
    pose proof (post_order_children_first root p1 e p2 Hpo c Hc) as Hcp.
    destruct (Hp1 c Hcp) as [[]|Hin].
    apply filter_In. split; [exact Hin|]. unfold not_Op. rewrite Hop. reflexivity. }
  pose proof (index_nodes_contiguous root) as Hv. unfold contiguous in Hv.
  exists (List.length r1).
  destruct (dict_get_before _ 0%nat r1 (e :: r2) c Hk Hv Hcr) as (j & Hj & Hlt).
  exists j. split; [|split; [exact Hj|lia]].
  rewrite (dict_get_at _ 0%nat r1 e r2 Hk Hv Hnin). reflexivity.
Qed.

(** C8: for every graph, the node dictionary built by [traverse_expr] over
    the post-order traversal holds the nodes that are not operators, each
    once, in the order of their first post-order visit; the indices are
    0, 1, 2, ... in that order; every node that refers to another one has
    the larger index; traversing the graph again leaves the dictionary as
    it is, as does any call on a node that has an index; and no operator
    has an index. *)
Theorem C8_node_index_map root :
  let d := index_nodes root in
  keys d = filter not_Op (visit_order root)
  /\ NoDup (keys d)
  /\ values d = seq 0 (List.length d)
  /\ (forall e c, In e (keys d) -> In c (children e) -> is_Op c = false ->
       exists i j, dict_get d e = Some i /\ dict_get d c = Some j /\ (j < i)%nat)
  /\ post_order_visit root traverse_expr d = d
  /\ (forall node, dict_mem d node = true -> traverse_expr node d = d)
  /\ (forall name d', traverse_expr (Op name) d' = d')
  /\ (forall node, In node (keys d) -> is_Op node = false).
Proof.
  cbv zeta. repeat split.
  - apply index_nodes_keys.
  - apply index_nodes_NoDup.
  - apply index_nodes_contiguous.
  - apply index_nodes_children_first.
  - unfold post_order_visit. fold (traverse_all (visit_order root) (index_nodes root)).
    apply traverse_all_stable. intros n Hn.
    unfold visit_order in Hn. apply first_visits_In in Hn as [Hn _].
    destruct (is_Op n) eqn:Hop; [right; reflexivity|left].
    apply index_nodes_In. auto.
  - intros node Hm. unfold traverse_expr. rewrite Hm. reflexivity.
  - intros name d'. unfold traverse_expr. simpl.
    destruct (dict_mem d' (Op name)); reflexivity.
  - intros node Hin. apply index_nodes_In in Hin. tauto.
Qed.

End IndexerFacts.

(** Witness of C8: in the dictionary of the sample [main], the call of the
    subgraph has a larger index than its argument. *)
Lemma C8_witness :
  let root := Relay.Function [Samples.x]
                (Relay.Call (Relay.GlobalVar "tidl_3") [Samples.x]) None in
  exists i j,
    Indexer.dict_get (Indexer.index_nodes root)
      (Relay.Call (Relay.GlobalVar "tidl_3") [Samples.x]) = Some i
    /\ Indexer.dict_get (Indexer.index_nodes root) Samples.x = Some j
    /\ (j < i)%nat.
Proof.
  cbv zeta.
  apply (proj1 (proj2 (proj2 (proj2 (C8_node_index_map _))))).
  - vm_compute. auto.
  - simpl. auto.
  - reflexivity.
Defined.

(** ** Importer: the subgraphs to import *)

Section ImportFacts.
Import Py Relay Indexer Eff.

Lemma flat_map_nil {A B} (f : A -> list B) l :
  (forall a, In a l -> f a = []) -> flat_map f l = [].
Proof.
  induction l as [|a l IH]; simpl; intros H; [reflexivity|].
  rewrite (H a (or_introl eq_refl)), IH; auto.
Qed.

Lemma mod_get_In m name f :
  mod_get m name = Some f -> In name (get_global_vars m).
Proof.
  induction m as [|[k g] m IH]; simpl; [discriminate|].
  destruct (String.eqb_spec k name) as [->|Hne]; [auto|].
  intros H. right. apply IH. exact H.
Qed.

(** No global variable among the nodes of [main] names the target: nothing
    to import. *)
Lemma tidl_subgraphs_nil target m main :
  mod_get m "main" = Some main ->
  (forall name, In (GlobalVar name) (keys (index_nodes main)) ->
                contains target name = false) ->
  Importer.tidl_subgraphs target m = Returned [].
Proof.
  intros Hm Hno. unfold Importer.tidl_subgraphs, mod_item. rewrite Hm. simpl.
  f_equal. unfold Importer.global_var_names. apply flat_map_nil.
  intros node Hin. destruct node; try reflexivity.
  rewrite (Hno _ Hin). reflexivity.
Qed.

End ImportFacts.

Section EnableImportFacts.
Import Py Relay Eff Compiler.

Variable RemoveUnusedFunctions : IRModule -> result IRModule.
Variable bind_params_by_name : expr -> params_t -> result expr.
Variable FoldConstant : IRModule -> result IRModule.
Variable merge_sequential_ops : IRModule -> result IRModule.
Variable AnnotateTarget : string -> IRModule -> result IRModule.
Variable MergeCompilerRegions : IRModule -> result IRModule.
Variable PartitionGraph : IRModule -> result IRModule.
Variable get_total_mac_number : expr -> Z.
Variable generate_subgraph_tensors :
  string -> IRModule -> params_t -> string -> Np.ndarray -> result tensors_t.
Variable path_exists : string -> bool.
Variable CDLL : string -> result unit.
Variable import_subgraph :
  string -> TIDLCompiler -> IRModule -> params_t -> tensors_t -> string -> M bool.

(** C9 (as amended): the test [ImportRelayIR] makes is on names.  When no
    global variable among the nodes of [main] of the partitioned and pruned
    graph has a name that contains the target string, [ImportRelayIR]
    returns [False] without any call into the library, and [enable], with
    the tools present, returns the original graph with the status -1; the
    library has only been loaded and closed. *)
Theorem C9_no_target_name_is_failure
    self mod_orig params node data h m h1 ts tools main :
  partition RemoveUnusedFunctions bind_params_by_name FoldConstant
    merge_sequential_ops AnnotateTarget MergeCompilerRegions PartitionGraph
    get_total_mac_number self mod_orig params h = (Returned m, h1) ->
  generate_subgraph_tensors (tidl_target self) m params node data = Returned ts ->
  tidl_tools_path self = Some tools ->
  path_exists (path_join tools "eve_test_dl_algo_ref.out") = true ->
  path_exists (path_join tools "tidl_relayImport.so") = true ->
  CDLL (path_join tools "tidl_relayImport.so") = Returned tt ->
  mod_get m "main" = Some main ->
  (forall name, In (GlobalVar name) (Indexer.keys (Indexer.index_nodes main)) ->
                contains (tidl_target self) name = false) ->
  (forall h', Importer.ImportRelayIR (tidl_target self)
                (import_subgraph (path_join tools "eve_test_dl_algo_ref.out") self)
                m params ts h' = (Returned false, h'))
  /\ enable RemoveUnusedFunctions bind_params_by_name FoldConstant
       merge_sequential_ops AnnotateTarget MergeCompilerRegions PartitionGraph
       get_total_mac_number generate_subgraph_tensors path_exists CDLL
       import_subgraph self mod_orig params [(node, data)] h
     = (Returned (mod_orig, status_failure),
        h1 ++ [ExecuteGraph;
               LoadLibrary (path_join tools "tidl_relayImport.so");
               CloseLibrary]).
Proof.
  intros Hp Hg Htools Hcal Hlib Hload Hmain Hnames.
  assert (Himp : forall h',
             Importer.ImportRelayIR (tidl_target self)
               (import_subgraph (path_join tools "eve_test_dl_algo_ref.out") self)
               m params ts h' = (Returned false, h')).
  { intros h'. unfold Importer.ImportRelayIR, bindM, lift.
    rewrite (tidl_subgraphs_nil _ _ _ Hmain Hnames). reflexivity. }
  split; [exact Himp|].
  rewrite (enable_after_partition _ _ _ _ _ _ _ _ _ _ _ _ _ _ _ _ _ _ _ _ _ Hp Hg).
  rewrite Htools. cbv zeta. rewrite Hcal, Hlib. simpl andb. cbv iota.
  unfold bindM at 1. unfold step, bindM, emit, lift. rewrite Hload.
  rewrite Himp. rewrite <- !app_assoc. reflexivity.
Qed.

End EnableImportFacts.

(** An import body that carries out the first steps of the import of a
    subgraph (lines 1180-1193) and succeeds after them. *)
Definition import_after_input (tool : string) (self : Compiler.TIDLCompiler)
    (m : Relay.IRModule) (p : Compiler.params_t) (t : Compiler.tensors_t)
    (name : string) : Eff.M bool :=
  Eff.bindM
    (Eff.lift (SubgraphInput.subgraph_input Quant.binary32
                 (Compiler.tidl_target self) (Compiler.data_layout self) t name))
    (fun input => Eff.ret (match input with Some _ => true | None => false end)).

(** The subgraph of another compiler, [tidl2], whose name contains the
    target string [tidl]. *)
Definition other_compiler : Relay.IRModule :=
  [("main", Relay.Function [Samples.x]
              (Relay.Call (Relay.GlobalVar "tidl2_7") [Samples.x]) None);
   ("tidl2_7", Samples.relu_subgraph "tidl2_7" "tidl2")].

Definition other_compiler_pruned : Relay.IRModule :=
  [("tidl2_0", Samples.relu_subgraph "tidl2_0" "tidl2");
   ("main", Relay.Function [Samples.x]
              (Relay.Call (Relay.GlobalVar "tidl2_0") [Samples.x]) None)].

(** C9 (as stated, refuted): the partitioned and pruned graph
    [other_compiler_pruned] has no subgraph carrying the tag [tidl], yet
    [ImportRelayIR] does not return [False]: the name [tidl2_0] contains
    the target, so it is taken for a subgraph to import, its number is read
    with [int("tidl2_0")], and [enable] ends in ValueError instead of
    returning the original graph with the status -1. *)
Lemma C9_counterexample :
  fst (Samples.partition_sample (Some "/opt/tidl") other_compiler Samples.no_subgraph)
    = Py.Returned other_compiler_pruned
  /\ Prune.tagged_subgraphs other_compiler_pruned "tidl" = []
  /\ Importer.tidl_subgraphs "tidl" other_compiler_pruned = Py.Returned ["tidl2_0"]
  /\ SubgraphInput.subgraph_input Quant.binary32 "tidl" "NCHW" [] "tidl2_0"
     = Py.Raised Py.ValueError
  /\ fst (Compiler.enable Samples.pass Samples.bind_params Samples.pass Samples.pass
            Samples.annotate Samples.pass (fun _ => Py.Returned other_compiler)
            Samples.macs Samples.run_graph (fun _ => true) Samples.load
            import_after_input (Samples.compiler (Some "/opt/tidl"))
            Samples.no_subgraph [] Samples.one_input [])
     = Py.Raised Py.ValueError.
Proof.
  repeat split; vm_compute; reflexivity.
Qed.

(** Witness of C9 as amended: a graph in which nothing was partitioned,
    tools present. *)
Lemma C9_witness :
  Samples.enable_sample (fun _ => true) (Some "/opt/tidl")
    Samples.no_subgraph Samples.no_subgraph Samples.one_input
  = (Py.Returned (Samples.no_subgraph, -1),
     snd (Samples.partition_sample (Some "/opt/tidl")
            Samples.no_subgraph Samples.no_subgraph)
     ++ [Eff.ExecuteGraph; Eff.LoadLibrary "/opt/tidl/tidl_relayImport.so";
         Eff.CloseLibrary]).
Proof.
  unfold Samples.enable_sample, Samples.one_input.
  refine (proj2 (C9_no_target_name_is_failure
           Samples.pass Samples.bind_params Samples.pass Samples.pass
           Samples.annotate Samples.pass
           (fun _ => Py.Returned Samples.no_subgraph) Samples.macs
           Samples.run_graph (fun _ => true) Samples.load Samples.import_ok
           (Samples.compiler (Some "/opt/tidl")) Samples.no_subgraph []
           "data" Samples.input_data [] Samples.no_subgraph _ [] "/opt/tidl"
           (Relay.Function [Samples.x]
              (Relay.Call (Relay.Op "nn.relu") [Samples.x]) None)
           _ _ _ _ _ _ _ _)); try reflexivity;
    try (vm_compute; reflexivity).
  intros name Hin. vm_compute in Hin.
  repeat (destruct Hin as [Hin|Hin]; [discriminate Hin|]). destruct Hin.
Defined.

(** ** Cost-based pruning *)

Lemma slice_to_0 {A} (l : list A) : Prune.slice_to 0 l = [].
Proof.
  unfold Prune.slice_to. simpl.
  rewrite Z.min_l by lia. reflexivity.
Qed.

(** C2 (the code departs from it): with the budget K = 0 the list of
    subgraphs to remove is [subgraph_with_macs[:-0]], which is empty, for
    every module, so every tagged subgraph is kept.  On the sample with one
    tagged subgraph one tagged subgraph remains, where min(0, 1) = 0. *)
Theorem C2_budget_zero_keeps_all :
  (forall macs m compiler,
      Prune.subgraphs_to_remove macs m compiler 0
      = Py.bind (Prune.collect_macs macs m compiler (Relay.get_global_vars m))
          (fun _ => Py.Returned []))
  /\ Prune.PruneSubgraphs Samples.macs Samples.one_subgraph "tidl" 0
     = Py.Returned Samples.one_subgraph_pruned
  /\ Prune.tagged_subgraphs Samples.one_subgraph "tidl" = ["tidl_3"]
  /\ Prune.tagged_subgraphs Samples.one_subgraph_pruned "tidl" = ["tidl_0"].
Proof.
  split; [|repeat split; vm_compute; reflexivity].
  intros macs m compiler. unfold Prune.subgraphs_to_remove.
  destruct (Prune.collect_macs macs m compiler (Relay.get_global_vars m));
    [|reflexivity].
  simpl. rewrite slice_to_0. reflexivity.
Qed.

(** ** Importer: sink tuples *)

Section SinkFacts.
Import Py Relay Indexer Eff Importer.

(** The groups of at most 16 the list is cut into, in order. *)
Fixpoint chunks_fuel (fuel : nat) (l : list Z) : list (list Z) :=
  match fuel with
  | O => []
  | S fuel' =>
      match l with
      | [] => []
      | _ => firstn 16 l :: chunks_fuel fuel' (skipn 16 l)
      end
  end.

Definition chunks16 (l : list Z) : list (list Z) := chunks_fuel (List.length l) l.

Definition sink_link (ind : nat) (c : list Z) : InOutNodes :=
  {| this_node_idx := Z.of_nat ind;
     num_in_nodes := Z.of_nat (List.length c);
     num_out_nodes := 0;
     in_nodes_ptr := Some c;
     out_nodes_ptr := None |}.

Fixpoint sink_calls (ind : nat) (cs : list (list Z)) : list event :=
  match cs with
  | [] => []
  | c :: rest =>
      LibCall (tidlImportOutData (Z.of_nat (List.length c)))
      :: LibCall (tidlImportLinkNodes (sink_link ind c))
      :: sink_calls (S ind) rest
  end.

Lemma chunks_fuel_enough fuel fuel' l :
  (List.length l <= fuel)%nat -> (List.length l <= fuel')%nat ->
  chunks_fuel fuel l = chunks_fuel fuel' l.
Proof.
  revert fuel' l. induction fuel as [|fuel IH]; intros fuel' l H H'.
  - destruct l; [|simpl in H; lia]. destruct fuel'; reflexivity.
  - destruct l as [|a l]; [destruct fuel'; reflexivity|].
    destruct fuel' as [|fuel']; [simpl in H'; lia|].
    cbn [chunks_fuel]. f_equal.
    apply IH; rewrite length_skipn; simpl in *; lia.
Qed.

Lemma chunks16_nil : chunks16 [] = [].
Proof. reflexivity. Qed.

Lemma chunks16_cons l :
  l <> [] -> chunks16 l = firstn 16 l :: chunks16 (skipn 16 l).
Proof.
  intros Hl. unfold chunks16. destruct l as [|a l]; [contradiction|].
  cbn [List.length chunks_fuel]. f_equal.
  apply chunks_fuel_enough; rewrite length_skipn; simpl; lia.
Qed.

Lemma out_data_loop_ok (link : list event -> InOutNodes -> Z) in_nodes k ind h :
  (forall h' ion, link h' ion <> 0%Z) ->
  out_data_loop link in_nodes k ind h
  = (Returned true, h ++ sink_calls ind (chunks16 (skipn k in_nodes))).
Proof.
  intros Hok.
  funelim (out_data_loop link in_nodes k ind h).
  - rewrite skipn_all2 by lia. rewrite app_nil_r. reflexivity.
  - apply Nat.ltb_lt in Heq. unfold MAX_NUM_OUTPUTS_PER_DATA_LAYER in Heq.
    assert (Hne : skipn imported_nodes in_nodes <> []).
    { intros E. apply (f_equal (@List.length Z)) in E. rewrite length_skipn in E. simpl in E. lia. }
    rewrite (chunks16_cons _ Hne).
    assert (Hlen : List.length (skipn imported_nodes in_nodes) = (List.length in_nodes - imported_nodes)%nat) by apply length_skipn.
    rewrite (firstn_all2 (n := 16)) by lia.
    rewrite (skipn_all2 (n := 16)) by lia.
    rewrite chunks16_nil.
    unfold bindM, import_out_data, bindM, emit, call_link.
    destruct (Z.eqb_spec (link (h ++ [LibCall (tidlImportOutData (Z.of_nat (Datatypes.length in_nodes - imported_nodes)))])
       {| this_node_idx := Z.of_nat new_node_ind;
          num_in_nodes := Z.of_nat (Datatypes.length in_nodes - imported_nodes);
          num_out_nodes := 0;
          in_nodes_ptr := Some (firstn (Datatypes.length in_nodes - imported_nodes) (skipn imported_nodes in_nodes));
          out_nodes_ptr := None |}) 0) as [E|E]; [exfalso; exact (Hok _ _ E)|].
    unfold ret. simpl. rewrite <- app_assoc. simpl. unfold sink_link.
    rewrite Hlen. rewrite firstn_all2 by lia. reflexivity.
  - clear Heqcall. injection H0 as <-. specialize (H Hok).
    apply Nat.ltb_ge in Heq.
    match goal with
    | |- (if (?s =? 0)%Z then _ else _) = _ =>
        destruct (Z.eqb_spec s 0) as [E|E]; [exfalso; exact (Hok _ _ E)|]
    end.
    rewrite H. clear H.
    unfold MAX_NUM_OUTPUTS_PER_DATA_LAYER in *.
    assert (Hne : skipn imported_nodes in_nodes <> []).
    { intros E'. apply (f_equal (@List.length Z)) in E'.
      rewrite length_skipn in E'. simpl in E'. lia. }
    rewrite (chunks16_cons _ Hne). cbn [sink_calls]. unfold sink_link.
    rewrite skipn_skipn, length_firstn, length_skipn.
    rewrite Nat.min_l by lia.
    rewrite (Nat.add_comm 16 imported_nodes), Nat.add_1_r.
    rewrite <- !app_assoc. reflexivity.
  - discriminate.
Qed.


Lemma chunks16_spec l :
  concat (chunks16 l) = l
  /\ Forall (fun c => 1 <= List.length c <= 16)%nat (chunks16 l)
  /\ Z.of_nat (List.length (chunks16 l)) = (Z.of_nat (List.length l) + 15) / 16.
Proof.
  remember (List.length l) as n eqn:Hn. revert l Hn.
  induction n as [n IH] using lt_wf_ind. intros l Hn.
  destruct l as [|a l].
  - subst n. rewrite chunks16_nil. simpl. repeat split. constructor.
  - rewrite chunks16_cons by discriminate.
    remember (a :: l) as l' eqn:Hl'.
    assert (Hpos : (1 <= List.length l')%nat) by (subst l'; simpl; lia).
    destruct (IH (List.length (skipn 16 l'))) with (l := skipn 16 l')
      as (Hc & Hf & Hl); [rewrite length_skipn; lia|reflexivity|].
    cbn [concat]. rewrite Hc, firstn_skipn. split; [reflexivity|].
    split.
    + constructor; [|exact Hf]. rewrite length_firstn. lia.
    + cbn [List.length]. rewrite Nat2Z.inj_succ, Hl, length_skipn.
      subst n. clear - Hpos. 
      destruct (Nat.le_gt_cases 16 (List.length l')) as [Hge|Hlt].
      * rewrite Nat2Z.inj_sub by lia.
        replace (Z.of_nat (List.length l') + 15)
          with ((Z.of_nat (List.length l') - Z.of_nat 16 + 15) + 1 * 16) by lia.
        rewrite Z.div_add by lia. lia.
      * replace (List.length l' - 16)%nat with 0%nat by lia. simpl.
        apply Z.div_unique with (r := Z.of_nat (List.length l') - 1); lia.
Qed.

(** C7: a Tuple node without consumers, whose flattened inputs are
    [in_nodes], is imported (when every linking call succeeds) by one
    out-data call followed by its linking call for each group of
    [chunks16 in_nodes], the synthetic node indices running upwards from the
    size of the dictionary plus one; the groups cut [in_nodes] into pieces
    of 1 to 16 inputs, there are ceil(n/16) of them, and 20 inputs give the
    two groups of 16 and 4. *)
Theorem C7_sink_tuple_chunks target (link : list event -> InOutNodes -> Z)
    all_nodes fields in_nodes h :
  find_out_nodes all_nodes (Tuple fields) = Returned [] ->
  find_in_nodes all_nodes (Tuple fields) target = Returned in_nodes ->
  (forall h' ion, link h' ion <> 0) ->
  tidl_import_tuple_node target link all_nodes (Tuple fields) h
    = (Returned true,
       h ++ sink_calls (List.length all_nodes + 1) (chunks16 in_nodes))
  /\ concat (chunks16 in_nodes) = in_nodes
  /\ Forall (fun c => 1 <= List.length c <= 16)%nat (chunks16 in_nodes)
  /\ Z.of_nat (List.length (chunks16 in_nodes))
     = (Z.of_nat (List.length in_nodes) + 15) / 16
  /\ (List.length in_nodes = 20%nat ->
      map (@List.length Z) (chunks16 in_nodes) = [16; 4]%nat).
Proof.
  intros Hout Hin Hok.
  destruct (chunks16_spec in_nodes) as (Hc & Hf & Hl).
  repeat split; try assumption.
  - unfold tidl_import_tuple_node, bindM, lift. rewrite Hout.
    cbn [List.length Nat.eqb]. rewrite Hin. rewrite (out_data_loop_ok link in_nodes 0 _ h Hok).
    reflexivity.
  - intros H20.
    do 21 (destruct in_nodes as [|? in_nodes];
           simpl in H20; try discriminate H20).
    reflexivity.
Qed.

End SinkFacts.

(** Witness of C7: a sink tuple of 20 relu calls. *)
Lemma C7_witness :
  let fields :=
    map (fun n => Relay.Call (Relay.Op "nn.relu")
                    [Relay.Var (Py.str_nat n) Samples.f32]) (seq 0 20) in
  let all_nodes := Indexer.index_nodes (Relay.Tuple fields) in
  let in_nodes := map (fun n => 2 * Z.of_nat n + 1) (seq 0 20) in
  Importer.tidl_import_tuple_node "tidl" (fun _ _ => 1) all_nodes
    (Relay.Tuple fields) []
  = (Py.Returned true, [] ++ sink_calls 42 (chunks16 in_nodes)).
Proof.
  cbv zeta.
  refine (proj1 (C7_sink_tuple_chunks "tidl" (fun _ _ => 1) _ _ _ [] _ _ _)).
  - vm_compute. reflexivity.
  - vm_compute. reflexivity.
  - intros h' ion. discriminate.
Defined.

(** ** Pruning: which subgraphs are removed, and what happens to the rest *)

Section PruneFacts.
Import Py Relay Prune.

Lemma insert_by_In {A} (key : A -> Z) x y l :
  In y (insert_by key x l) <-> y = x \/ In y l.
Proof.
  induction l as [|z l IH]; simpl; [intuition|].
  destruct (key x <=? key z)%Z; simpl; [intuition|].
  rewrite IH. intuition.
Qed.

Lemma sorted_by_In {A} (key : A -> Z) y l :
  In y (sorted_by key l) <-> In y l.
Proof.
  induction l as [|x l IH]; simpl; [tauto|].
  rewrite insert_by_In, IH. intuition.
Qed.

Lemma firstn_subset {A} n (y : A) l : In y (firstn n l) -> In y l.
Proof.
  revert l. induction n as [|n IH]; intros [|x l]; simpl; try tauto.
  intros [->|H]; auto.
Qed.

Lemma slice_to_In {A} stop (y : A) l : In y (slice_to stop l) -> In y l.
Proof. unfold slice_to. apply firstn_subset. Qed.

Lemma collect_macs_tagged macs m compiler names l :
  collect_macs macs m compiler names = Returned l ->
  forall x, In x (map fst l) -> tagged_name m compiler x = true.
Proof.
  revert l. induction names as [|name names IH]; simpl; intros l H x Hx.
  - injection H as <-. destruct Hx.
  - unfold tagged_name.
    destruct (mod_item m name) as [f|] eqn:Hf; simpl in H; [|discriminate].
    destruct (is_tagged f compiler) as [[|]|] eqn:Ht; simpl in H; try discriminate.
    + destruct (collect_macs macs m compiler names) as [others|]; simpl in H; [|discriminate].
      injection H as <-. destruct Hx as [<-|Hx].
      * simpl. rewrite Hf, Ht. reflexivity.
      * apply (IH others eq_refl x Hx).
    + apply (IH l H x Hx).
Qed.

Lemma removed_are_tagged macs m compiler K names :
  subgraphs_to_remove macs m compiler K = Returned names ->
  forall x, In x names -> tagged_name m compiler x = true.
Proof.
  unfold subgraphs_to_remove. intros H x Hx.
  destruct (collect_macs macs m compiler (get_global_vars m)) as [l|] eqn:Hl;
    simpl in H; [|discriminate].
  injection H as <-.
  apply (collect_macs_tagged _ _ _ _ _ Hl).
  apply in_map_iff in Hx as (p & <- & Hp).
  apply in_map. apply slice_to_In in Hp. apply sorted_by_In in Hp. exact Hp.
Qed.

Lemma name_in_In name l : name_in name l = true <-> In name l.
Proof.
  unfold name_in. rewrite existsb_exists. split.
  - intros (x & Hx & He). apply String.eqb_eq in He. subst. exact Hx.
  - intros H. exists name. split; [exact H|apply String.eqb_refl].
Qed.

Lemma mod_get_add m name f m' :
  mod_add m name f = Returned m' -> mod_get m' name = Some f.
Proof.
  unfold mod_add. destruct (mod_get m name) eqn:Hg; [discriminate|].
  intros H. injection H as <-.
  induction m as [|[k g] m IH]; simpl in *.
  - rewrite String.eqb_refl. reflexivity.
  - destruct (String.eqb k name); [discriminate|]. apply IH. exact Hg.
Qed.


(** C4 (as amended): a subgraph that does not carry the active tag is never
    among the subgraphs cost-based pruning removes, so it is never inlined;
    but its call is rewritten like that of every kept subgraph: the callee
    is copied to the new module under the name made of the first token of
    its name and the running count, with its variables renamed by
    [VarRenamer] and its [global_symbol] set to the new name. *)
Theorem C4_untagged_subgraph_kept_but_renamed
    macs m compiler K names name args st r st' :
  subgraphs_to_remove macs m compiler K = Returned names ->
  tagged_name m compiler name = false ->
  name <> "main" ->
  var_map_get (memo_map st) (Call (GlobalVar name) args) = None ->
  visit names m true (Call (GlobalVar name) args) st = Returned (r, st') ->
  name_in name names = false
  /\ exists prefix f f' f'' args',
      nth_error (split_char "_" name) 0 = Some prefix
      /\ r = Call (GlobalVar (prefix ++ "_" ++ str_nat (count st))%string) args'
      /\ mod_get m name = Some f
      /\ VarRenamer (prefix ++ "_" ++ str_nat (count st))%string f = Returned f'
      /\ with_attr f' "global_symbol" (prefix ++ "_" ++ str_nat (count st))%string
         = Returned f''
      /\ mod_get (new_mod st') (prefix ++ "_" ++ str_nat (count st))%string
         = Some f''.
Proof.
  intros Hrem Htag Hmain Hmemo Hv.
  assert (Hnot : name_in name names = false).
  { destruct (name_in name names) eqn:Hin; [|reflexivity].
    apply name_in_In in Hin.
    rewrite (removed_are_tagged _ _ _ _ _ Hrem _ Hin) in Htag. discriminate. }
  split; [exact Hnot|].
  cbn [visit] in Hv. rewrite Hmemo, Hnot in Hv.
  destruct (String.eqb_spec name "main") as [->|_]; [contradiction|].
  cbn [negb] in Hv. unfold copy_subgraph in Hv.
  unfold getitem, of_option in Hv.
  destruct (nth_error (split_char "_" name) 0) as [prefix|] eqn:Hp;
    cbn [Py.bind] in Hv; [|discriminate Hv].
  destruct (visit_args _ args _) as [[args' st0]|] eqn:Ha;
    cbn [Py.bind] in Hv; [|discriminate Hv].
  unfold mod_item, of_option in Hv.
  destruct (mod_get m name) as [f|] eqn:Hf; cbn [Py.bind] in Hv; [|discriminate Hv].
  destruct (VarRenamer _ f) as [f'|] eqn:Hr; cbn [Py.bind] in Hv; [|discriminate Hv].
  destruct (with_attr f' _ _) as [f''|] eqn:Hw; cbn [Py.bind] in Hv; [|discriminate Hv].
  destruct (mod_add _ _ f'') as [new_mod'|] eqn:Hadd;
    cbn [Py.bind] in Hv; [|discriminate Hv].
  injection Hv as <- <-.
  exists prefix, f, f', f'', args'. repeat split; try assumption.
  cbn [memoise new_mod]. apply (mod_get_add _ _ _ _ Hadd).
Qed.

End PruneFacts.

(** C4 (as stated, refuted): in the sample, the subgraph [dnnl_5] of
    another compiler survives cost-based pruning, but the new module holds
    it as [dnnl_0], with its variable [dnnl_5_i0] renamed to [dnnl_0_i0]:
    neither its name nor its variables are unchanged. *)
Lemma C4_counterexample :
  Prune.PruneSubgraphs Samples.macs Samples.two_compilers "tidl" 4
    = Py.Returned Samples.two_compilers_pruned
  /\ Prune.tagged_name Samples.two_compilers "tidl" "dnnl_5" = false
  /\ Relay.mod_get Samples.two_compilers "dnnl_5"
     = Some (Samples.relu_subgraph "dnnl_5" "dnnl")
  /\ Relay.mod_get Samples.two_compilers_pruned "dnnl_5" = None
  /\ Relay.mod_get Samples.two_compilers_pruned "dnnl_0"
     = Some (Samples.relu_subgraph "dnnl_0" "dnnl")
  /\ Samples.relu_subgraph "dnnl_0" "dnnl" <> Samples.relu_subgraph "dnnl_5" "dnnl".
Proof.
  repeat split; try (vm_compute; reflexivity).
  vm_compute. discriminate.
Qed.

(** Witness of C4 as amended: the call of [dnnl_5] in the sample. *)
Lemma C4_witness :
  Prune.name_in "dnnl_5" [] = false
  /\ exists prefix f f' f'' args',
      nth_error (Py.split_char "_" "dnnl_5") 0 = Some prefix
      /\ Relay.Call (Relay.GlobalVar "dnnl_0")
           [Relay.Call (Relay.GlobalVar "tidl_1") [Samples.x]]
         = Relay.Call (Relay.GlobalVar (prefix ++ "_" ++ Py.str_nat 0)%string) args'
      /\ Relay.mod_get Samples.two_compilers "dnnl_5" = Some f
      /\ Prune.VarRenamer (prefix ++ "_" ++ Py.str_nat 0)%string f = Py.Returned f'
      /\ Relay.with_attr f' "global_symbol" (prefix ++ "_" ++ Py.str_nat 0)%string
         = Py.Returned f''
      /\ Relay.mod_get
           [("tidl_1", Samples.relu_subgraph "tidl_1" "tidl");
            ("dnnl_0", Samples.relu_subgraph "dnnl_0" "dnnl")]
           (prefix ++ "_" ++ Py.str_nat 0)%string
         = Some f''.
Proof.
  refine (C4_untagged_subgraph_kept_but_renamed
            Samples.macs Samples.two_compilers "tidl" 4 [] "dnnl_5"
            [Relay.Call (Relay.GlobalVar "tidl_3") [Samples.x]]
            (Prune.mk_state 0 [] [])
            (Relay.Call (Relay.GlobalVar "dnnl_0")
               [Relay.Call (Relay.GlobalVar "tidl_1") [Samples.x]])
            (Prune.mk_state 2
               [("tidl_1", Samples.relu_subgraph "tidl_1" "tidl");
                ("dnnl_0", Samples.relu_subgraph "dnnl_0" "dnnl")] _)
            _ _ _ _ _).
  - vm_compute. reflexivity.
  - vm_compute. reflexivity.
  - discriminate.
  - reflexivity.
  - vm_compute. reflexivity.
Defined.

(** ** Quantization *)

Section QuantFacts.
Import Py Np Quant.

(** The place of a float that is not NaN in the order of the reals: its
    class (infinities, finite numbers of either sign, zeros), then exponent
    and mantissa, both counted downwards for a negative number. *)
Definition rank (x : spec_float) : Z * Z * Z :=
  match x with
  | S754_infinity true => (-2, 0, 0)
  | S754_finite true m e => (-1, - e, - Zpos m)
  | S754_zero _ => (0, 0, 0)
  | S754_nan => (0, 0, 0)
  | S754_finite false m e => (1, e, Zpos m)
  | S754_infinity false => (2, 0, 0)
  end.

Definition lex_lt (a b : Z * Z * Z) : Prop :=
  let '(a1, a2, a3) := a in
  let '(b1, b2, b3) := b in
  a1 < b1 \/ (a1 = b1 /\ (a2 < b2 \/ (a2 = b2 /\ a3 < b3))).

Definition lex_le (a b : Z * Z * Z) : Prop :=
  let '(a1, a2, a3) := a in
  let '(b1, b2, b3) := b in
  a1 < b1 \/ (a1 = b1 /\ (a2 < b2 \/ (a2 = b2 /\ a3 <= b3))).

Lemma compare_cont_Eq m1 m2 : Pos.compare_cont Eq m1 m2 = (Zpos m1 ?= Zpos m2).
Proof. reflexivity. Qed.

Lemma SFltb_rank a b :
  is_nan a = false -> is_nan b = false ->
  (SFltb a b = true <-> lex_lt (rank a) (rank b)).
Proof.
  intros Ha Hb. unfold SFltb, SFcompare.
  destruct a as [sa|sa| |sa ma ea], b as [sb|sb| |sb mb eb];
    try discriminate; try destruct sa; try destruct sb; simpl;
    try rewrite compare_cont_Eq;
    try (destruct (Z.compare_spec ea eb); try destruct (Z.compare_spec (Zpos ma) (Zpos mb)); simpl);
    split; intros Hgoal; try discriminate; try reflexivity; try lia.
Qed.

Lemma SFleb_rank a b :
  is_nan a = false -> is_nan b = false ->
  (SFleb a b = true <-> lex_le (rank a) (rank b)).
Proof.
  intros Ha Hb. unfold SFleb, SFcompare.
  destruct a as [sa|sa| |sa ma ea], b as [sb|sb| |sb mb eb];
    try discriminate; try destruct sa; try destruct sb; simpl;
    try rewrite compare_cont_Eq;
    try (destruct (Z.compare_spec ea eb); try destruct (Z.compare_spec (Zpos ma) (Zpos mb)); simpl);
    split; intros Hgoal; try discriminate; try reflexivity; try lia.
Qed.

Lemma SFltb_false_le a b :
  is_nan a = false -> is_nan b = false -> SFltb a b = false -> SFleb b a = true.
Proof.
  intros Ha Hb H. apply (SFleb_rank b a Hb Ha).
  assert (Hn : ~ lex_lt (rank a) (rank b)).
  { intros Hl. apply (SFltb_rank a b Ha Hb) in Hl. congruence. }
  unfold lex_lt, lex_le in *.
  destruct (rank a) as [[a1 a2] a3], (rank b) as [[b1 b2] b3]. lia.
Qed.

Lemma SFltb_le a b :
  is_nan a = false -> is_nan b = false -> SFltb a b = true -> SFleb a b = true.
Proof.
  intros Ha Hb H. apply (SFleb_rank a b Ha Hb). apply (SFltb_rank a b Ha Hb) in H.
  unfold lex_lt, lex_le in *.
  destruct (rank a) as [[a1 a2] a3], (rank b) as [[b1 b2] b3]. lia.
Qed.

Lemma SFleb_refl a : is_nan a = false -> SFleb a a = true.
Proof.
  intros Ha. apply (SFleb_rank a a Ha Ha). unfold lex_le.
  destruct (rank a) as [[a1 a2] a3]. lia.
Qed.

Lemma SFleb_trans a b c :
  is_nan a = false -> is_nan b = false -> is_nan c = false ->
  SFleb a b = true -> SFleb b c = true -> SFleb a c = true.
Proof.
  intros Ha Hb Hc H1 H2.
  apply (SFleb_rank a b Ha Hb) in H1. apply (SFleb_rank b c Hb Hc) in H2.
  apply (SFleb_rank a c Ha Hc). unfold lex_le in *.
  destruct (rank a) as [[a1 a2] a3], (rank b) as [[b1 b2] b3],
    (rank c) as [[c1 c2] c3]. lia.
Qed.

Lemma SFleb_ltb_trans a b c :
  is_nan a = false -> is_nan b = false -> is_nan c = false ->
  SFleb a b = true -> SFltb b c = true -> SFltb a c = true.
Proof.
  intros Ha Hb Hc H1 H2.
  apply (SFleb_rank a b Ha Hb) in H1. apply (SFltb_rank b c Hb Hc) in H2.
  apply (SFltb_rank a c Ha Hc). unfold lex_le, lex_lt in *.
  destruct (rank a) as [[a1 a2] a3], (rank b) as [[b1 b2] b3],
    (rank c) as [[c1 c2] c3]. lia.
Qed.

Lemma SFltb_not_le a b :
  is_nan a = false -> is_nan b = false -> SFltb a b = true -> SFleb b a = false.
Proof.
  intros Ha Hb H. apply (SFltb_rank a b Ha Hb) in H.
  destruct (SFleb b a) eqn:E; [|reflexivity].
  apply (SFleb_rank b a Hb Ha) in E. unfold lex_le, lex_lt in *.
  destruct (rank a) as [[a1 a2] a3], (rank b) as [[b1 b2] b3]. lia.
Qed.

(** ** Minimum and maximum of an array without NaN *)

Lemma np_minimum_spec a b :
  is_nan a = false -> is_nan b = false ->
  (np_minimum a b = a \/ np_minimum a b = b)
  /\ SFleb (np_minimum a b) a = true /\ SFleb (np_minimum a b) b = true.
Proof.
  intros Ha Hb. unfold np_minimum. rewrite Ha. simpl.
  destruct (SFltb a b) eqn:E.
  - repeat split; [left; reflexivity|apply SFleb_refl; exact Ha|apply SFltb_le; assumption].
  - repeat split; [right; reflexivity|apply SFltb_false_le; assumption|apply SFleb_refl; exact Hb].
Qed.

Lemma np_maximum_spec a b :
  is_nan a = false -> is_nan b = false ->
  (np_maximum a b = a \/ np_maximum a b = b)
  /\ SFleb a (np_maximum a b) = true /\ SFleb b (np_maximum a b) = true.
Proof.
  intros Ha Hb. unfold np_maximum. rewrite Ha. simpl.
  destruct (SFltb b a) eqn:E.
  - repeat split; [left; reflexivity|apply SFleb_refl; exact Ha|apply SFltb_le; assumption].
  - repeat split; [right; reflexivity|apply SFltb_false_le; assumption|apply SFleb_refl; exact Hb].
Qed.

Definition no_nan (l : list spec_float) : Prop := Forall (fun x => is_nan x = false) l.

Lemma fold_minimum_spec xs acc :
  is_nan acc = false -> no_nan xs ->
  let r := fold_left np_minimum xs acc in
  In r (acc :: xs) /\ is_nan r = false
  /\ forall y, In y (acc :: xs) -> SFleb r y = true.
Proof.
  revert acc. induction xs as [|x xs IH]; intros acc Hacc Hxs; cbn [fold_left].
  - repeat split; [left; reflexivity|exact Hacc|].
    intros y [<-|[]]. apply SFleb_refl. exact Hacc.
  - inversion Hxs as [|? ? Hx Hxs']; subst.
    destruct (np_minimum_spec acc x Hacc Hx) as (Hor & Hle1 & Hle2).
    assert (Hm : is_nan (np_minimum acc x) = false) by (destruct Hor as [-> | ->]; assumption).
    destruct (IH (np_minimum acc x) Hm Hxs') as (Hin & Hr & Hall).
    cbv zeta in *. repeat split; [|exact Hr|].
    + destruct Hin as [Heq|Hin]; [|right; right; exact Hin].
      rewrite <- Heq. destruct Hor as [-> | ->]; [left|right; left]; reflexivity.
    + assert (Hrm : SFleb (fold_left np_minimum xs (np_minimum acc x)) (np_minimum acc x) = true)
        by (apply Hall; left; reflexivity).
      intros y [<-|[<-|Hy]].
      * apply (SFleb_trans _ _ _ Hr Hm Hacc Hrm Hle1).
      * apply (SFleb_trans _ _ _ Hr Hm Hx Hrm Hle2).
      * apply Hall. right. exact Hy.
Qed.

Lemma fold_maximum_spec xs acc :
  is_nan acc = false -> no_nan xs ->
  let r := fold_left np_maximum xs acc in
  In r (acc :: xs) /\ is_nan r = false
  /\ forall y, In y (acc :: xs) -> SFleb y r = true.
Proof.
  revert acc. induction xs as [|x xs IH]; intros acc Hacc Hxs; cbn [fold_left].
  - repeat split; [left; reflexivity|exact Hacc|].
    intros y [<-|[]]. apply SFleb_refl. exact Hacc.
  - inversion Hxs as [|? ? Hx Hxs']; subst.
    destruct (np_maximum_spec acc x Hacc Hx) as (Hor & Hle1 & Hle2).
    assert (Hm : is_nan (np_maximum acc x) = false) by (destruct Hor as [-> | ->]; assumption).
    destruct (IH (np_maximum acc x) Hm Hxs') as (Hin & Hr & Hall).
    cbv zeta in *. repeat split; [|exact Hr|].
    + destruct Hin as [Heq|Hin]; [|right; right; exact Hin].
      rewrite <- Heq. destruct Hor as [-> | ->]; [left|right; left]; reflexivity.
    + assert (Hrm : SFleb (np_maximum acc x) (fold_left np_maximum xs (np_maximum acc x)) = true)
        by (apply Hall; left; reflexivity).
      intros y [<-|[<-|Hy]].
      * apply (SFleb_trans _ _ _ Hacc Hm Hr Hle1 Hrm).
      * apply (SFleb_trans _ _ _ Hx Hm Hr Hle2 Hrm).
      * apply Hall. right. exact Hy.
Qed.

(** [lo] is a least and [hi] a greatest element of the list. *)
Definition is_least (lo : spec_float) (l : list spec_float) : Prop :=
  In lo l /\ forall y, In y l -> SFleb lo y = true.

Definition is_greatest (hi : spec_float) (l : list spec_float) : Prop :=
  In hi l /\ forall y, In y l -> SFleb y hi = true.

Lemma amin_spec a :
  data a <> [] -> no_nan (data a) ->
  exists lo, amin a = Returned lo /\ is_nan lo = false /\ is_least lo (data a).
Proof.
  unfold amin. destruct (data a) as [|x xs]; [congruence|]. intros _ Hn.
  inversion Hn as [|? ? Hx Hxs]; subst.
  destruct (fold_minimum_spec xs x Hx Hxs) as (Hin & Hr & Hall).
  eexists. split; [reflexivity|]. split; [exact Hr|]. split; assumption.
Qed.

Lemma amax_spec a :
  data a <> [] -> no_nan (data a) ->
  exists hi, amax a = Returned hi /\ is_nan hi = false /\ is_greatest hi (data a).
Proof.
  unfold amax. destruct (data a) as [|x xs]; [congruence|]. intros _ Hn.
  inversion Hn as [|? ? Hx Hxs]; subst.
  destruct (fold_maximum_spec xs x Hx Hxs) as (Hin & Hr & Hall).
  eexists. split; [reflexivity|]. split; [exact Hr|]. split; assumption.
Qed.

(** With a negative minimum, [max(abs(lo), hi)] is [max(abs(lo), abs(hi))]. *)
Lemma py_max_abs lo hi :
  is_nan lo = false -> is_nan hi = false ->
  is_negative lo = true -> SFleb lo hi = true ->
  py_max (SFabs lo) hi = py_max (SFabs lo) (SFabs hi).
Proof.
  intros Hlo Hhi Hneg Hle. unfold py_max, is_negative in *.
  destruct lo as [sl|sl| |sl ml el]; try discriminate;
    destruct sl; try discriminate;
    destruct hi as [sh|sh| |sh mh eh]; try discriminate;
    try destruct sh; try reflexivity; try discriminate.
  apply (SFleb_rank _ _ Hlo Hhi) in Hle. unfold lex_le in Hle. simpl in Hle.
  cbn [SFabs].
  assert (E : SFltb (S754_finite false ml el) (S754_finite false mh eh) = false).
  { destruct (SFltb (S754_finite false ml el) (S754_finite false mh eh)) eqn:E;
      [|reflexivity].
    apply SFltb_rank in E; [|reflexivity|reflexivity]. unfold lex_lt in E. simpl in E. lia. }
  rewrite E. reflexivity.
Qed.

(** ** Transposition keeps the elements *)

Definition well_formed (a : ndarray) : Prop :=
  List.length (data a) = fold_right Nat.mul 1%nat (shape a).

Lemma transpose_201_In a x :
  well_formed a -> (In x (data (transpose_201 a)) <-> In x (data a)).
Proof.
  unfold well_formed, transpose_201.
  destruct (shape a) as [|H [|W [|C [|? ?]]]]; try tauto.
  cbn [fold_right data]. rewrite Nat.mul_1_r. intros Hlen. split.
  - intros Hin. apply in_flat_map in Hin as (c & Hc & Hin).
    apply in_flat_map in Hin as (h & Hh & Hin).
    apply in_map_iff in Hin as (w & <- & Hw).
    apply in_seq in Hc, Hh, Hw. apply nth_In. rewrite Hlen.
    assert (Hhw : (h * W + w + 1 <= H * W)%nat) by nia.
    assert (Hmul : ((h * W + w + 1) * C <= H * W * C)%nat)
      by (apply Nat.mul_le_mono_r; exact Hhw).
    lia.
  - intros Hin. destruct (In_nth _ _ S754_nan Hin) as (i & Hi & <-).
    rewrite Hlen in Hi.
    assert (HC : (0 < C)%nat) by nia. assert (HW : (0 < W)%nat) by nia.
    pose proof (Nat.div_mod_eq i C) as Ei.
    pose proof (Nat.mod_upper_bound i C ltac:(lia)) as Hc.
    pose proof (Nat.div_mod_eq (i / C) W) as Eq.
    pose proof (Nat.mod_upper_bound (i / C) W ltac:(lia)) as Hw.
    assert (Hq : (i / C < H * W)%nat).
    { apply Nat.Div0.div_lt_upper_bound. nia. }
    assert (Hh : (i / C / W < H)%nat).
    { apply Nat.Div0.div_lt_upper_bound. nia. }
    apply in_flat_map. exists (i mod C)%nat. split; [apply in_seq; lia|].
    apply in_flat_map. exists (i / C / W)%nat. split; [apply in_seq; lia|].
    apply in_map_iff. exists ((i / C) mod W)%nat. split; [|apply in_seq; lia].
    f_equal. nia.
Qed.

Lemma transpose_201_length a :
  well_formed a -> List.length (data (transpose_201 a)) = List.length (data a).
Proof.
  unfold well_formed, transpose_201.
  destruct (shape a) as [|H [|W [|C [|? ?]]]]; try reflexivity.
  cbn [fold_right data]. rewrite Nat.mul_1_r. intros ->.
  assert (E : forall (f : nat -> nat -> list spec_float) n k,
             (forall c, List.length (f c k) = k) ->
             List.length (flat_map (fun c => f c k) (seq 0 n)) = (n * k)%nat).
  { intros f n k Hf. generalize 0%nat. induction n as [|n IH]; intros s; simpl; [reflexivity|].
    rewrite length_app, Hf, IH. reflexivity. }
  rewrite (E (fun c _ => flat_map (fun h => map (fun w => nth ((h * W + w) * C + c) (data a) S754_nan) (seq 0 W)) (seq 0 H)) C (H * W)%nat).
  - lia.
  - intros c.
    rewrite (E (fun h _ => map (fun w => nth ((h * W + w) * C + c) (data a) S754_nan) (seq 0 W)) H W).
    + reflexivity.
    + intros h. rewrite length_map, length_seq. reflexivity.
Qed.

(** The array [tensor_quant_flatten] takes the range of. *)
Definition calibration_slice (input_tensor : ndarray) (data_layout : string)
  : result ndarray :=
  Py.bind (batch0 input_tensor) (fun t =>
  Returned (if String.eqb data_layout "NHWC" && Nat.eqb (List.length (shape t)) 3
            then transpose_201 t else t)).

Lemma calibration_slice_In input_tensor data_layout t0 :
  batch0 input_tensor = Returned t0 -> well_formed t0 ->
  exists t, calibration_slice input_tensor data_layout = Returned t
            /\ List.length (data t) = List.length (data t0)
            /\ forall x, In x (data t) <-> In x (data t0).
Proof.
  intros Hb Hwf. unfold calibration_slice. rewrite Hb. cbn [Py.bind].
  eexists. split; [reflexivity|].
  destruct (String.eqb data_layout "NHWC" && Nat.eqb (List.length (shape t0)) 3).
  - split; [apply transpose_201_length; exact Hwf|].
    intros x. apply transpose_201_In. exact Hwf.
  - split; [reflexivity|tauto].
Qed.

(** ** The two paths of [tensor_quant_flatten] *)

(** One element: scaled, rounded and clipped to the range of the codes. *)
Definition quantize (fmt : format) (quant_min quant_max : Z) (scale x : spec_float)
  : spec_float :=
  clip (rint fmt (SFmul (prec fmt) (emax fmt) x scale))
    (of_Z fmt quant_min) (of_Z fmt quant_max).

(** A code is NaN or lies between the bounds. *)
Definition in_range (fmt : format) (quant_min quant_max : Z) (o : spec_float) : Prop :=
  is_nan o = true
  \/ (SFleb (of_Z fmt quant_min) o = true /\ SFleb o (of_Z fmt quant_max) = true).

Lemma clip_range v lo hi :
  is_nan lo = false -> is_nan hi = false -> SFleb lo hi = true ->
  is_nan (clip v lo hi) = true
  \/ (SFleb lo (clip v lo hi) = true /\ SFleb (clip v lo hi) hi = true).
Proof.
  intros Hlo Hhi Hle. unfold clip.
  destruct (is_nan v) eqn:Hv.
  - left. unfold np_maximum, np_minimum. rewrite Hv. simpl. rewrite Hv. simpl.
    exact Hv.
  - right.
    destruct (np_maximum_spec v lo Hv Hlo) as (Hor & _ & Hge).
    assert (Ht : is_nan (np_maximum v lo) = false)
      by (destruct Hor as [-> | ->]; assumption).
    destruct (np_minimum_spec (np_maximum v lo) hi Ht Hhi) as (Hor' & _ & Hle').
    split; [|exact Hle'].
    destruct Hor' as [-> | ->]; assumption.
Qed.

Lemma quantize_in_range fmt quant_min quant_max scale x :
  (quant_min, quant_max) = (-128, 127) \/ (quant_min, quant_max) = (0, 255) ->
  in_range fmt quant_min quant_max (quantize fmt quant_min quant_max scale x).
Proof.
  intros Hq. unfold in_range, quantize. apply clip_range;
    destruct Hq as [Hq|Hq]; injection Hq as -> ->; destruct fmt; reflexivity.
Qed.

Lemma tensor_quant_flatten_slice fmt input_tensor data_layout :
  tensor_quant_flatten fmt input_tensor data_layout
  = Py.bind (calibration_slice input_tensor data_layout) (fun t =>
    Py.bind (amin t) (fun lowest =>
    Py.bind (amax t) (fun highest =>
      if SFleb (S754_zero false) lowest then
        let scale := SFdiv (prec fmt) (emax fmt) (of_Z fmt 255) highest in
        Returned (map (quantize fmt 0 255 scale) (data t), scale, 0)
      else
        let scale := SFdiv (prec fmt) (emax fmt) (of_Z fmt 128)
                       (py_max (SFabs lowest) highest) in
        Returned (map (quantize fmt (-128) 127 scale) (data t), scale, 1)))).
Proof.
  unfold tensor_quant_flatten, calibration_slice.
  destruct (batch0 input_tensor) as [t0|]; [|reflexivity]. cbn [Py.bind].
  set (t := if String.eqb data_layout "NHWC" && Nat.eqb (List.length (shape t0)) 3
            then transpose_201 t0 else t0).
  destruct (amin t) as [lowest|] eqn:Hmin; [|reflexivity]. cbn [Py.bind].
  assert (Hmax : exists highest, amax t = Returned highest).
  { unfold amin, amax in *. destruct (data t); [discriminate|]. eexists. reflexivity. }
  destruct Hmax as (highest & Hmax). rewrite Hmax. cbn [Py.bind].
  destruct (SFleb (S754_zero false) lowest); cbn [Py.bind];
    rewrite !map_map; reflexivity.
Qed.

Lemma signed_path fmt input_tensor data_layout t0 :
  batch0 input_tensor = Returned t0 -> well_formed t0 ->
  no_nan (data t0) ->
  Exists (fun x => is_negative x = true) (data t0) ->
  exists t lo hi,
    calibration_slice input_tensor data_layout = Returned t
    /\ (forall x, In x (data t) <-> In x (data t0))
    /\ is_least lo (data t0) /\ is_greatest hi (data t0)
    /\ let scale := SFdiv (prec fmt) (emax fmt) (of_Z fmt 128)
                      (py_max (SFabs lo) (SFabs hi)) in
       tensor_quant_flatten fmt input_tensor data_layout
       = Returned (map (quantize fmt (-128) 127 scale) (data t), scale, 1)
       /\ Forall (in_range fmt (-128) 127)
            (map (quantize fmt (-128) 127 scale) (data t)).
Proof.
  intros Hb Hwf Hnn Hex.
  destruct (calibration_slice_In input_tensor data_layout t0 Hb Hwf)
    as (t & Ht & Hlen & Hin).
  assert (Hnn' : no_nan (data t)).
  { apply Forall_forall. intros x Hx. apply Hin in Hx.
    exact (proj1 (Forall_forall _ _) Hnn x Hx). }
  apply Exists_exists in Hex as (y & Hy & Hyneg).
  assert (Hne : data t <> []).
  { apply Hin in Hy. intros E. rewrite E in Hy. destruct Hy. }
  destruct (amin_spec t Hne Hnn') as (lo & Hmin & Hlo & Hlo_in & Hlo_le).
  destruct (amax_spec t Hne Hnn') as (hi & Hmax & Hhi & Hhi_in & Hhi_ge).
  assert (Hyn : is_nan y = false).
  { exact (proj1 (Forall_forall _ _) Hnn y Hy). }
  assert (Hloneg : is_negative lo = true).
  { unfold is_negative in *.
    apply (SFleb_ltb_trans lo y (S754_zero false) Hlo Hyn eq_refl); [|exact Hyneg].
    apply Hlo_le. apply Hin. exact Hy. }
  exists t, lo, hi. split; [exact Ht|]. split; [exact Hin|].
  split; [split; [apply Hin; exact Hlo_in|intros z Hz; apply Hlo_le, Hin, Hz]|].
  split; [split; [apply Hin; exact Hhi_in|intros z Hz; apply Hhi_ge, Hin, Hz]|].
  cbv zeta. split.
  - rewrite tensor_quant_flatten_slice, Ht. cbn [Py.bind]. rewrite Hmin, Hmax.
    cbn [Py.bind].
    rewrite (SFltb_not_le lo (S754_zero false) Hlo eq_refl Hloneg).
    cbv zeta. rewrite (py_max_abs lo hi Hlo Hhi Hloneg (Hlo_le hi Hhi_in)).
    reflexivity.
  - apply Forall_forall. intros o Ho. apply in_map_iff in Ho as (x & <- & _).
    apply quantize_in_range. left. reflexivity.
Qed.

Lemma unsigned_path fmt input_tensor data_layout t0 :
  batch0 input_tensor = Returned t0 -> well_formed t0 ->
  data t0 <> [] ->
  Forall (fun x => SFleb (S754_zero false) x = true) (data t0) ->
  exists t hi,
    calibration_slice input_tensor data_layout = Returned t
    /\ (forall x, In x (data t) <-> In x (data t0))
    /\ is_greatest hi (data t0)
    /\ (forall x, In x (data t0) -> SFleb (SFabs x) hi = true)
    /\ let scale := SFdiv (prec fmt) (emax fmt) (of_Z fmt 255) hi in
       tensor_quant_flatten fmt input_tensor data_layout
       = Returned (map (quantize fmt 0 255 scale) (data t), scale, 0)
       /\ Forall (in_range fmt 0 255) (map (quantize fmt 0 255 scale) (data t)).
Proof.
  intros Hb Hwf Hne0 Hpos.
  destruct (calibration_slice_In input_tensor data_layout t0 Hb Hwf)
    as (t & Ht & Hlen & Hin).
  assert (Hge : forall x, In x (data t0) -> SFleb (S754_zero false) x = true).
  { apply Forall_forall. exact Hpos. }
  assert (Hnn' : no_nan (data t)).
  { apply Forall_forall. intros x Hx. apply Hin, Hge in Hx.
    destruct x; try reflexivity. discriminate Hx. }
  assert (Hne : data t <> []).
  { intros E. apply Hne0. apply length_zero_iff_nil. rewrite <- Hlen, E. reflexivity. }
  destruct (amin_spec t Hne Hnn') as (lo & Hmin & Hlo & Hlo_in & Hlo_le).
  destruct (amax_spec t Hne Hnn') as (hi & Hmax & Hhi & Hhi_in & Hhi_ge).
  exists t, hi. split; [exact Ht|]. split; [exact Hin|].
  split; [split; [apply Hin; exact Hhi_in|intros z Hz; apply Hhi_ge, Hin, Hz]|].
  split.
  - intros x Hx. pose proof (Hge x Hx) as Hx0.
    pose proof (Hhi_ge x (proj2 (Hin x) Hx)) as Hxhi.
    destruct x as [s|s| |s m e]; try discriminate Hx0.
    + cbn [SFabs]. apply Hge, Hin. exact Hhi_in.
    + destruct s; [discriminate Hx0|exact Hxhi].
    + destruct s; [discriminate Hx0|exact Hxhi].
  - cbv zeta. split.
    + rewrite tensor_quant_flatten_slice, Ht. cbn [Py.bind]. rewrite Hmin, Hmax.
      cbn [Py.bind]. rewrite (Hge lo (proj1 (Hin lo) Hlo_in)). reflexivity.
    + apply Forall_forall. intros o Ho. apply in_map_iff in Ho as (x & <- & _).
      apply quantize_in_range. right. reflexivity.
Qed.

(** Rounding to the nearest integer, ties to the even one. *)
Lemma round_half_even_nearest m d :
  0 < d ->
  2 * Z.abs (m - d * round_half_even m d) <= d
  /\ (2 * Z.abs (m - d * round_half_even m d) = d ->
      Z.even (round_half_even m d) = true).
Proof.
  intros Hd. unfold round_half_even.
  pose proof (Z.div_mod m d ltac:(lia)) as E.
  pose proof (Z.mod_pos_bound m d Hd) as B.
  destruct (Z.compare_spec (2 * (m mod d)) d) as [Hc|Hc|Hc].
  - destruct (Z.even (m / d)) eqn:Hev.
    + split; [lia|intros _; exact Hev].
    + split; [lia|]. intros _. rewrite Z.even_add, Hev. reflexivity.
  - split; [lia|]. intros Habs. lia.
  - split; [lia|]. intros Habs. lia.
Qed.

(** ** Mantissas and their number of digits *)

Lemma digits2_pos_bounds p :
  2 ^ (Zpos (digits2_pos p) - 1) <= Zpos p < 2 ^ Zpos (digits2_pos p).
Proof.
  induction p as [p IH|p IH|]; cbn [digits2_pos]; [| |split; reflexivity].
  - rewrite Pos2Z.inj_succ. change (Zpos p~1) with (2 * Zpos p + 1).
    replace (Z.succ (Zpos (digits2_pos p)) - 1) with (Z.succ (Zpos (digits2_pos p) - 1)) by lia.
    rewrite !Z.pow_succ_r by lia. lia.
  - rewrite Pos2Z.inj_succ. change (Zpos p~0) with (2 * Zpos p).
    replace (Z.succ (Zpos (digits2_pos p)) - 1) with (Z.succ (Zpos (digits2_pos p) - 1)) by lia.
    rewrite !Z.pow_succ_r by lia. lia.
Qed.

Lemma digits2_pos_le p k :
  Zpos p < 2 ^ k -> Zpos (digits2_pos p) <= k.
Proof.
  intros H. destruct (Z.le_gt_cases (Zpos (digits2_pos p)) k) as [|Hgt]; [assumption|].
  exfalso. pose proof (proj1 (digits2_pos_bounds p)) as Hlo.
  destruct (Z.le_gt_cases 0 k) as [Hk|Hk].
  - pose proof (Z.pow_le_mono_r 2 k (Zpos (digits2_pos p) - 1) ltac:(lia) ltac:(lia)). lia.
  - rewrite Z.pow_neg_r in H by lia. lia.
Qed.

Lemma digits2_pos_lt p k :
  Zpos (digits2_pos p) <= k -> Zpos p < 2 ^ k.
Proof.
  intros H. pose proof (proj2 (digits2_pos_bounds p)) as Hhi.
  pose proof (Z.pow_le_mono_r 2 (Zpos (digits2_pos p)) k ltac:(lia) H). lia.
Qed.

Lemma Zdigits2_lt m : 0 <= m -> m < 2 ^ Zdigits2 m.
Proof.
  destruct m as [|p|p]; [reflexivity| |lia]. intros _.
  apply (proj2 (digits2_pos_bounds p)).
Qed.

Lemma Zdigits2_nonneg m : 0 <= Zdigits2 m.
Proof. destruct m; simpl; lia. Qed.

(** ** Shifting a mantissa to the right *)

Lemma shr_1_m mrs : 0 <= shr_m mrs -> shr_m (shr_1 mrs) = shr_m mrs / 2.
Proof.
  destruct mrs as [m r s]. cbn [shr_m]. intros Hm. rewrite <- Z.div2_div.
  destruct m as [|[p|p|]|p]; try reflexivity. lia.
Qed.

Lemma iter_shr_1_m p :
  forall mrs, 0 <= shr_m mrs ->
    shr_m (iter_pos shr_1 p mrs) = shr_m mrs / 2 ^ Zpos p.
Proof.
  induction p as [p IH|p IH|]; intros mrs Hm; cbn [iter_pos].
  - assert (H1 : 0 <= shr_m (shr_1 mrs))
      by (rewrite shr_1_m by assumption; apply Z.div_pos; lia).
    assert (H2 : 0 <= shr_m (iter_pos shr_1 p (shr_1 mrs)))
      by (rewrite IH by assumption; apply Z.div_pos; [assumption|apply Z.pow_pos_nonneg; lia]).
    rewrite (IH _ H2), (IH _ H1), shr_1_m by assumption.
    pose proof (Z.pow_pos_nonneg 2 (Zpos p) ltac:(lia) ltac:(lia)) as Hpow.
    rewrite !Z.div_div by lia. f_equal.
    change (Zpos p~1) with (Z.succ (2 * Zpos p)).
    rewrite Z.pow_succ_r, Z.pow_twice_r by lia. lia.
  - assert (H1 : 0 <= shr_m (iter_pos shr_1 p mrs))
      by (rewrite IH by assumption; apply Z.div_pos; [assumption|apply Z.pow_pos_nonneg; lia]).
    rewrite (IH _ H1), (IH _ Hm).
    pose proof (Z.pow_pos_nonneg 2 (Zpos p) ltac:(lia) ltac:(lia)) as Hpow.
    rewrite Z.div_div by lia. f_equal.
    change (Zpos p~0) with (2 * Zpos p). rewrite Z.pow_twice_r. reflexivity.
  - rewrite shr_1_m by assumption. reflexivity.
Qed.

Section BinaryFormat.
Variable prec emax : Z.
Hypothesis prec_pos : 0 < prec.

(** After the shift to the exponent of the format the mantissa has at most
    [prec] digits. *)
Lemma shr_fexp_lt m e l :
  0 <= m -> 0 <= shr_m (fst (shr_fexp prec emax m e l)) < 2 ^ prec.
Proof.
  intros Hm. unfold shr_fexp, shr.
  assert (Hrec : shr_m (shr_record_of_loc m l) = m)
    by (destruct l as [|[]]; reflexivity).
  pose proof (Zdigits2_lt m Hm) as Hd. pose proof (Zdigits2_nonneg m) as Hd0.
  assert (Hf : Zdigits2 m + e - prec <= fexp prec emax (Zdigits2 m + e))
    by (unfold fexp; lia).
  destruct (fexp prec emax (Zdigits2 m + e) - e) as [|n|n] eqn:Hn; cbn [fst].
  - rewrite Hrec. split; [assumption|].
    pose proof (Z.pow_le_mono_r 2 (Zdigits2 m) prec ltac:(lia) ltac:(lia)). lia.
  - rewrite iter_shr_1_m by (rewrite Hrec; assumption). rewrite Hrec.
    pose proof (Z.pow_pos_nonneg 2 (Zpos n) ltac:(lia) ltac:(lia)) as Hpow.
    split; [apply Z.div_pos; lia|].
    apply Z.div_lt_upper_bound; [lia|].
    rewrite <- Z.pow_add_r by lia.
    pose proof (Z.pow_le_mono_r 2 (Zdigits2 m) (Zpos n + prec) ltac:(lia) ltac:(lia)). lia.
  - rewrite Hrec. split; [assumption|].
    pose proof (Z.pow_le_mono_r 2 (Zdigits2 m) prec ltac:(lia) ltac:(lia)). lia.
Qed.

Lemma round_nearest_even_nonneg m l : 0 <= m -> 0 <= round_nearest_even m l.
Proof.
  intros Hm. unfold round_nearest_even.
  destruct l as [|[]]; try lia. destruct (Z.even m); lia.
Qed.

(** Every finite float that rounding produces has a mantissa of at most
    [prec] digits. *)
Lemma binary_round_aux_digits s m e l s' m' e' :
  0 <= m ->
  binary_round_aux prec emax s m e l = S754_finite s' m' e' ->
  Zpos (digits2_pos m') <= prec.
Proof.
  intros Hm. unfold binary_round_aux.
  destruct (shr_fexp prec emax m e l) as [mrs1 e1] eqn:H1.
  pose proof (shr_fexp_lt m e l Hm) as B1. rewrite H1 in B1. cbn [fst] in B1.
  set (m1 := round_nearest_even (shr_m mrs1) (loc_of_shr_record mrs1)).
  assert (Hm1 : 0 <= m1) by (apply round_nearest_even_nonneg; lia).
  destruct (shr_fexp prec emax m1 e1 loc_Exact) as [mrs2 e2] eqn:H2.
  pose proof (shr_fexp_lt m1 e1 loc_Exact Hm1) as B2. rewrite H2 in B2. cbn [fst] in B2.
  destruct (shr_m mrs2) as [|p|p]; try discriminate.
  destruct (e2 <=? emax - prec); [|discriminate].
  intros H. injection H as _ <- _. apply digits2_pos_le. lia.
Qed.

Lemma SFmul_digits x y s m e :
  SFmul prec emax x y = S754_finite s m e -> Zpos (digits2_pos m) <= prec.
Proof.
  destruct x as [sx|sx| |sx mx ex], y as [sy|sy| |sy my ey]; try discriminate.
  cbn [SFmul]. apply binary_round_aux_digits. lia.
Qed.

(** ** The float of a small integer *)

Lemma iter_xO p k :
  Zpos (Pos.iter xO p k) = Zpos p * 2 ^ Zpos k
  /\ digits2_pos (Pos.iter xO p k) = (digits2_pos p + k)%positive.
Proof.
  induction k as [|k [IHv IHd]] using Pos.peano_ind.
  - cbn [Pos.iter]. split; [change (Zpos p~0) with (2 * Zpos p); lia|].
    cbn [digits2_pos]. rewrite Pos.add_1_r. reflexivity.
  - rewrite Pos.iter_succ. split.
    + change (Zpos (Pos.iter xO p k)~0) with (2 * Zpos (Pos.iter xO p k)).
      rewrite IHv, Pos2Z.inj_succ, Z.pow_succ_r by lia. lia.
    + cbn [digits2_pos]. rewrite IHd, Pos.add_succ_r. reflexivity.
Qed.

Lemma binary_round_aux_canonical s m e :
  fexp prec emax (Zpos (digits2_pos m) + e) = e -> e <= emax - prec ->
  binary_round_aux prec emax s (Zpos m) e loc_Exact = S754_finite s m e.
Proof.
  intros Hc He. unfold binary_round_aux, shr_fexp.
  cbn [Zdigits2 shr_record_of_loc]. rewrite Hc, Z.sub_diag. cbn [shr].
  cbn [shr_m loc_of_shr_record round_nearest_even Zdigits2 shr_record_of_loc].
  rewrite Hc, Z.sub_diag. cbn [shr shr_m].
  destruct (Z.leb_spec e (emax - prec)); [reflexivity|lia].
Qed.

Hypothesis emax_large : prec <= emax.
Hypothesis emax_pos : 2 <= emax.

(** An integer of at most [prec] digits is a float of the format, exactly. *)
Lemma binary_round_exact s p :
  Zpos (digits2_pos p) <= prec ->
  exists m e,
    binary_round prec emax s p 0 = S754_finite s m e
    /\ e <= 0 /\ Zpos m = Zpos p * 2 ^ (- e).
Proof.
  intros Hd. unfold binary_round, shl_align.
  rewrite Z.add_0_r.
  assert (Hf : fexp prec emax (Zpos (digits2_pos p)) = Zpos (digits2_pos p) - prec)
    by (unfold fexp, emin; lia).
  rewrite Hf, Z.sub_0_r.
  destruct (Zpos (digits2_pos p) - prec) as [|k|k] eqn:Hk; [| lia |].
  - exists p, 0. split; [|split; [lia|simpl; lia]].
    apply binary_round_aux_canonical; [|lia].
    rewrite Z.add_0_r, Hf. reflexivity.
  - destruct (iter_xO p k) as (Hv & Hdig).
    exists (Pos.iter xO p k), (Zneg k). split; [|split; [lia|exact Hv]].
    apply binary_round_aux_canonical; [|lia].
    rewrite Hdig, Pos2Z.inj_add.
    replace (Zpos (digits2_pos p) + Zpos k + Zneg k) with (Zpos (digits2_pos p)) by lia.
    rewrite Hf. reflexivity.
Qed.

End BinaryFormat.

(** ** What [rint] and [clip] compute *)

(** [r] is the float of sign [s] whose magnitude is the integer [N]. *)
Definition int_float (r : spec_float) (s : bool) (N : Z) : Prop :=
  match r with
  | S754_zero s' => s' = s /\ N = 0
  | S754_finite s' m e => s' = s /\ e <= 0 /\ Zpos m = N * 2 ^ (- e)
  | _ => False
  end.

(** [N] is the integer nearest to [m / d], the even one of the two when
    [m / d] lies half way. *)
Definition nearest_even (m d N : Z) : Prop :=
  2 * Z.abs (m - d * N) <= d
  /\ (2 * Z.abs (m - d * N) = d -> Z.even N = true).

(** [r] is [y] rounded to the nearest integer, ties to even: a float
    [m * 2^e] with [0 <= e] is an integer already, and so are the zeros;
    infinities and NaN are left as they are. *)
Definition rounded (y r : spec_float) : Prop :=
  match y with
  | S754_finite s m e =>
      if 0 <=? e then r = y
      else exists N, nearest_even (Zpos m) (2 ^ (- e)) N /\ int_float r s N
  | _ => r = y
  end.

(** [o] is [r] clipped to [lo, hi]: NaN stays, a value that is not above
    [lo] gives [lo], one that is not below [hi] gives [hi], and a value in
    between is kept. *)
Definition clipped (r lo hi o : spec_float) : Prop :=
  (is_nan r = true /\ o = r)
  \/ (is_nan r = false /\ SFltb lo r = false /\ o = lo)
  \/ (SFltb lo r = true /\ SFltb r hi = true /\ o = r)
  \/ (SFltb lo r = true /\ SFltb r hi = false /\ o = hi).

(** [o] is the code of the element [x]: the product [x * scale], as the
    format rounds it, rounded to the nearest integer and clipped. *)
Definition code_of (fmt : format) (quant_min quant_max : Z)
    (scale x o : spec_float) : Prop :=
  exists r,
    rounded (SFmul (prec fmt) (emax fmt) x scale) r
    /\ clipped r (of_Z fmt quant_min) (of_Z fmt quant_max) o.

Lemma round_half_even_bounds m d :
  0 < m -> 2 <= d -> 0 <= round_half_even m d <= m.
Proof.
  intros Hm Hd. unfold round_half_even.
  pose proof (Z.div_mod m d ltac:(lia)) as E.
  pose proof (Z.mod_pos_bound m d ltac:(lia)) as B.
  assert (Hq : 0 <= m / d) by (apply Z.div_pos; lia).
  destruct (Z.compare_spec (2 * (m mod d)) d) as [Hc|Hc|Hc];
    [destruct (Z.even (m / d))| |]; nia.
Qed.

Lemma format_bounds fmt : 0 < prec fmt /\ prec fmt <= emax fmt /\ 2 <= emax fmt.
Proof. destruct fmt; cbn; lia. Qed.

(** [rint] on a float of the format gives the nearest integer. *)
Lemma rint_rounded fmt y :
  (forall s m e, y = S754_finite s m e -> Zpos (digits2_pos m) <= prec fmt) ->
  rounded y (rint fmt y).
Proof.
  intros Hy. destruct y as [s|s| |s m e]; try reflexivity.
  cbn [rounded rint]. destruct (Z.leb_spec 0 e) as [He|He]; [reflexivity|].
  destruct (format_bounds fmt) as (Hp & Hpe & He2).
  assert (Hd : 2 <= 2 ^ (- e)).
  { pose proof (Z.pow_le_mono_r 2 1 (- e) ltac:(lia) ltac:(lia)). lia. }
  exists (round_half_even (Zpos m) (2 ^ (- e))).
  split; [apply round_half_even_nearest; lia|].
  pose proof (round_half_even_bounds (Zpos m) (2 ^ (- e)) ltac:(lia) Hd) as HN.
  destruct (round_half_even (Zpos m) (2 ^ (- e))) as [|p|p] eqn:EN; [| |lia].
  - split; reflexivity.
  - assert (Hdp : Zpos (digits2_pos p) <= prec fmt).
    { apply digits2_pos_le.
      pose proof (digits2_pos_lt m (prec fmt) (Hy s m e eq_refl)). lia. }
    destruct (binary_round_exact (prec fmt) (emax fmt) Hpe He2 s p Hdp)
      as (m' & e' & -> & He' & Hv).
    repeat split; assumption.
Qed.

Lemma clip_clipped v lo hi :
  is_nan lo = false -> SFltb lo hi = true -> clipped v lo hi (clip v lo hi).
Proof.
  intros Hlo Hlt. unfold clipped, clip, np_maximum, np_minimum.
  destruct (is_nan v) eqn:Hv; cbn [orb].
  - rewrite Hv. cbn [orb]. left. split; reflexivity.
  - right. destruct (SFltb lo v) eqn:E1.
    + rewrite Hv. cbn [orb]. right.
      destruct (SFltb v hi) eqn:E2; [left|right]; repeat split.
    + rewrite Hlo, Hlt. cbn [orb]. left. repeat split.
Qed.

(** Every code the function computes is the code of its element. *)
Lemma quantize_code_of fmt quant_min quant_max scale x :
  (quant_min, quant_max) = (-128, 127) \/ (quant_min, quant_max) = (0, 255) ->
  code_of fmt quant_min quant_max scale x (quantize fmt quant_min quant_max scale x).
Proof.
  intros Hq. exists (rint fmt (SFmul (prec fmt) (emax fmt) x scale)). split.
  - apply rint_rounded. intros s m e H.
    apply (SFmul_digits (prec fmt) (emax fmt) (proj1 (format_bounds fmt)) _ _ _ _ _ H).
  - unfold quantize. apply clip_clipped;
      destruct Hq as [Hq|Hq]; injection Hq as -> ->; destruct fmt; reflexivity.
Qed.

(** The array [[-2.0, 4.0]] of one batch. *)
Definition minus2_plus4 (fmt : format) : ndarray :=
  {| shape := [1; 2]%nat; dtype := "float32";
     data := [of_Z fmt (-2); of_Z fmt 4] |}.

(** The array [[-1.0, 3.0]] of one batch, whose scale 128/3 is not an
    integer. *)
Definition minus1_plus3 (fmt : format) : ndarray :=
  {| shape := [1; 2]%nat; dtype := "float32";
     data := [of_Z fmt (-1); of_Z fmt 3] |}.

Lemma Forall2_map_r {A B} (R : A -> B -> Prop) (f : A -> B) l :
  (forall x, R x (f x)) -> Forall2 R l (map f l).
Proof. intros H. induction l; simpl; constructor; auto. Qed.

(** C6 (as amended): for an array with a batch axis whose batch-0 slice
    holds no NaN, [tensor_quant_flatten]
    - takes the signed path when a value is negative: the sign flag is 1,
      the scale is 128 / max(|lo|, |hi|) for a least element lo and a
      greatest element hi of the slice, and the code of every element is
      its product with the scale, rounded to the nearest integer (ties to
      even) and clipped to [-128, 127];
    - takes the unsigned path when all values are at least 0: the flag is 0,
      the scale is 255 / hi, where hi bounds every |x|, and the codes are
      rounded in the same way and clipped to [0, 255];
    - turns [[-2.0, 4.0]] into the scale 32 and the codes -64 and 127, and
      [[-1.0, 3.0]] into the scale 128/3 and the codes -43 and 127. *)
Theorem C6_quantization_paths fmt input_tensor data_layout t0 :
  batch0 input_tensor = Returned t0 -> well_formed t0 -> no_nan (data t0) ->
  (Exists (fun x => is_negative x = true) (data t0) ->
   exists t lo hi codes,
     calibration_slice input_tensor data_layout = Returned t
     /\ (forall x, In x (data t) <-> In x (data t0))
     /\ is_least lo (data t0) /\ is_greatest hi (data t0)
     /\ let scale := SFdiv (prec fmt) (emax fmt) (of_Z fmt 128)
                       (py_max (SFabs lo) (SFabs hi)) in
        tensor_quant_flatten fmt input_tensor data_layout
        = Returned (codes, scale, 1)
        /\ Forall2 (code_of fmt (-128) 127 scale) (data t) codes
        /\ Forall (in_range fmt (-128) 127) codes)
  /\ (data t0 <> [] ->
      Forall (fun x => SFleb (S754_zero false) x = true) (data t0) ->
      exists t hi codes,
        calibration_slice input_tensor data_layout = Returned t
        /\ (forall x, In x (data t) <-> In x (data t0))
        /\ is_greatest hi (data t0)
        /\ (forall x, In x (data t0) -> SFleb (SFabs x) hi = true)
        /\ let scale := SFdiv (prec fmt) (emax fmt) (of_Z fmt 255) hi in
           tensor_quant_flatten fmt input_tensor data_layout
           = Returned (codes, scale, 0)
           /\ Forall2 (code_of fmt 0 255 scale) (data t) codes
           /\ Forall (in_range fmt 0 255) codes)
  /\ tensor_quant_flatten fmt (minus2_plus4 fmt) "NCHW"
     = Returned ([of_Z fmt (-64); of_Z fmt 127], of_Z fmt 32, 1)
  /\ tensor_quant_flatten fmt (minus1_plus3 fmt) "NCHW"
     = Returned ([of_Z fmt (-43); of_Z fmt 127],
                 SFdiv (prec fmt) (emax fmt) (of_Z fmt 128) (of_Z fmt 3), 1).
Proof.
  intros Hb Hwf Hnn. split; [|split; [|split]].
  - intros Hex.
    destruct (signed_path fmt input_tensor data_layout t0 Hb Hwf Hnn Hex)
      as (t & lo & hi & Ht & Hin & Hlo & Hhi & Hres & Hrange).
    exists t, lo, hi, (map (quantize fmt (-128) 127
                         (SFdiv (prec fmt) (emax fmt) (of_Z fmt 128)
                            (py_max (SFabs lo) (SFabs hi)))) (data t)).
    split; [exact Ht|]. split; [exact Hin|]. split; [exact Hlo|]. split; [exact Hhi|].
    cbv zeta. split; [exact Hres|]. split; [|exact Hrange].
    apply Forall2_map_r. intros x. apply quantize_code_of. left. reflexivity.
  - intros Hne Hpos.
    destruct (unsigned_path fmt input_tensor data_layout t0 Hb Hwf Hne Hpos)
      as (t & hi & Ht & Hin & Hhi & Habs & Hres & Hrange).
    exists t, hi, (map (quantize fmt 0 255
                          (SFdiv (prec fmt) (emax fmt) (of_Z fmt 255) hi)) (data t)).
    split; [exact Ht|]. split; [exact Hin|]. split; [exact Hhi|]. split; [exact Habs|].
    cbv zeta. split; [exact Hres|]. split; [|exact Hrange].
    apply Forall2_map_r. intros x. apply quantize_code_of. right. reflexivity.
  - destruct fmt; vm_compute; reflexivity.
  - destruct fmt; vm_compute; reflexivity.
Qed.

(** C10: when the batch-0 slice holds only zeros, the unsigned path divides
    255 by zero: the call returns the sign flag 0, a scale that is an
    infinity, and a buffer in which every code is NaN. *)
Theorem C10_all_zero_tensor fmt input_tensor data_layout t0 :
  batch0 input_tensor = Returned t0 -> well_formed t0 -> data t0 <> [] ->
  Forall (fun x => is_zero x = true) (data t0) ->
  exists out scale,
    tensor_quant_flatten fmt input_tensor data_layout = Returned (out, scale, 0)
    /\ is_infinity scale = true
    /\ List.length out = List.length (data t0)
    /\ Forall (fun o => is_nan o = true) out.
Proof.
  intros Hb Hwf Hne Hz.
  assert (Hz' : forall x, In x (data t0) -> is_zero x = true)
    by (apply Forall_forall; exact Hz).
  assert (Hpos : Forall (fun x => SFleb (S754_zero false) x = true) (data t0)).
  { apply Forall_forall. intros x Hx. apply Hz' in Hx. destruct x; try discriminate Hx.
    reflexivity. }
  destruct (unsigned_path fmt input_tensor data_layout t0 Hb Hwf Hne Hpos)
    as (t & hi & Ht & Hin & (Hhi_in & _) & _ & Hres & _).
  cbv zeta in Hres.
  destruct (calibration_slice_In input_tensor data_layout t0 Hb Hwf)
    as (t' & Ht' & Hlen & _).
  rewrite Ht in Ht'. injection Ht' as <-.
  assert (Hinf : is_infinity (SFdiv (prec fmt) (emax fmt) (of_Z fmt 255) hi) = true).
  { apply Hz' in Hhi_in. destruct hi as [s| | |]; try discriminate Hhi_in.
    destruct fmt; reflexivity. }
  eexists. eexists. split; [exact Hres|]. split; [exact Hinf|].
  split; [rewrite length_map; exact Hlen|].
  apply Forall_forall. intros o Ho. apply in_map_iff in Ho as (x & <- & Hx).
  apply Hin, Hz' in Hx. destruct x as [s| | |]; try discriminate Hx.
  destruct (SFdiv (prec fmt) (emax fmt) (of_Z fmt 255) hi); try discriminate Hinf.
  reflexivity.
Qed.

End QuantFacts.

(** C6 (as stated, refuted): the array [-2.0, 4.0] of one dimension has no
    batch axis; taking its batch-0 slice [input_tensor[0,:]] raises
    IndexError before anything is quantized, in either layout. *)
Lemma C6_counterexample :
  let flat := {| Np.shape := [2]%nat; Np.dtype := "float32";
                 Np.data := [Quant.of_Z Quant.binary32 (-2);
                             Quant.of_Z Quant.binary32 4] |} in
  Quant.tensor_quant_flatten Quant.binary32 flat "NCHW" = Py.Raised Py.IndexError
  /\ Quant.tensor_quant_flatten Quant.binary32 flat "NHWC" = Py.Raised Py.IndexError.
Proof. split; reflexivity. Qed.

(** Witness of C6 as amended: the signed path on [[-2.0, 4.0]]. *)
Lemma C6_witness :
  let t0 := {| Np.shape := [2]%nat; Np.dtype := "float32";
               Np.data := [Quant.of_Z Quant.binary32 (-2);
                           Quant.of_Z Quant.binary32 4] |} in
  exists t lo hi codes,
    calibration_slice (minus2_plus4 Quant.binary32) "NCHW" = Py.Returned t
    /\ (forall x, In x (Np.data t) <-> In x (Np.data t0))
    /\ is_least lo (Np.data t0) /\ is_greatest hi (Np.data t0)
    /\ let scale := SFdiv 24 128 (Quant.of_Z Quant.binary32 128)
                      (Quant.py_max (SFabs lo) (SFabs hi)) in
       Quant.tensor_quant_flatten Quant.binary32 (minus2_plus4 Quant.binary32) "NCHW"
       = Py.Returned (codes, scale, 1)
       /\ Forall2 (code_of Quant.binary32 (-128) 127 scale) (Np.data t) codes
       /\ Forall (in_range Quant.binary32 (-128) 127) codes.
Proof.
  cbv zeta.
  refine (proj1 (C6_quantization_paths Quant.binary32
                   (minus2_plus4 Quant.binary32) "NCHW" _ _ _ _) _).
  - reflexivity.
  - reflexivity.
  - repeat constructor.
  - constructor. reflexivity.
Defined.

(** Witness of C10: one batch of three zeros. *)
Lemma C10_witness :
  exists out scale,
    Quant.tensor_quant_flatten Quant.binary32 Samples.input_data "NCHW"
    = Py.Returned (out, scale, 0)
    /\ Quant.is_infinity scale = true
    /\ List.length out = 3%nat
    /\ Forall (fun o => Quant.is_nan o = true) out.
Proof.
  refine (C10_all_zero_tensor Quant.binary32 Samples.input_data "NCHW"
            {| Np.shape := [3]%nat; Np.dtype := "float32";
               Np.data := [S754_zero false; S754_zero false; S754_zero false] |}
            _ _ _ _).
  - reflexivity.
  - reflexivity.
  - discriminate.
  - repeat constructor.
Defined.

(** ** Adjacency: inputs and consumers of a node *)

Section AdjacencyFacts.
Import Py Relay Indexer.

Lemma bind_Returned_r {A} (r : result A) : Py.bind r Returned = r.
Proof. destruct r; reflexivity. Qed.

Lemma bind_assoc {A B C} (r : result A) (f : A -> result B) (g : B -> result C) :
  Py.bind (Py.bind r f) g = Py.bind r (fun a => Py.bind (f a) g).
Proof. destruct r; reflexivity. Qed.

Lemma bind_ext {A B} (r : result A) (f g : A -> result B) :
  (forall a, f a = g a) -> Py.bind r f = Py.bind r g.
Proof. intros H. destruct r; simpl; [apply H|reflexivity]. Qed.

(** The accumulator of the scan is a prefix of its result. *)
Lemma scan_in_nodes_acc rec all_nodes prefix l acc :
  scan_in_nodes rec all_nodes prefix l acc
  = Py.bind (scan_in_nodes rec all_nodes prefix l [])
      (fun r => Returned (acc ++ r)).
Proof.
  revert acc. induction l as [|node l IH]; intros acc.
  - simpl. rewrite app_nil_r. reflexivity.
  - assert (Hskip : scan_in_nodes rec all_nodes prefix l acc
                    = Py.bind (scan_in_nodes rec all_nodes prefix l [])
                        (fun r => Returned (acc ++ r))) by apply IH.
    assert (Hpush : forall w,
               scan_in_nodes rec all_nodes prefix l (acc ++ w)
               = Py.bind (scan_in_nodes rec all_nodes prefix l ([] ++ w))
                   (fun r => Returned (acc ++ r))).
    { intros w. rewrite (IH (acc ++ w)), (IH ([] ++ w)). rewrite bind_assoc.
      apply bind_ext. intros r. simpl. rewrite <- app_assoc. reflexivity. }
    destruct node; cbn [scan_in_nodes]; try exact Hskip.
    + destruct (contains prefix name_hint && contains "_i" name_hint);
        [apply Hpush|exact Hskip].
    + rewrite bind_assoc. apply bind_ext. intros v. apply Hpush.
    + rewrite bind_assoc. apply bind_ext. intros v. apply Hpush.
    + rewrite bind_assoc. apply bind_ext. intros v. apply Hpush.
Qed.

Lemma scan_in_nodes_app rec all_nodes prefix l1 l2 acc :
  scan_in_nodes rec all_nodes prefix (l1 ++ l2) acc
  = Py.bind (scan_in_nodes rec all_nodes prefix l1 acc)
      (fun r => scan_in_nodes rec all_nodes prefix l2 r).
Proof.
  revert acc. induction l1 as [|node l1 IH]; intros acc; [reflexivity|].
  destruct node; cbn [scan_in_nodes app]; try apply IH.
  - destruct (contains prefix name_hint && contains "_i" name_hint); apply IH.
  - rewrite bind_assoc. apply bind_ext. intros v. apply IH.
  - rewrite bind_assoc. apply bind_ext. intros v. apply IH.
  - rewrite bind_assoc. apply bind_ext. intros v. apply IH.
Qed.

(** X1: the inputs of a call with a Tuple among its arguments are the inputs
    found for the arguments before it, then the inputs of the Tuple itself
    (its fields, flattened recursively), then those of the arguments after
    it, in this order; the first exception met in this order is the one
    raised. *)
Theorem find_in_nodes_tuple_argument all_nodes prefix op before fields after :
  find_in_nodes all_nodes (Call op (before ++ Tuple fields :: after)) prefix
  = Py.bind (find_in_nodes all_nodes (Call op before) prefix) (fun r1 =>
    Py.bind (find_in_nodes all_nodes (Tuple fields) prefix) (fun r2 =>
    Py.bind (find_in_nodes all_nodes (Call op after) prefix) (fun r3 =>
    Returned (r1 ++ r2 ++ r3)))).
Proof.
  cbn [find_in_nodes]. rewrite scan_in_nodes_app. apply bind_ext. intros r1.
  cbn [scan_in_nodes]. cbn [find_in_nodes].
  apply bind_ext. intros r2.
  rewrite scan_in_nodes_acc. apply bind_ext. intros r3.
  rewrite app_assoc. reflexivity.
Qed.

End AdjacencyFacts.

Section ConsumerFacts.
Import Py Relay Indexer.

Lemma size_le_max_size d node : In node (keys d) -> (size node <= max_size d)%nat.
Proof.
  unfold max_size. induction (keys d) as [|k l IH]; simpl; [tauto|].
  intros [->|Hin]; [lia|]. specialize (IH Hin). lia.
Qed.

(** The index of a Call or of a Tuple of the dictionary. *)
Definition consumer_index (all_nodes : node_dict) (z : Z) : Prop :=
  exists node i, In (node, i) all_nodes /\ z = Z.of_nat i
                 /\ match node with Call _ _ | Tuple _ => True | _ => False end.

Lemma dict_item_key d node :
  In node (keys d) ->
  exists i, dict_item d node = Returned (Z.of_nat i) /\ In (node, i) d.
Proof.
  unfold dict_item. induction d as [|[k v] d IH]; simpl; [tauto|].
  destruct (expr_eq_dec k node) as [->|Hne].
  - intros _. exists v. split; [reflexivity|left; reflexivity].
  - intros [Hk|Hin]; [contradiction|].
    destruct (IH Hin) as (i & E & Hi). exists i. split; [exact E|right; exact Hi].
Qed.

Lemma scan_fields_returns all_nodes this_node fs tuple_node_outs fields acc :
  In (Tuple fs) (keys all_nodes) ->
  Forall (consumer_index all_nodes) acc ->
  (In this_node fields ->
   exists outs, tuple_node_outs = Returned outs
                /\ Forall (consumer_index all_nodes) outs) ->
  exists r, scan_fields all_nodes this_node (Tuple fs) tuple_node_outs fields acc
            = Returned r
            /\ Forall (consumer_index all_nodes) r.
Proof.
  intros Hnode. revert acc. induction fields as [|f fields IH]; intros acc Hacc Hrec.
  - eexists. split; [reflexivity|exact Hacc].
  - cbn [scan_fields]. destruct (expr_eq_dec this_node f) as [->|Hne].
    + destruct (Hrec (or_introl eq_refl)) as (outs & -> & Houts). cbn [Py.bind].
      destruct outs as [|o outs].
      * destruct (dict_item_key _ _ Hnode) as (i & -> & Hi). cbn [Py.bind].
        apply IH.
        -- apply Forall_app. split; [exact Hacc|]. constructor; [|constructor].
           exists (Tuple fs), i. repeat split; assumption.
        -- intros _. exists []. split; [reflexivity|constructor].
      * apply IH.
        -- apply Forall_app. split; assumption.
        -- intros _. eexists. split; [reflexivity|exact Houts].
    + apply IH; [exact Hacc|]. intros Hin. apply Hrec. right. exact Hin.
Qed.

Lemma find_out_nodes_fuel_returns fuel all_nodes this_node :
  (max_size all_nodes < size this_node + S fuel)%nat ->
  exists r, find_out_nodes_fuel (S fuel) all_nodes this_node = Returned r
            /\ Forall (consumer_index all_nodes) r.
Proof.
  revert this_node. induction fuel as [|fuel IH]; intros this_node Hfuel.
  - cbn [find_out_nodes_fuel].
    match goal with
    | |- exists r, ?F all_nodes [] = Returned r /\ _ =>
        enough (H : forall l acc,
                   (forall x, In x l -> In x all_nodes) ->
                   Forall (consumer_index all_nodes) acc ->
                   exists r, F l acc = Returned r
                             /\ Forall (consumer_index all_nodes) r)
          by (apply H; auto)
    end.
    induction l as [|[node idx] l IHl]; intros acc Hincl Hacc;
      [eexists; split; [reflexivity|exact Hacc]|].
    assert (Hpair : In (node, idx) all_nodes) by (apply Hincl; left; reflexivity).
    assert (Hnode : In node (keys all_nodes)) by (apply (in_map fst _ _ Hpair)).
    assert (Hl : forall x, In x l -> In x all_nodes)
      by (intros x Hx; apply Hincl; right; exact Hx).
    pose proof (size_le_max_size _ _ Hnode) as Hsz.
    destruct node; try (apply IHl; assumption).
    + destruct (node_in this_node args); apply IHl; try assumption.
      apply Forall_app. split; [exact Hacc|]. constructor; [|constructor].
      exists (Call node args), idx. repeat split; assumption.
    + destruct (scan_fields_returns all_nodes this_node fields
                  (Raised RecursionError) fields acc Hnode Hacc) as (r & Hr & Hq).
      { intros Hin. exfalso. apply size_in_list in Hin. simpl in Hsz. lia. }
      rewrite Hr. cbn [Py.bind]. apply IHl; assumption.
    + destruct (expr_eq_dec this_node node) as [->|Hne]; [|apply IHl; assumption].
      exfalso. simpl in Hsz. lia.
  - remember (S fuel) as fuel1 eqn:Hfuel1. cbn [find_out_nodes_fuel].
    match goal with
    | |- exists r, ?F all_nodes [] = Returned r /\ _ =>
        enough (H : forall l acc,
                   (forall x, In x l -> In x all_nodes) ->
                   Forall (consumer_index all_nodes) acc ->
                   exists r, F l acc = Returned r
                             /\ Forall (consumer_index all_nodes) r)
          by (apply H; auto)
    end.
    subst fuel1.
    induction l as [|[node idx] l IHl]; intros acc Hincl Hacc;
      [eexists; split; [reflexivity|exact Hacc]|].
    assert (Hpair : In (node, idx) all_nodes) by (apply Hincl; left; reflexivity).
    assert (Hnode : In node (keys all_nodes)) by (apply (in_map fst _ _ Hpair)).
    assert (Hl : forall x, In x l -> In x all_nodes)
      by (intros x Hx; apply Hincl; right; exact Hx).
    pose proof (size_le_max_size _ _ Hnode) as Hsz.
    destruct node; try (apply IHl; assumption).
    + destruct (node_in this_node args); apply IHl; try assumption.
      apply Forall_app. split; [exact Hacc|]. constructor; [|constructor].
      exists (Call node args), idx. repeat split; assumption.
    + destruct (scan_fields_returns all_nodes this_node fields
                  (find_out_nodes_fuel (S fuel) all_nodes (Tuple fields))
                  fields acc Hnode Hacc) as (r & Hr & Hq).
      { intros Hin. apply IH. apply size_in_list in Hin. simpl. lia. }
      rewrite Hr. cbn [Py.bind]. apply IHl; assumption.
    + destruct (expr_eq_dec this_node node) as [->|Hne]; [|apply IHl; assumption].
      destruct (IH (TupleGetItem node index)) as (r & Hr & Hq); [simpl; lia|].
      rewrite Hr. cbn [Py.bind]. apply IHl; try assumption.
      apply Forall_app. split; assumption.
Qed.

(** X2: [find_out_nodes] returns for every dictionary and every node: the
    recursion through Tuple and TupleGetItem consumers ends, the index of a
    consumer is always found, and every index it returns is the index of a
    Call or of a Tuple of the dictionary, never of a TupleGetItem. *)
Theorem find_out_nodes_returns_consumers all_nodes this_node :
  exists r, find_out_nodes all_nodes this_node = Returned r
            /\ Forall (consumer_index all_nodes) r.
Proof.
  unfold find_out_nodes. apply find_out_nodes_fuel_returns. lia.
Qed.

End ConsumerFacts.

(** ** Sink tuples: where the import stops *)

Section SinkFailureFacts.
Import Py Relay Indexer Eff Importer.

(** The status the library gives to the linking call of group [i], made
    after the calls of the groups before it and the out-data call of its
    own. *)
Definition status_at (link : list event -> InOutNodes -> Z) (h : list event)
    (ind : nat) (cs : list (list Z)) (i : nat) : Z :=
  link (h ++ sink_calls ind (firstn i cs)
          ++ [LibCall (tidlImportOutData (Z.of_nat (List.length (nth i cs [])))) ])
       (sink_link (ind + i) (nth i cs [])).

Lemma status_at_0 link h ind c cs :
  status_at link h ind (c :: cs) 0
  = link (h ++ [LibCall (tidlImportOutData (Z.of_nat (List.length c)))])
         (sink_link ind c).
Proof. unfold status_at. rewrite Nat.add_0_r. reflexivity. Qed.

Lemma status_at_S link h ind c cs i :
  status_at link h ind (c :: cs) (S i)
  = status_at link
      ((h ++ [LibCall (tidlImportOutData (Z.of_nat (List.length c)))])
         ++ [LibCall (tidlImportLinkNodes (sink_link ind c))])
      (S ind) cs i.
Proof.
  unfold status_at. rewrite firstn_cons. cbn [sink_calls nth].
  rewrite <- !app_assoc. cbn [app]. rewrite Nat.add_succ_r. reflexivity.
Qed.

(** The calls of the loop are those of the first [j] groups: all of them
    when it returns [True], and up to the first group whose linking call
    has status 0 when it returns [False]. *)
Definition stops_at_first_failure (link : list event -> InOutNodes -> Z)
    (h : list event) (ind : nat) (cs : list (list Z)) (b : bool) (j : nat)
  : Prop :=
  if b then
    j = List.length cs
    /\ forall i, (i < j)%nat -> status_at link h ind cs i <> 0
  else
    (1 <= j <= List.length cs)%nat
    /\ status_at link h ind cs (j - 1) = 0
    /\ forall i, (i < j - 1)%nat -> status_at link h ind cs i <> 0.

Lemma stops_cons link h ind c cs b j :
  status_at link h ind (c :: cs) 0 <> 0 ->
  stops_at_first_failure link
    ((h ++ [LibCall (tidlImportOutData (Z.of_nat (List.length c)))])
       ++ [LibCall (tidlImportLinkNodes (sink_link ind c))])
    (S ind) cs b j ->
  stops_at_first_failure link h ind (c :: cs) b (S j).
Proof.
  intros H0. unfold stops_at_first_failure. destruct b.
  - intros (-> & Hall). split; [reflexivity|].
    intros [|i] Hi; [exact H0|]. rewrite status_at_S. apply Hall. lia.
  - intros (Hj & Hz & Hall). split; [simpl; lia|].
    destruct j as [|j]; [lia|]. cbn [Nat.sub] in *. rewrite Nat.sub_0_r in *.
    split; [rewrite status_at_S; exact Hz|].
    intros [|i] Hi; [exact H0|]. rewrite status_at_S. apply Hall. lia.
Qed.

Lemma out_data_loop_prefix (link : list event -> InOutNodes -> Z) in_nodes k ind h :
  exists b j,
    out_data_loop link in_nodes k ind h
    = (Returned b, h ++ sink_calls ind (firstn j (chunks16 (skipn k in_nodes))))
    /\ stops_at_first_failure link h ind (chunks16 (skipn k in_nodes)) b j.
Proof.
  funelim (out_data_loop link in_nodes k ind h).
  - exists true, 0%nat. rewrite skipn_all2 by lia. rewrite chunks16_nil.
    simpl. rewrite app_nil_r. repeat split; try reflexivity; try lia.
  - clear Heqcall. apply Nat.ltb_lt in Heq. unfold MAX_NUM_OUTPUTS_PER_DATA_LAYER in Heq.
    assert (Hne : skipn imported_nodes in_nodes <> []).
    { intros E. apply (f_equal (@List.length Z)) in E. rewrite length_skipn in E.
      simpl in E. lia. }
    rewrite (chunks16_cons _ Hne).
    assert (Hlen : List.length (skipn imported_nodes in_nodes)
                   = (List.length in_nodes - imported_nodes)%nat) by apply length_skipn.
    rewrite (firstn_all2 (n := 16)) by lia.
    rewrite (skipn_all2 (n := 16)) by lia.
    rewrite chunks16_nil.
    unfold bindM, import_out_data, bindM, emit, call_link.
    rewrite (firstn_all2 (n := (List.length in_nodes - imported_nodes)%nat)) by lia.
    rewrite <- Hlen.
    change {| this_node_idx := Z.of_nat new_node_ind;
              num_in_nodes := Z.of_nat (List.length (skipn imported_nodes in_nodes));
              num_out_nodes := 0;
              in_nodes_ptr := Some (skipn imported_nodes in_nodes);
              out_nodes_ptr := None |}
      with (sink_link new_node_ind (skipn imported_nodes in_nodes)).
    rewrite <- status_at_0 with (cs := []).
    set (cs := [skipn imported_nodes in_nodes]).
    destruct (Z.eqb_spec (status_at link h new_node_ind cs 0) 0) as [E|E].
    + exists false, 1%nat. unfold ret. subst cs. rewrite firstn_cons, firstn_O.
      cbn [sink_calls]. rewrite <- app_assoc. split; [reflexivity|].
      cbn [stops_at_first_failure List.length Nat.sub]. repeat split; try lia; try exact E.
    + exists true, 1%nat. unfold ret. subst cs. rewrite firstn_cons, firstn_O.
      cbn [sink_calls]. rewrite <- app_assoc. split; [reflexivity|].
      cbn [stops_at_first_failure List.length]. split; [reflexivity|].
      intros i Hi. replace i with 0%nat by lia. exact E.
  - clear Heqcall. injection H0 as <-.
    apply Nat.ltb_ge in Heq. unfold MAX_NUM_OUTPUTS_PER_DATA_LAYER in *.
    assert (Hne : skipn imported_nodes in_nodes <> []).
    { intros E'. apply (f_equal (@List.length Z)) in E'.
      rewrite length_skipn in E'. simpl in E'. lia. }
    rewrite (chunks16_cons _ Hne).
    assert (Hf : List.length (firstn 16 (skipn imported_nodes in_nodes)) = 16%nat).
    { rewrite length_firstn, length_skipn. lia. }
    match goal with
    | |- exists b j, (if (?s =? 0) then _ else _) = _ /\ _ =>
        assert (Hs : s = status_at link h new_node_ind
                           (firstn 16 (skipn imported_nodes in_nodes)
                              :: chunks16 (skipn 16 (skipn imported_nodes in_nodes))) 0)
          by (rewrite status_at_0; unfold sink_link; rewrite Hf; reflexivity);
        destruct (Z.eqb_spec s 0) as [E|E]
    end.
    + exists false, 1%nat. rewrite firstn_cons, firstn_O.
      cbn [sink_calls]. unfold sink_link. rewrite Hf. rewrite <- !app_assoc.
      split; [reflexivity|]. rewrite Hs in E.
      cbn [stops_at_first_failure List.length Nat.sub]. repeat split; try lia; try exact E.
    + destruct H as (b & j & Hres & Hstop).
      exists b, (S j). rewrite Hres. rewrite firstn_cons.
      cbn [sink_calls]. unfold sink_link. rewrite Hf.
      rewrite skipn_skipn in *.
      rewrite (Nat.add_comm 16 imported_nodes) in *.
      rewrite Nat.add_1_r in *. rewrite <- !app_assoc.
      split; [reflexivity|]. rewrite Hs in E.
      apply stops_cons; [exact E|]. unfold sink_link. rewrite Hf. exact Hstop.
  - discriminate.
Qed.

(** X3: a Tuple without consumers is imported by the out-data and linking
    calls of the first [j] groups of 16 inputs and by no other call; the
    function never raises there.  It returns [True] when every group was
    linked with a status other than 0, and [False] right after the first
    linking call of status 0, the groups after that one being left out. *)
Theorem sink_tuple_stops_at_first_failure target
    (link : list event -> InOutNodes -> Z) all_nodes fields in_nodes h :
  find_out_nodes all_nodes (Tuple fields) = Returned [] ->
  find_in_nodes all_nodes (Tuple fields) target = Returned in_nodes ->
  exists b j,
    tidl_import_tuple_node target link all_nodes (Tuple fields) h
    = (Returned b,
       h ++ sink_calls (List.length all_nodes + 1) (firstn j (chunks16 in_nodes)))
    /\ stops_at_first_failure link h (List.length all_nodes + 1)
         (chunks16 in_nodes) b j.
Proof.
  intros Hout Hin.
  unfold tidl_import_tuple_node, bindM, lift. rewrite Hout.
  cbn [List.length Nat.eqb]. rewrite Hin.
  exact (out_data_loop_prefix link in_nodes 0 _ h).
Qed.

End SinkFailureFacts.

(** Witness of X3: the sink tuple of 20 relu calls, with a library whose
    linking calls all have status 0. *)
Lemma sink_tuple_stops_at_first_failure_witness :
  let fields :=
    map (fun n => Relay.Call (Relay.Op "nn.relu")
                    [Relay.Var (Py.str_nat n) Samples.f32]) (seq 0 20) in
  let all_nodes := Indexer.index_nodes (Relay.Tuple fields) in
  let in_nodes := map (fun n => 2 * Z.of_nat n + 1) (seq 0 20) in
  exists b j,
    Importer.tidl_import_tuple_node "tidl" (fun _ _ => 0) all_nodes
      (Relay.Tuple fields) []
    = (Py.Returned b, [] ++ sink_calls 42 (firstn j (chunks16 in_nodes)))
    /\ stops_at_first_failure (fun _ _ => 0) [] 42 (chunks16 in_nodes) b j.
Proof.
  cbv zeta.
  refine (sink_tuple_stops_at_first_failure "tidl" (fun _ _ => 0) _ _ _ [] _ _).
  - vm_compute. reflexivity.
  - vm_compute. reflexivity.
Defined.

(** ** Calibration output: what a success tells *)

Section CalibrationFacts.
Import Py Calib.

(** A non-empty string of decimal digits. *)
Fixpoint digits_only (s : string) : bool :=
  match s with
  | EmptyString => true
  | String c s' => is_digit c && digits_only s'
  end.

Definition digit_run (s : string) : Prop := digits_only s = true /\ s <> EmptyString.

Lemma digit_val_nonneg c : is_digit c = true -> 0 <= digit_val c.
Proof.
  unfold is_digit, digit_val. intros H. apply andb_prop in H as [H _].
  apply Nat.leb_le in H. lia.
Qed.

Lemma is_digit_not_space c : is_digit c = true -> is_space c = false.
Proof.
  unfold is_digit, is_space. cbv zeta. intros H. apply andb_prop in H as [H1 H2].
  apply Nat.leb_le in H1, H2.
  destruct (Nat.leb_spec 9 (nat_of_ascii c)), (Nat.leb_spec (nat_of_ascii c) 13),
    (Nat.leb_spec 28 (nat_of_ascii c)), (Nat.leb_spec (nat_of_ascii c) 32);
    simpl; try reflexivity; exfalso; lia.
Qed.

Lemma int_digits_nonneg s acc b z :
  0 <= acc -> int_digits s acc b = Some z -> 0 <= z.
Proof.
  revert acc b. induction s as [|c s IH]; intros acc b Hacc; cbn [int_digits].
  - destruct b; [|discriminate]. intros H. injection H as <-. exact Hacc.
  - destruct (is_digit c) eqn:Hd.
    + apply IH. pose proof (digit_val_nonneg c Hd). lia.
    + destruct (Ascii.eqb c "_" && b); [apply IH; exact Hacc|discriminate].
Qed.

Lemma int_digits_run s acc b :
  digits_only s = true -> (s <> EmptyString \/ b = true) ->
  exists z, int_digits s acc b = Some z.
Proof.
  revert acc b. induction s as [|c s IH]; intros acc b Hd Hne; cbn [int_digits].
  - destruct Hne as [Hne| ->]; [congruence|eexists; reflexivity].
  - simpl in Hd. apply andb_prop in Hd as [Hc Hs]. rewrite Hc.
    apply IH; [exact Hs|right; reflexivity].
Qed.

Lemma lstrip_run s : digit_run s -> lstrip s = s.
Proof.
  intros [Hd Hne]. destruct s as [|c s]; [congruence|]. simpl in *.
  apply andb_prop in Hd as [Hc _]. rewrite (is_digit_not_space c Hc). reflexivity.
Qed.

Lemma rstrip_digits s : digits_only s = true -> rstrip s = s.
Proof.
  induction s as [|c s IH]; simpl; [reflexivity|]. intros Hd.
  apply andb_prop in Hd as [Hc Hs]. rewrite (IH Hs).
  destruct s; [rewrite (is_digit_not_space c Hc)|]; reflexivity.
Qed.

Lemma int_digit_run s :
  digit_run s -> exists z, int s = Returned z /\ 0 <= z.
Proof.
  intros Hrun. unfold int. rewrite (lstrip_run s Hrun).
  destruct Hrun as [Hd Hne]. rewrite (rstrip_digits s Hd).
  destruct (int_digits_run s 0 false Hd (or_introl Hne)) as (z & Hz).
  exists z. split; [|apply (int_digits_nonneg s 0 false z); [lia|exact Hz]].
  destruct s as [|c s']; [congruence|].
  simpl in Hd. apply andb_prop in Hd as [Hc _].
  destruct c as [[] [] [] [] [] [] [] []]; try discriminate Hc;
    rewrite Hz; reflexivity.
Qed.

Lemma digits_only_app s c :
  digits_only s = true -> is_digit c = true ->
  digits_only (s ++ String c EmptyString) = true.
Proof.
  induction s as [|a s IH]; simpl; intros Hs Hc.
  - rewrite Hc. reflexivity.
  - apply andb_prop in Hs as [Ha Hs]. rewrite Ha. simpl. apply IH; assumption.
Qed.

Lemma findall_digits_aux_runs s run :
  match run with Some r => digit_run r | None => True end ->
  Forall digit_run (findall_digits_aux s run).
Proof.
  revert run. induction s as [|c s IH]; intros run Hrun; simpl.
  - destruct run; constructor; [exact Hrun|constructor].
  - destruct (is_digit c) eqn:Hc.
    + apply IH. destruct run as [r|].
      * destruct Hrun as [Hd Hne]. split; [apply digits_only_app; assumption|].
        destruct r; discriminate.
      * split; [simpl; rewrite Hc; reflexivity|discriminate].
    + destruct run as [r|]; [constructor; [exact Hrun|]|]; apply IH; exact I.
Qed.

Lemma map_int_runs qs :
  Forall digit_run qs ->
  exists q, map_int qs = Returned q /\ Forall (fun z => 0 <= z) q
            /\ List.length q = List.length qs.
Proof.
  induction 1 as [|s qs Hs Hqs IH]; simpl.
  - exists []. repeat split. constructor.
  - destruct (int_digit_run s Hs) as (z & -> & Hz).
    destruct IH as (q & -> & Hq & Hlen). simpl.
    exists (z :: q). repeat split; [constructor; assumption|simpl; congruence].
Qed.

(** X4: when [subgraph_calibration] reports success, the tool ran, wrote
    nothing to stderr and neither "error" nor "ERROR" to stdout, stdout
    holds the marker phrase, and every returned scale is non-negative: the
    digit-sequence extraction never reads a minus sign. *)
Theorem calibration_success_conditions run q :
  subgraph_calibration run = Returned (true, Some q) ->
  Forall (fun z => 0 <= z) q
  /\ exists console_out error,
      run = Some (console_out, error)
      /\ error = ""
      /\ contains "error" console_out = false
      /\ contains "ERROR" console_out = false
      /\ rfind output_dataQ_token console_out <> None.
Proof.
  unfold subgraph_calibration. destruct run as [[console_out error]|]; [|discriminate].
  unfold parse_output.
  destruct (contains "error" console_out) eqn:He; [discriminate|].
  destruct (contains "ERROR" console_out) eqn:HE; [discriminate|].
  destruct (String.eqb_spec error "") as [->|Hne]; [|discriminate].
  cbn [negb andb].
  destruct (rfind output_dataQ_token console_out) as [ind|] eqn:Hr; [|discriminate].
  intros H.
  destruct (getitem (split1 output_dataQ_token console_out) 1) as [last_line|];
    cbn [Py.bind] in H; [|discriminate].
  destruct (getitem (split1 ". Output dataQ:" last_line) 0) as [head|];
    cbn [Py.bind] in H; [|discriminate].
  destruct (int head) as [num_outputs|]; cbn [Py.bind] in H; [|discriminate].
  destruct (getitem (split1 ". Output dataQ:" last_line) 1) as [out_quants|];
    cbn [Py.bind] in H; [|discriminate].
  destruct (getitem (split1 "End of output dataQ" out_quants) 0) as [quants|];
    cbn [Py.bind] in H; [|discriminate].
  destruct (map_int_runs (findall_digits quants)) as (outq & Hq & Hpos & _).
  { apply findall_digits_aux_runs. exact I. }
  rewrite Hq in H. cbn [Py.bind] in H.
  destruct (negb (num_outputs =? Z.of_nat (List.length outq))); [discriminate|].
  injection H as <-.
  split; [exact Hpos|].
  exists console_out, "". repeat split; try assumption. congruence.
Qed.

End CalibrationFacts.

(** Witness of X4: an output that declares two scales. *)
Lemma calibration_success_conditions_witness :
  Forall (fun z => 0 <= z) [100; 200]
  /\ exists console_out error,
      Some ("Number of output dataQ: 2. Output dataQ: 100, 200End of output dataQ",
            "")
      = Some (console_out, error)
      /\ error = ""
      /\ Py.contains "error" console_out = false
      /\ Py.contains "ERROR" console_out = false
      /\ Py.rfind Calib.output_dataQ_token console_out <> None.
Proof.
  apply calibration_success_conditions. vm_compute. reflexivity.
Defined.

(** ** Pruning by cost: which subgraphs the budget keeps *)

Section PruneBudgetFacts.
Import Py Relay Prune.

Lemma insert_by_perm {A} (key : A -> Z) x l :
  Permutation (insert_by key x l) (x :: l).
Proof.
  induction l as [|y l IH]; simpl; [reflexivity|].
  destruct (key x <=? key y); [reflexivity|].
  rewrite IH. apply perm_swap.
Qed.

Lemma sorted_by_perm {A} (key : A -> Z) l : Permutation (sorted_by key l) l.
Proof.
  induction l as [|x l IH]; simpl; [reflexivity|].
  rewrite insert_by_perm. constructor. exact IH.
Qed.

Definition by_key {A} (key : A -> Z) (a b : A) : Prop := key a <= key b.

Lemma insert_by_sorted {A} (key : A -> Z) x l :
  StronglySorted (by_key key) l -> StronglySorted (by_key key) (insert_by key x l).
Proof.
  induction 1 as [|y l Hs IH Hall]; simpl.
  - constructor; constructor.
  - destruct (Z.leb_spec (key x) (key y)) as [Hle|Hgt].
    + constructor; [constructor; assumption|].
      constructor; [exact Hle|].
      eapply Forall_impl; [|exact Hall]. unfold by_key. intros a Ha. lia.
    + constructor; [exact IH|].
      apply Forall_forall. intros a Ha.
      apply (Permutation_in _ (insert_by_perm key x l)) in Ha.
      destruct Ha as [<-|Ha]; [unfold by_key; lia|].
      exact (proj1 (Forall_forall _ _) Hall a Ha).
Qed.

Lemma sorted_by_sorted {A} (key : A -> Z) l :
  StronglySorted (by_key key) (sorted_by key l).
Proof.
  induction l as [|x l IH]; simpl; [constructor|].
  apply insert_by_sorted. exact IH.
Qed.

Lemma sorted_split {A} (key : A -> Z) l1 l2 :
  StronglySorted (by_key key) (l1 ++ l2) ->
  forall a b, In a l1 -> In b l2 -> key a <= key b.
Proof.
  induction l1 as [|x l1 IH]; simpl; intros Hs a b Ha Hb; [destruct Ha|].
  inversion Hs as [|? ? Hs' Hall]; subst.
  destruct Ha as [<-|Ha].
  - apply (proj1 (Forall_forall _ _) Hall b). apply in_or_app. right. exact Hb.
  - apply (IH Hs' a b Ha Hb).
Qed.

(** X5: with a budget K of at least 1, cost-based pruning selects for
    removal all but the min(K, n) costliest of the n tagged subgraphs: the
    tagged subgraphs split into the removed ones and min(K, n) kept ones,
    and no removed subgraph has more multiply-accumulates than a kept
    one. *)
Theorem prune_keeps_costliest macs m compiler K l :
  1 <= K ->
  collect_macs macs m compiler (get_global_vars m) = Returned l ->
  exists removed kept,
    Permutation l (removed ++ kept)
    /\ subgraphs_to_remove macs m compiler K = Returned (map fst removed)
    /\ Z.of_nat (List.length kept) = Z.min K (Z.of_nat (List.length l))
    /\ forall r k, In r removed -> In k kept -> snd r <= snd k.
Proof.
  intros HK Hl. unfold subgraphs_to_remove. rewrite Hl. cbn [Py.bind].
  set (s := sorted_by snd l).
  assert (Hlen : List.length s = List.length l)
    by (apply Permutation_length, sorted_by_perm).
  unfold slice_to.
  destruct (Z.ltb_spec (- K) 0) as [_|Hge]; [|lia].
  set (n := Z.to_nat (Z.max 0 (- K + Z.of_nat (List.length s)))).
  exists (firstn n s), (skipn n s). split; [|split; [reflexivity|split]].
  - rewrite firstn_skipn. symmetry. apply sorted_by_perm.
  - rewrite length_skipn, Hlen. subst n. rewrite Hlen. lia.
  - apply (sorted_split snd). rewrite firstn_skipn. apply sorted_by_sorted.
Qed.

(** X6: a negative budget K removes the min(-K, n) cheapest of the n
    tagged subgraphs, instead of keeping any fixed number of them. *)
Theorem prune_negative_budget macs m compiler K l :
  K < 0 ->
  collect_macs macs m compiler (get_global_vars m) = Returned l ->
  exists removed kept,
    Permutation l (removed ++ kept)
    /\ subgraphs_to_remove macs m compiler K = Returned (map fst removed)
    /\ Z.of_nat (List.length removed) = Z.min (- K) (Z.of_nat (List.length l))
    /\ forall r k, In r removed -> In k kept -> snd r <= snd k.
Proof.
  intros HK Hl. unfold subgraphs_to_remove. rewrite Hl. cbn [Py.bind].
  set (s := sorted_by snd l).
  assert (Hlen : List.length s = List.length l)
    by (apply Permutation_length, sorted_by_perm).
  unfold slice_to. destruct (Z.ltb_spec (- K) 0) as [Hlt|_]; [lia|].
  set (n := Z.to_nat (Z.min (- K) (Z.of_nat (List.length s)))).
  exists (firstn n s), (skipn n s). split; [|split; [reflexivity|split]].
  - rewrite firstn_skipn. symmetry. apply sorted_by_perm.
  - rewrite length_firstn, Hlen. subst n. rewrite Hlen. lia.
  - apply (sorted_split snd). rewrite firstn_skipn. apply sorted_by_sorted.
Qed.

End PruneBudgetFacts.

(** Three subgraphs of the accelerator, chained in [main]. *)
Definition three_subgraphs : Relay.IRModule :=
  [("main", Relay.Function [Samples.x]
              (Relay.Call (Relay.GlobalVar "tidl_2")
                 [Relay.Call (Relay.GlobalVar "tidl_1")
                    [Relay.Call (Relay.GlobalVar "tidl_0") [Samples.x]]]) None);
   ("tidl_0", Samples.relu_subgraph "tidl_0" "tidl");
   ("tidl_1", Samples.relu_subgraph "tidl_1" "tidl");
   ("tidl_2", Samples.relu_subgraph "tidl_2" "tidl")].

(** Multiply-accumulate counts for them: 10, 5 and 50. *)
Definition three_costs (f : Relay.expr) : Z :=
  match Relay.fn_attrs f with
  | Py.Returned (Some a) =>
      match Relay.assoc_get a "global_symbol" with
      | Some name =>
          if String.eqb name "tidl_0" then 10
          else if String.eqb name "tidl_1" then 5
          else 50
      | None => 0
      end
  | _ => 0
  end.

(** Witness of X5: of the three subgraphs costing 10, 5 and 50, a budget of
    2 removes the one costing 5. *)
Lemma prune_keeps_costliest_witness :
  Prune.subgraphs_to_remove three_costs three_subgraphs "tidl" 2
    = Py.Returned ["tidl_1"]
  /\ exists removed kept,
       Permutation [("tidl_0", 10); ("tidl_1", 5); ("tidl_2", 50)] (removed ++ kept)
       /\ Prune.subgraphs_to_remove three_costs three_subgraphs "tidl" 2
          = Py.Returned (map fst removed)
       /\ Z.of_nat (List.length kept) = Z.min 2 (Z.of_nat 3)
       /\ forall r k, In r removed -> In k kept -> snd r <= snd k.
Proof.
  split; [vm_compute; reflexivity|].
  apply (prune_keeps_costliest three_costs three_subgraphs "tidl" 2
           [("tidl_0", 10); ("tidl_1", 5); ("tidl_2", 50)]).
  - lia.
  - vm_compute. reflexivity.
Defined.

(** Witness of X6: of the same three subgraphs, a budget of -2 removes the
    two cheapest, costing 5 and 10, and leaves the one costing 50. *)
Lemma prune_negative_budget_witness :
  Prune.subgraphs_to_remove three_costs three_subgraphs "tidl" (-2)
    = Py.Returned ["tidl_1"; "tidl_0"]
  /\ exists removed kept,
       Permutation [("tidl_0", 10); ("tidl_1", 5); ("tidl_2", 50)] (removed ++ kept)
       /\ Prune.subgraphs_to_remove three_costs three_subgraphs "tidl" (-2)
          = Py.Returned (map fst removed)
       /\ Z.of_nat (List.length removed) = Z.min (- -2) (Z.of_nat 3)
       /\ forall r k, In r removed -> In k kept -> snd r <= snd k.
Proof.
  split; [vm_compute; reflexivity|].
  apply (prune_negative_budget three_costs three_subgraphs "tidl" (-2)
           [("tidl_0", 10); ("tidl_1", 5); ("tidl_2", 50)]).
  - lia.
  - vm_compute. reflexivity.
Defined.

(** ** Pruning: the numbering of the subgraphs that are kept *)

Section RenumberingFacts.
Import Py Relay Prune.

(** The name given to the subgraph copied when the counter stands at [c]. *)
Definition numbered (pc : string * nat) : string :=
  (fst pc ++ "_" ++ str_nat (snd pc))%string.

(** [added] are subgraphs numbered [from], [from + 1], ..., [to - 1], each
    number used once, in some order. *)
Definition numbered_from (from to : nat) (added : IRModule) : Prop :=
  (from <= to)%nat
  /\ exists prefixes,
       List.length prefixes = (to - from)%nat
       /\ Permutation (get_global_vars added)
            (map numbered (combine prefixes (seq from (to - from)))).

Lemma numbered_from_nil c : numbered_from c c [].
Proof.
  split; [lia|]. exists []. rewrite Nat.sub_diag. split; reflexivity.
Qed.

Lemma numbered_from_app a b c l1 l2 :
  numbered_from a b l1 -> numbered_from b c l2 -> numbered_from a c (l1 ++ l2).
Proof.
  intros (Hab & p1 & Hp1 & P1) (Hbc & p2 & Hp2 & P2).
  split; [lia|]. exists (p1 ++ p2). split; [rewrite length_app; lia|].
  unfold get_global_vars in *. rewrite map_app.
  replace (c - a)%nat with ((b - a) + (c - b))%nat by lia.
  rewrite seq_app. replace (a + (b - a))%nat with b by lia.
  assert (E : forall (x1 x2 : list string) (y1 y2 : list nat),
             List.length x1 = List.length y1 ->
             combine (x1 ++ x2) (y1 ++ y2) = combine x1 y1 ++ combine x2 y2).
  { induction x1 as [|x x1 IH]; intros x2 [|y y1] y2 H; simpl in *; try discriminate.
    - reflexivity.
    - f_equal. apply IH. lia. }
  rewrite E by (rewrite length_seq; exact Hp1).
  rewrite map_app. apply Permutation_app; assumption.
Qed.

(** A reserved number followed by the numbers used below it. *)
Lemma numbered_from_reserve c c' prefix l f :
  numbered_from (S c) c' l ->
  numbered_from c c' (l ++ [(numbered (prefix, c), f)]).
Proof.
  intros (Hle & p & Hp & P). split; [lia|].
  exists (prefix :: p). split; [simpl; lia|].
  unfold get_global_vars in *. rewrite map_app. simpl map at 2.
  replace (c' - c)%nat with (S (c' - S c)) by lia. simpl seq. simpl combine.
  simpl map. rewrite <- P. apply Permutation_sym, Permutation_cons_append.
Qed.

Lemma mod_add_app m name f m' :
  mod_add m name f = Returned m' -> m' = m ++ [(name, f)].
Proof.
  unfold mod_add. destruct (mod_get m name); [discriminate|].
  intros H. injection H as <-. reflexivity.
Qed.

(** What a visit adds to the module under construction. *)
Definition adds_numbered (names : list string) (m : IRModule) (e : expr) : Prop :=
  forall st r st',
    visit names m true e st = Returned (r, st') ->
    exists added, new_mod st' = new_mod st ++ added
                  /\ numbered_from (count st) (count st') added.

Lemma visit_args_adds names m l :
  (forall e, In e l -> adds_numbered names m e) ->
  forall st r st',
    visit_args (visit names m true) l st = Returned (r, st') ->
    exists added, new_mod st' = new_mod st ++ added
                  /\ numbered_from (count st) (count st') added.
Proof.
  induction l as [|x l IH]; intros Hl st r st' H; cbn [visit_args] in H.
  - injection H as <- <-. exists []. rewrite app_nil_r. split; [reflexivity|apply numbered_from_nil].
  - destruct (visit names m true x st) as [[x' st1]|] eqn:Hx; cbn [Py.bind] in H; [|discriminate].
    destruct (visit_args (visit names m true) l st1) as [[l' st2]|] eqn:Hrest;
      cbn [Py.bind] in H; [|discriminate].
    injection H as <- <-.
    destruct (Hl x (or_introl eq_refl) _ _ _ Hx) as (a1 & E1 & N1).
    destruct (IH (fun e He => Hl e (or_intror He)) _ _ _ Hrest) as (a2 & E2 & N2).
    exists (a1 ++ a2). split; [rewrite E2, E1, app_assoc; reflexivity|].
    apply (numbered_from_app _ _ _ _ _ N1 N2).
Qed.

Lemma visit_zip_adds names m args :
  (forall e, In e args -> adds_numbered names m e) ->
  forall params vm st r st',
    visit_zip (visit names m true) args params vm st = Returned (r, st') ->
    exists added, new_mod st' = new_mod st ++ added
                  /\ numbered_from (count st) (count st') added.
Proof.
  induction args as [|x l IH]; intros Hl params vm st r st' H; cbn [visit_zip] in H.
  - injection H as <- <-. exists []. rewrite app_nil_r. split; [reflexivity|apply numbered_from_nil].
  - destruct params as [|p params].
    + injection H as <- <-. exists []. rewrite app_nil_r.
      split; [reflexivity|apply numbered_from_nil].
    + destruct (visit names m true x st) as [[x' st1]|] eqn:Hx; cbn [Py.bind] in H; [|discriminate].
      destruct (Hl x (or_introl eq_refl) _ _ _ Hx) as (a1 & E1 & N1).
      destruct (IH (fun e He => Hl e (or_intror He)) _ _ _ _ _ H) as (a2 & E2 & N2).
      exists (a1 ++ a2). split; [rewrite E2, E1, app_assoc; reflexivity|].
      apply (numbered_from_app _ _ _ _ _ N1 N2).
Qed.

Lemma visit_adds names m e : adds_numbered names m e.
Proof.
  induction e as [e IH] using expr_size_ind.
  intros st r st' H.
  assert (Hnil : forall st0, exists added : IRModule,
             new_mod st0 = new_mod st0 ++ added
             /\ numbered_from (count st0) (count st0) added).
  { intros st0. exists []. rewrite app_nil_r. split; [reflexivity|apply numbered_from_nil]. }
  assert (Hmemo : forall (inner : result (expr * remover_state)),
             (forall r0 st0, inner = Returned (r0, st0) ->
                exists added, new_mod st0 = new_mod st ++ added
                              /\ numbered_from (count st) (count st0) added) ->
             ('(r, st') <- inner ;; Returned (r, memoise e r st'))%py = Returned (r, st') ->
             exists added, new_mod st' = new_mod st ++ added
                           /\ numbered_from (count st) (count st') added).
  { intros inner Hin Hb. destruct inner as [[r0 st0]|]; cbn [Py.bind] in Hb; [|discriminate].
    injection Hb as <- <-. apply (Hin _ _ eq_refl). }
  assert (Hargs : forall l, (forall c, In c l -> In c (children e)) ->
             forall st0 r0 st1,
               visit_args (visit names m true) l st0 = Returned (r0, st1) ->
               exists added, new_mod st1 = new_mod st0 ++ added
                             /\ numbered_from (count st0) (count st1) added).
  { intros l Hl. apply visit_args_adds. intros c Hc. apply IH, Hl, Hc. }
  destruct e as [nh t|c|g|o|op args|fields|tv i|params body a]; cbn [visit] in H;
    (destruct (var_map_get (memo_map st) _) as [hit|];
     [injection H as <- <-; apply Hnil|]);
    apply Hmemo in H; [exact H| |exact H| |exact H| |exact H| |exact H| |exact H| |exact H| |exact H|];
    clear H Hmemo; intros r0 st0 H.
  - injection H as <- <-. apply Hnil.
  - injection H as <- <-. apply Hnil.
  - injection H as <- <-. apply Hnil.
  - injection H as <- <-. apply Hnil.
  - (* Call *)
    assert (Hdefault :
              ('(new_fn, st1) <- visit names m true op st ;;
               '(new_args, st2) <- visit_args (visit names m true) args st1 ;;
               Returned (Call new_fn new_args, st2))%py = Returned (r0, st0) ->
              exists added, new_mod st0 = new_mod st ++ added
                            /\ numbered_from (count st) (count st0) added).
    { intros Hd.
      destruct (visit names m true op st) as [[fn' st1]|] eqn:Hop; cbn [Py.bind] in Hd; [|discriminate].
      destruct (visit_args (visit names m true) args st1) as [[args' st2]|] eqn:Hl;
        cbn [Py.bind] in Hd; [|discriminate].
      injection Hd as <- <-.
      apply (IH op (or_introl eq_refl)) in Hop as (a1 & E1 & N1).
      apply (Hargs args (fun c Hc => or_intror Hc)) in Hl as (a2 & E2 & N2).
      exists (a1 ++ a2). split; [rewrite E2, E1, app_assoc; reflexivity|].
      apply (numbered_from_app _ _ _ _ _ N1 N2). }
    destruct op as [| |name| | | | |]; try (apply Hdefault; exact H).
    destruct (name_in name names).
    + destruct (mod_item m name) as [func|]; cbn [Py.bind] in H; [|discriminate].
      destruct (fn_params func) as [params|]; cbn [Py.bind] in H; [|discriminate].
      destruct (visit_zip (visit names m true) args params [] st) as [[vm st1]|] eqn:Hz;
        cbn [Py.bind] in H; [|discriminate].
      destruct (fn_body func) as [body|]; cbn [Py.bind] in H; [|discriminate].
      injection H as <- <-.
      apply visit_zip_adds in Hz; [exact Hz|].
      intros c Hc. apply IH. right. exact Hc.
    + destruct (negb (name =? "main")%string); [|apply Hdefault; exact H].
      unfold copy_subgraph in H.
      destruct (getitem (split_char "_" name) 0) as [prefix|]; cbn [Py.bind] in H; [|discriminate].
      destruct (visit_args (visit names m true) args _) as [[args' st1]|] eqn:Hl;
        cbn [Py.bind] in H; [|discriminate].
      destruct (mod_item m name) as [func|]; cbn [Py.bind] in H; [|discriminate].
      destruct (VarRenamer _ func) as [f1|]; cbn [Py.bind] in H; [|discriminate].
      destruct (with_attr f1 _ _) as [f2|]; cbn [Py.bind] in H; [|discriminate].
      destruct (mod_add (new_mod st1) _ f2) as [nm|] eqn:Hadd; cbn [Py.bind] in H; [|discriminate].
      injection H as <- <-. cbn [count new_mod].
      apply mod_add_app in Hadd. subst nm.
      apply (Hargs args (fun c Hc => or_intror Hc)) in Hl as (a & E & N).
      cbn [count new_mod] in E, N.
      exists (a ++ [(numbered (prefix, count st), f2)]).
      split; [rewrite E, app_assoc; reflexivity|].
      apply numbered_from_reserve, N.
  - destruct (visit_args (visit names m true) fields st) as [[fields' st1]|] eqn:Hl;
      cbn [Py.bind] in H; [|discriminate].
    injection H as <- <-.
    apply (Hargs fields (fun c Hc => Hc)) in Hl. exact Hl.
  - destruct (visit names m true tv st) as [[t' st1]|] eqn:Ht; cbn [Py.bind] in H; [|discriminate].
    injection H as <- <-.
    apply (IH tv (or_introl eq_refl)) in Ht. exact Ht.
  - destruct (visit_args (visit names m true) params st) as [[params' st1]|] eqn:Hl;
      cbn [Py.bind] in H; [|discriminate].
    destruct (visit names m true body st1) as [[body' st2]|] eqn:Hb; cbn [Py.bind] in H; [|discriminate].
    injection H as <- <-.
    apply (Hargs params (fun c Hc => in_or_app _ _ _ (or_introl Hc))) in Hl as (a1 & E1 & N1).
    apply (IH body) in Hb as (a2 & E2 & N2); [|apply in_or_app; right; left; reflexivity].
    exists (a1 ++ a2). split; [rewrite E2, E1, app_assoc; reflexivity|].
    apply (numbered_from_app _ _ _ _ _ N1 N2).
Qed.

Lemma numbered_not_main pc : numbered pc <> "main".
Proof.
  destruct pc as [p c]. unfold numbered. cbn [fst snd].
  destruct p as [|a1 [|a2 [|a3 [|a4 [|a5 p]]]]]; cbn [String.append]; intros H;
    try discriminate H; injection H; intros; discriminate.
Qed.

Lemma mod_update_fresh m name f :
  ~ In name (get_global_vars m) -> mod_update m name f = m ++ [(name, f)].
Proof.
  induction m as [|[k g] m IH]; simpl; intros Hn; [reflexivity|].
  destruct (String.eqb_spec k name) as [->|Hne]; [tauto|].
  rewrite IH by tauto. reflexivity.
Qed.

(** X7: when pruning returns, the globals of the new module are the kept
    subgraphs followed by [main], and the kept subgraphs carry the numbers
    [0], [1], ..., one each with no gap, whatever numbers they carried before. *)
Theorem pruned_subgraphs_renumbered names m new_mod :
  remove_subgraphs names m = Returned new_mod ->
  exists prefixes subgraphs,
    get_global_vars new_mod = subgraphs ++ ["main"%string]
    /\ List.length prefixes = List.length subgraphs
    /\ Permutation subgraphs
         (map numbered (combine prefixes (seq 0 (List.length subgraphs)))).
Proof.
  unfold remove_subgraphs. intros H.
  destruct (mod_item m "main") as [main|]; cbn [Py.bind] in H; [|discriminate].
  destruct (visit names m true main _) as [[new_main st]|] eqn:Hv; cbn [Py.bind] in H; [|discriminate].
  injection H as <-.
  apply visit_adds in Hv as (added & E & Hle & prefixes & Hlen & P).
  cbn [count Prune.new_mod app] in E, Hle, Hlen, P. rewrite Nat.sub_0_r in Hlen, P.
  assert (Hk : List.length (get_global_vars added) = count st).
  { rewrite (Permutation_length P), length_map, length_combine, length_seq. lia. }
  exists prefixes, (get_global_vars added). rewrite Hk.
  split; [|split; [lia|exact P]].
  rewrite E, mod_update_fresh.
  - unfold get_global_vars. rewrite map_app. reflexivity.
  - intros Hin. apply (Permutation_in _ P) in Hin.
    apply in_map_iff in Hin as (pc & Hpc & _). exact (numbered_not_main _ Hpc).
Qed.

End RenumberingFacts.

(** Witness of X7: nothing is removed from the sample of two compilers, and
    its subgraphs [tidl_3] and [dnnl_5] come out as [tidl_1] and [dnnl_0]. *)
Lemma pruned_subgraphs_renumbered_witness :
  exists prefixes subgraphs,
    Relay.get_global_vars Samples.two_compilers_pruned = subgraphs ++ ["main"%string]
    /\ List.length prefixes = List.length subgraphs
    /\ Permutation subgraphs
         (map numbered (combine prefixes (seq 0 (List.length subgraphs)))).
Proof.
  apply (pruned_subgraphs_renumbered [] Samples.two_compilers). vm_compute. reflexivity.
Defined.

(** ** Quantization: NaN, and the arrays that are refused *)

Section QuantEdgeFacts.
Import Py Np Quant.

Lemma np_minimum_nan a b :
  is_nan a = true \/ is_nan b = true -> is_nan (np_minimum a b) = true.
Proof.
  unfold np_minimum. destruct (is_nan a) eqn:Ha; cbn [orb]; [intros _; exact Ha|].
  intros [H|H]; [discriminate|].
  destruct b; try discriminate H. destruct a; reflexivity.
Qed.

Lemma fold_minimum_nan xs acc :
  is_nan acc = true \/ Exists (fun x => is_nan x = true) xs ->
  is_nan (fold_left np_minimum xs acc) = true.
Proof.
  revert acc. induction xs as [|x xs IH]; intros acc H; cbn [fold_left].
  - destruct H as [H|H]; [exact H|inversion H].
  - apply IH. destruct H as [H|H].
    + left. apply np_minimum_nan. left. exact H.
    + inversion H as [? ? Hx|? ? Hxs]; subst.
      * left. apply np_minimum_nan. right. exact Hx.
      * right. exact Hxs.
Qed.

Lemma quantize_nan fmt quant_min quant_max x :
  quantize fmt quant_min quant_max S754_nan x = S754_nan.
Proof.
  unfold quantize. replace (SFmul (prec fmt) (emax fmt) x S754_nan) with S754_nan
    by (destruct x; reflexivity).
  reflexivity.
Qed.

(** X8: a single NaN in the batch-0 slice spoils the whole calibration
    input: the signed path is taken, the scale is NaN and so is every code. *)
Theorem nan_spoils_quantization fmt input_tensor data_layout t0 :
  batch0 input_tensor = Returned t0 -> well_formed t0 ->
  Exists (fun x => is_nan x = true) (data t0) ->
  exists out,
    tensor_quant_flatten fmt input_tensor data_layout = Returned (out, S754_nan, 1)
    /\ List.length out = List.length (data t0)
    /\ Forall (fun o => o = S754_nan) out.
Proof.
  intros Hb Hwf Hex.
  destruct (calibration_slice_In input_tensor data_layout t0 Hb Hwf)
    as (t & Ht & Hlen & Hin).
  assert (Hex' : Exists (fun x => is_nan x = true) (data t)).
  { apply Exists_exists in Hex as (y & Hy & Hn). apply Exists_exists.
    exists y. split; [apply Hin; exact Hy|exact Hn]. }
  rewrite tensor_quant_flatten_slice, Ht. cbn [Py.bind].
  unfold amin, amax. destruct (data t) as [|x xs] eqn:Hd; [inversion Hex'|].
  cbn [Py.bind].
  assert (Hlo : is_nan (fold_left np_minimum xs x) = true).
  { apply fold_minimum_nan. inversion Hex'; subst; [left|right]; assumption. }
  destruct (fold_left np_minimum xs x); try discriminate Hlo.
  cbn [SFleb SFcompare SFabs]. unfold py_max. cbn [SFltb SFcompare].
  replace (SFdiv (prec fmt) (emax fmt) (of_Z fmt 128) S754_nan) with S754_nan
    by (destruct (of_Z fmt 128); reflexivity).
  cbv zeta. eexists. split; [reflexivity|]. split.
  - rewrite length_map. exact Hlen.
  - apply Forall_forall. intros o Ho. apply in_map_iff in Ho as (y & <- & _).
    apply quantize_nan.
Qed.

Lemma batch0_well_formed a t0 :
  well_formed a -> batch0 a = Returned t0 ->
  well_formed t0 /\ shape a = S (pred (hd 0%nat (shape a))) :: shape t0
  /\ (2 <= List.length (shape a))%nat.
Proof.
  unfold well_formed, batch0. destruct (shape a) as [|[|n] [|d rest]]; try discriminate.
  intros Hwf H. injection H as <-. cbn [data shape hd pred List.length].
  split; [|split; [reflexivity|lia]].
  rewrite length_firstn, Hwf. cbn [fold_right]. lia.
Qed.

(** X9: on an array whose data agree with its shape, [tensor_quant_flatten]
    raises IndexError when the array has fewer than two dimensions or no
    batch at all, raises ValueError when the batch-0 slice has no element,
    and in every other case returns one code per element of the slice with
    the sign flag 0 or 1. *)
Theorem tensor_quant_flatten_outcome fmt input_tensor data_layout :
  well_formed input_tensor ->
  match shape input_tensor with
  | S _ :: (_ :: _) as slice_shape =>
      if Nat.eqb (fold_right Nat.mul 1%nat slice_shape) 0 then
        tensor_quant_flatten fmt input_tensor data_layout = Raised ValueError
      else
        exists out scale sign,
          tensor_quant_flatten fmt input_tensor data_layout
          = Returned (out, scale, sign)
          /\ (sign = 0 \/ sign = 1)
          /\ List.length out = fold_right Nat.mul 1%nat slice_shape
  | _ => tensor_quant_flatten fmt input_tensor data_layout = Raised IndexError
  end.
Proof.
  intros Hwf.
  destruct (batch0 input_tensor) as [t0|e] eqn:Hb.
  - destruct (batch0_well_formed _ _ Hwf Hb) as (Hwf0 & Hs & _).
    rewrite Hs. destruct (shape t0) as [|d rest] eqn:Hs0.
    { exfalso. unfold batch0 in Hb.
      destruct (shape input_tensor) as [|[|n] [|d rest]]; discriminate. }
    destruct (calibration_slice_In input_tensor data_layout t0 Hb Hwf0)
      as (t & Ht & Hlen & Hin).
    rewrite tensor_quant_flatten_slice, Ht. cbn [Py.bind].
    unfold well_formed in Hwf0. rewrite Hs0 in Hwf0. rewrite <- Hwf0, <- Hlen.
    unfold amin, amax. destruct (data t) as [|x xs] eqn:Hd; [reflexivity|].
    cbn [List.length Nat.eqb Py.bind].
    destruct (SFleb (S754_zero false) (fold_left np_minimum xs x)); cbv zeta;
      eexists _, _, _; (split; [reflexivity|]);
      rewrite length_map; cbn [List.length]; split; auto.
  - unfold tensor_quant_flatten. rewrite Hb. cbn [Py.bind].
    unfold batch0 in Hb.
    destruct (shape input_tensor) as [|[|n] [|d rest]]; try discriminate;
      injection Hb as <-; reflexivity.
Qed.

End QuantEdgeFacts.

(** Witness of X8: one batch holding a NaN and a zero. *)
Lemma nan_spoils_quantization_witness :
  exists out,
    Quant.tensor_quant_flatten Quant.binary32
      {| Np.shape := [1; 2]%nat; Np.dtype := "float32";
         Np.data := [S754_nan; S754_zero false] |} "NCHW"
    = Py.Returned (out, S754_nan, 1)
    /\ List.length out = 2%nat
    /\ Forall (fun o => o = S754_nan) out.
Proof.
  refine (nan_spoils_quantization Quant.binary32 _ "NCHW"
            {| Np.shape := [2]%nat; Np.dtype := "float32";
               Np.data := [S754_nan; S754_zero false] |} _ _ _).
  - reflexivity.
  - reflexivity.
  - left. reflexivity.
Defined.

(** Witness of X9: the sample input of shape (1, 3). *)
Lemma tensor_quant_flatten_outcome_witness :
  exists out scale sign,
    Quant.tensor_quant_flatten Quant.binary32 Samples.input_data "NHWC"
    = Py.Returned (out, scale, sign)
    /\ (sign = 0 \/ sign = 1)
    /\ List.length out = 3%nat.
Proof.
  apply (tensor_quant_flatten_outcome Quant.binary32 Samples.input_data "NHWC").
  reflexivity.
Defined.

(** ** Orchestrator: what a returned status tells *)

Section EnableOutcomeFacts.
Import Py Relay Eff Compiler.

Variable RemoveUnusedFunctions : IRModule -> result IRModule.
Variable bind_params_by_name : expr -> params_t -> result expr.
Variable FoldConstant : IRModule -> result IRModule.
Variable merge_sequential_ops : IRModule -> result IRModule.
Variable AnnotateTarget : string -> IRModule -> result IRModule.
Variable MergeCompilerRegions : IRModule -> result IRModule.
Variable PartitionGraph : IRModule -> result IRModule.
Variable get_total_mac_number : expr -> Z.
Variable generate_subgraph_tensors :
  string -> IRModule -> params_t -> string -> Np.ndarray -> result tensors_t.
Variable path_exists : string -> bool.
Variable CDLL : string -> result unit.
Variable import_subgraph :
  string -> TIDLCompiler -> IRModule -> params_t -> tensors_t -> string -> M bool.

Let enable_ :=
  enable RemoveUnusedFunctions bind_params_by_name FoldConstant
    merge_sequential_ops AnnotateTarget MergeCompilerRegions PartitionGraph
    get_total_mac_number generate_subgraph_tensors path_exists CDLL
    import_subgraph.

Let partition_ :=
  partition RemoveUnusedFunctions bind_params_by_name FoldConstant
    merge_sequential_ops AnnotateTarget MergeCompilerRegions PartitionGraph
    get_total_mac_number.

(** Both tool files are on disk under the tools path that is set. *)
Definition tools_present (self : TIDLCompiler) : Prop :=
  exists tools,
    tidl_tools_path self = Some tools
    /\ path_exists (path_join tools "eve_test_dl_algo_ref.out") = true
    /\ path_exists (path_join tools "tidl_relayImport.so") = true.

(** X10: what the caller can conclude when [enable] returns a graph and a
    status.  The status is 1, -1 or 0.  With 1 the graph is the one the
    partitioning and pruning produced, the tools were present, and the last
    thing that happened is the closing of the library.  With -1 or 0 the
    graph is the original one: -1 comes either from two or more inputs,
    before anything has happened, or from an import that returned False,
    after which the library was closed; 0 comes with exactly one input and
    the tools absent, the graph execution being the last thing that
    happened. *)
Theorem enable_returns_original_unless_success
    self mod_orig params input h m status h' :
  enable_ self mod_orig params input h = (Returned (m, status), h') ->
  (status = status_success
   /\ List.length input = 1%nat /\ tools_present self
   /\ (exists h1, partition_ self mod_orig params h = (Returned m, h1))
   /\ exists h2, h' = h2 ++ [CloseLibrary])
  \/ (status = status_failure /\ m = mod_orig
      /\ ((2 <= List.length input)%nat /\ h' = h
          \/ List.length input = 1%nat /\ tools_present self
             /\ exists h2, h' = h2 ++ [CloseLibrary]))
  \/ (status = status_skipped /\ m = mod_orig
      /\ List.length input = 1%nat /\ tools_absent path_exists self
      /\ exists h1, h' = h1 ++ [ExecuteGraph]).
Proof.
  unfold enable_, enable.
  destruct (Nat.ltb_spec 1 (List.length input)) as [Hlt|Hle].
  { intros H. injection H as <- <- <-. right. left.
    repeat split. left. split; [lia|reflexivity]. }
  fold partition_. unfold bindM at 1.
  destruct (partition_ self mod_orig params h) as [[m1|e] h1] eqn:Hp; [|discriminate].
  destruct input as [|[node data] [|? ?]]; [|clear Hle|simpl in Hle; lia].
  { cbn. discriminate. }
  cbn [List.length Nat.sub nth_error of_option lift bindM].
  unfold step, bindM, emit, lift.
  destruct (generate_subgraph_tensors _ _ _ _ _) as [ts|e]; [|discriminate].
  destruct (tidl_tools_path self) as [tools|] eqn:Htools.
  - cbv zeta.
    destruct (path_exists (path_join tools "eve_test_dl_algo_ref.out")) eqn:Hc;
      [destruct (path_exists (path_join tools "tidl_relayImport.so")) eqn:Hl|];
      cbn [andb].
    + destruct (CDLL _) as [[]|e]; [|discriminate].
      destruct (Importer.ImportRelayIR _ _ _ _ _ _) as [[[|]|e] h2]; [| |discriminate];
        unfold ret; intros H; injection H as <- <- <-.
      * left. repeat split.
        -- exists tools. repeat split; assumption.
        -- exists h1. reflexivity.
        -- exists h2. reflexivity.
      * right. left. repeat split. right. repeat split.
        -- exists tools. repeat split; assumption.
        -- exists h2. reflexivity.
    + unfold ret. intros H. injection H as <- <- <-. right. right.
      repeat split.
      * unfold tools_absent. rewrite Htools, Hc, Hl. reflexivity.
      * exists h1. reflexivity.
    + unfold ret. intros H. injection H as <- <- <-. right. right.
      repeat split.
      * unfold tools_absent. rewrite Htools, Hc. reflexivity.
      * exists h1. reflexivity.
  - unfold ret. intros H. injection H as <- <- <-. right. right.
    repeat split.
    + unfold tools_absent. rewrite Htools. exact I.
    + exists h1. reflexivity.
Qed.

(** X11: called without any input tensor, [enable] still runs every pass of
    the partitioning, and only then fails: the name of the input was never
    bound, so the graph execution is never started. *)
Theorem enable_without_input self mod_orig params h :
  enable_ self mod_orig params [] h
  = match partition_ self mod_orig params h with
    | (Returned _, h1) => (Raised UnboundLocalError, h1)
    | (Raised e, h1) => (Raised e, h1)
    end.
Proof.
  unfold enable_, enable. cbn [List.length Nat.ltb Nat.leb]. fold partition_.
  unfold bindM at 1.
  destruct (partition_ self mod_orig params h) as [[m|e] h1]; reflexivity.
Qed.

End EnableOutcomeFacts.

(** Witness of X10: the sample with the tools present and an import body
    that succeeds. *)
Lemma enable_returns_original_unless_success_witness :
  let self := Samples.compiler (Some "/opt/tidl") in
  let h' := snd (Samples.enable_sample (fun _ => true) (Some "/opt/tidl")
                   Samples.one_subgraph Samples.no_subgraph Samples.one_input) in
  (1 = Compiler.status_success
   /\ List.length Samples.one_input = 1%nat
   /\ tools_present (fun _ => true) self
   /\ (exists h1, Samples.partition_sample (Some "/opt/tidl")
                    Samples.one_subgraph Samples.no_subgraph
                  = (Py.Returned Samples.one_subgraph_pruned, h1))
   /\ exists h2, h' = h2 ++ [Eff.CloseLibrary])
  \/ (1 = Compiler.status_failure /\ Samples.one_subgraph_pruned = Samples.no_subgraph
      /\ ((2 <= List.length Samples.one_input)%nat /\ h' = []
          \/ List.length Samples.one_input = 1%nat
             /\ tools_present (fun _ => true) self
             /\ exists h2, h' = h2 ++ [Eff.CloseLibrary]))
  \/ (1 = Compiler.status_skipped /\ Samples.one_subgraph_pruned = Samples.no_subgraph
      /\ List.length Samples.one_input = 1%nat
      /\ tools_absent (fun _ => true) self
      /\ exists h1, h' = h1 ++ [Eff.ExecuteGraph]).
Proof.
  cbv zeta. unfold Samples.partition_sample.
  apply (enable_returns_original_unless_success
           Samples.pass Samples.bind_params Samples.pass Samples.pass
           Samples.annotate Samples.pass
           (fun _ => Py.Returned Samples.one_subgraph) Samples.macs
           Samples.run_graph (fun _ => true) Samples.load Samples.import_ok
           (Samples.compiler (Some "/opt/tidl")) Samples.no_subgraph []
           Samples.one_input []).
  vm_compute. reflexivity.
Defined.

(** ** Adjacency over a complete dictionary *)

Section CompleteDictionaryFacts.
Import Py Relay Indexer.

(** The dictionary holds, with every node, the nodes it refers to (the
    operators apart, which are never indexed), and no node projects out of
    an operator. *)
Definition complete (all_nodes : node_dict) : Prop :=
  (forall node c, In node (keys all_nodes) -> In c (children node) ->
                  is_Op c = false -> In c (keys all_nodes))
  /\ (forall tuple_value index,
        In (TupleGetItem tuple_value index) (keys all_nodes) ->
        is_Op tuple_value = false).

(** An entry of an input list: the marker -1 of a subgraph input, or the
    index of a node of the dictionary. *)
Definition input_index (all_nodes : node_dict) (z : Z) : Prop :=
  z = -1 \/ exists node i, In (node, i) all_nodes /\ z = Z.of_nat i.

Lemma scan_in_nodes_returns rec all_nodes prefix l :
  complete all_nodes ->
  (forall a, In a l -> is_Op a = false -> In a (keys all_nodes)) ->
  (forall fields, In (Tuple fields) l ->
     exists r, rec (Tuple fields) = Returned r /\ Forall (input_index all_nodes) r) ->
  forall acc, Forall (input_index all_nodes) acc ->
  exists r, scan_in_nodes rec all_nodes prefix l acc = Returned r
            /\ Forall (input_index all_nodes) r.
Proof.
  intros (Hclosed & Hproj). induction l as [|a l IH]; intros Hkeys Hrec acc Hacc.
  - exists acc. split; [reflexivity|exact Hacc].
  - assert (IH' : forall acc', Forall (input_index all_nodes) acc' ->
               exists r, scan_in_nodes rec all_nodes prefix l acc' = Returned r
                         /\ Forall (input_index all_nodes) r).
    { apply IH.
      - intros b Hb. apply Hkeys. right. exact Hb.
      - intros fields Hf. apply Hrec. right. exact Hf. }
    assert (Hpush : forall node i, In (node, i) all_nodes ->
               Forall (input_index all_nodes) (acc ++ [Z.of_nat i])).
    { intros node i Hi. apply Forall_app. split; [exact Hacc|].
      constructor; [|constructor]. right. exists node, i. split; [exact Hi|reflexivity]. }
    destruct a as [nh t|c|g|o|op args|fields|tv i|params body a];
      cbn [scan_in_nodes]; try (apply IH'; exact Hacc).
    + destruct (contains prefix nh && contains "_i" nh); apply IH'; [|exact Hacc].
      apply Forall_app. split; [exact Hacc|]. constructor; [|constructor].
      left. reflexivity.
    + destruct (dict_item_key all_nodes (Call op args)) as (i & -> & Hi).
      { apply Hkeys; [left; reflexivity|reflexivity]. }
      cbn [Py.bind]. apply IH'. apply (Hpush _ _ Hi).
    + destruct (Hrec fields (or_introl eq_refl)) as (sub & -> & Hsub).
      cbn [Py.bind]. apply IH'. apply Forall_app. split; assumption.
    + assert (Hin : In (TupleGetItem tv i) (keys all_nodes))
        by (apply Hkeys; [left; reflexivity|reflexivity]).
      destruct (dict_item_key all_nodes tv) as (j & -> & Hj).
      { apply (Hclosed _ tv Hin); [left; reflexivity|]. apply (Hproj _ _ Hin). }
      cbn [Py.bind]. apply IH'. apply (Hpush _ _ Hj).
Qed.

Lemma find_in_nodes_returns all_nodes prefix this_node :
  complete all_nodes ->
  In this_node (keys all_nodes) ->
  match this_node with Call _ _ | Tuple _ => True | _ => False end ->
  exists r, find_in_nodes all_nodes this_node prefix = Returned r
            /\ Forall (input_index all_nodes) r.
Proof.
  intros Hc. induction this_node as [e IH] using expr_size_ind.
  intros Hin Hshape.
  assert (Hscan : forall l, (forall a, In a l -> In a (children e)) ->
            exists r, scan_in_nodes (fun n => find_in_nodes all_nodes n prefix)
                        all_nodes prefix l [] = Returned r
                      /\ Forall (input_index all_nodes) r).
  { intros l Hl. apply scan_in_nodes_returns; [exact Hc| | |constructor].
    - intros a Ha Hop. apply (proj1 Hc e a Hin (Hl a Ha) Hop).
    - intros fields Hf. apply IH; [apply Hl; exact Hf| |exact I].
      apply (proj1 Hc e _ Hin (Hl _ Hf)). reflexivity. }
  destruct e as [nh t|c|g|o|op args|fields|tv i|params body a]; try contradiction;
    cbn [find_in_nodes]; apply Hscan; intros a Ha; [right; exact Ha|exact Ha].
Qed.

(** X12: over a complete dictionary the record handed to the library is
    always built for a Call or a Tuple of the dictionary: no lookup fails.
    Its input list holds only the marker -1 and indices of nodes of the
    dictionary, its output list only indices of Calls and Tuples, the two
    counts are the lengths of the two lists, and an empty list is passed as
    the null pointer. *)
Theorem find_in_out_nodes_complete all_nodes this_node prefix :
  complete all_nodes ->
  In this_node (keys all_nodes) ->
  match this_node with Call _ _ | Tuple _ => True | _ => False end ->
  exists this_idx in_nodes out_nodes,
    find_in_out_nodes all_nodes this_node prefix
    = Returned {| this_node_idx := Z.of_nat this_idx;
                  num_in_nodes := Z.of_nat (List.length in_nodes);
                  num_out_nodes := Z.of_nat (List.length out_nodes);
                  in_nodes_ptr := list_or_null in_nodes;
                  out_nodes_ptr := list_or_null out_nodes |}
    /\ In (this_node, this_idx) all_nodes
    /\ Forall (input_index all_nodes) in_nodes
    /\ Forall (consumer_index all_nodes) out_nodes.
Proof.
  intros Hc Hin Hshape. unfold find_in_out_nodes.
  destruct (dict_item_key all_nodes this_node Hin) as (i & -> & Hi).
  destruct (find_in_nodes_returns all_nodes prefix this_node Hc Hin Hshape)
    as (ins & -> & Hins).
  unfold find_out_nodes.
  destruct (find_out_nodes_fuel_returns (max_size all_nodes) all_nodes this_node)
    as (outs & -> & Houts); [lia|].
  cbn [Py.bind]. exists i, ins, outs. repeat split; assumption.
Qed.

End CompleteDictionaryFacts.

(** Witness of X12: the dictionary of [relu(x)]. *)
Lemma find_in_out_nodes_complete_witness :
  let call := Relay.Call (Relay.Op "nn.relu") [Samples.x] in
  let all_nodes := [(Samples.x, 0%nat); (call, 1%nat)] in
  exists this_idx in_nodes out_nodes,
    Indexer.find_in_out_nodes all_nodes call "tidl"
    = Py.Returned
        {| Indexer.this_node_idx := Z.of_nat this_idx;
           Indexer.num_in_nodes := Z.of_nat (List.length in_nodes);
           Indexer.num_out_nodes := Z.of_nat (List.length out_nodes);
           Indexer.in_nodes_ptr := Indexer.list_or_null in_nodes;
           Indexer.out_nodes_ptr := Indexer.list_or_null out_nodes |}
    /\ In (call, this_idx) all_nodes
    /\ Forall (input_index all_nodes) in_nodes
    /\ Forall (consumer_index all_nodes) out_nodes.
Proof.
  cbv zeta. apply find_in_out_nodes_complete.
  - split.
    + intros node c [<-|[<-|[]]] Hc Hop; simpl in Hc.
      * destruct Hc.
      * destruct Hc as [<-|[<-|[]]]; [discriminate Hop|left; reflexivity].
    + intros tv i [H|[H|[]]]; discriminate H.
  - right. left. reflexivity.
  - exact I.
Defined.

(** ** Unpacking composites: which functions change *)

Section UnpackFacts.
Import Py Relay Prune.

Lemma mod_update_names m name f g :
  mod_get m name = Some g ->
  get_global_vars (mod_update m name f) = get_global_vars m.
Proof.
  induction m as [|[k h] m IH]; simpl; [discriminate|].
  destruct (String.eqb k name); [reflexivity|].
  intros H. simpl. f_equal. apply IH. exact H.
Qed.

Lemma mod_get_update m name f other :
  mod_get (mod_update m name f) other
  = if String.eqb name other then Some f else mod_get m other.
Proof.
  induction m as [|[k h] m IH]; simpl; [reflexivity|].
  destruct (String.eqb_spec k name) as [->|Hne]; simpl.
  - destruct (String.eqb_spec name other) as [->|Hno]; reflexivity.
  - destruct (String.eqb_spec k other) as [->|Hko]; [|exact IH].
    destruct (String.eqb_spec name other) as [->|Hno]; [contradiction|reflexivity].
Qed.

(** The fate of a global function [f] in the result [m']: replaced by its
    unpacked form when it carries the compiler's tag, kept otherwise. *)
Definition unpacked_if_tagged (compiler : string) (m' : IRModule)
    (name : string) (f : expr) : Prop :=
  exists tagged,
    is_tagged f compiler = Returned tagged
    /\ if tagged : bool
       then exists f', Unpacker f = Returned f' /\ mod_get m' name = Some f'
       else mod_get m' name = Some f.

Lemma unpack_globals_spec compiler names :
  NoDup names ->
  forall m m',
    unpack_globals m compiler names = Returned m' ->
    get_global_vars m' = get_global_vars m
    /\ forall name f, mod_get m name = Some f ->
         if in_dec string_dec name names
         then unpacked_if_tagged compiler m' name f
         else mod_get m' name = Some f.
Proof.
  induction names as [|name0 rest IH]; intros Hnd m m' H.
  - injection H as <-. split; [reflexivity|]. intros name f Hf. exact Hf.
  - inversion Hnd as [|? ? Hnotin Hnd']; subst.
    cbn [unpack_globals] in H. unfold mod_item in H.
    destruct (mod_get m name0) as [f0|] eqn:Hg0; cbn [of_option Py.bind] in H;
      [|discriminate].
    destruct (is_tagged f0 compiler) as [tagged0|] eqn:Ht0; cbn [Py.bind] in H;
      [|discriminate].
    destruct tagged0; cbn [negb] in H.
    + destruct (Unpacker f0) as [f0'|] eqn:Hu0; cbn [Py.bind] in H; [|discriminate].
      destruct (IH Hnd' _ _ H) as (Hnames & Hall).
      split; [rewrite Hnames; apply (mod_update_names _ _ _ _ Hg0)|].
      intros name f Hf.
      destruct (in_dec string_dec name (name0 :: rest)) as [Hin|Hnin].
      * destruct (string_dec name0 name) as [<-|Hne].
        -- rewrite Hg0 in Hf. injection Hf as <-.
           exists true. split; [exact Ht0|]. exists f0'. split; [exact Hu0|].
           specialize (Hall name0 f0').
           rewrite mod_get_update, String.eqb_refl in Hall.
           specialize (Hall eq_refl).
           destruct (in_dec string_dec name0 rest); [contradiction|exact Hall].
        -- specialize (Hall name f).
           rewrite mod_get_update in Hall.
           destruct (String.eqb_spec name0 name); [contradiction|].
           specialize (Hall Hf).
           destruct (in_dec string_dec name rest) as [|Hnr]; [exact Hall|].
           destruct Hin; [contradiction|contradiction].
      * specialize (Hall name f). rewrite mod_get_update in Hall.
        destruct (String.eqb_spec name0 name) as [->|Hne];
          [exfalso; apply Hnin; left; reflexivity|].
        specialize (Hall Hf).
        destruct (in_dec string_dec name rest) as [Hr|]; [|exact Hall].
        exfalso. apply Hnin. right. exact Hr.
    + destruct (IH Hnd' _ _ H) as (Hnames & Hall).
      split; [exact Hnames|].
      intros name f Hf. specialize (Hall name f Hf).
      destruct (in_dec string_dec name (name0 :: rest)) as [Hin|Hnin].
      * destruct (in_dec string_dec name rest) as [|Hnr]; [exact Hall|].
        destruct Hin as [<-|Hr]; [|contradiction].
        rewrite Hg0 in Hf. injection Hf as <-.
        exists false. split; [exact Ht0|exact Hall].
      * destruct (in_dec string_dec name rest) as [Hr|]; [|exact Hall].
        exfalso. apply Hnin. right. exact Hr.
Qed.

(** X13: when [UnpackComposites] returns, the module has the same global
    names in the same order, every function that carries the compiler's tag
    has been replaced by its unpacked form, and every other function,
    [main] included, is exactly what it was. *)
Theorem unpack_composites_frame m compiler m' :
  NoDup (get_global_vars m) ->
  UnpackComposites m compiler = Returned m' ->
  get_global_vars m' = get_global_vars m
  /\ forall name f, mod_get m name = Some f ->
       unpacked_if_tagged compiler m' name f.
Proof.
  intros Hnd H. destruct (unpack_globals_spec _ _ Hnd _ _ H) as (Hnames & Hall).
  split; [exact Hnames|]. intros name f Hf. specialize (Hall name f Hf).
  destruct (in_dec string_dec name (get_global_vars m)) as [|Hnin]; [exact Hall|].
  exfalso. apply Hnin. apply (mod_get_In _ _ _ Hf).
Qed.

End UnpackFacts.

(** Witness of X13: the sample of two compilers, whose subgraphs hold no
    composite. *)
Lemma unpack_composites_frame_witness :
  Relay.get_global_vars Samples.two_compilers
  = Relay.get_global_vars Samples.two_compilers
  /\ forall name f, Relay.mod_get Samples.two_compilers name = Some f ->
       unpacked_if_tagged "tidl" Samples.two_compilers name f.
Proof.
  apply unpack_composites_frame.
  - repeat constructor; simpl; intuition discriminate.
  - vm_compute. reflexivity.
Defined.

(** ** Renaming the variables of a subgraph *)

Section RenamerFacts.
Import Py Relay Prune.

(** The character occurs in the string. *)
Fixpoint has_char (c : ascii) (s : string) : bool :=
  match s with
  | EmptyString => false
  | String a s' => Ascii.eqb a c || has_char c s'
  end.

(** The names of the variables of an expression. *)
Fixpoint var_names (e : expr) : list string :=
  match e with
  | Var name_hint _ => [name_hint]
  | Call op args => var_names op ++ flat_map var_names args
  | Tuple fields => flat_map var_names fields
  | TupleGetItem t _ => var_names t
  | Function params body _ => flat_map var_names params ++ var_names body
  | _ => []
  end.

Lemma append_assoc (a b c : string) : ((a ++ b) ++ c = a ++ (b ++ c))%string.
Proof. induction a as [|x a IH]; simpl; [reflexivity|]. rewrite IH. reflexivity. Qed.

Lemma split_char_piece c p rest :
  has_char c p = false ->
  split_char c (p ++ String c rest) = p :: split_char c rest.
Proof.
  induction p as [|a p IH]; simpl.
  - intros _. rewrite Ascii.eqb_refl. reflexivity.
  - intros H. apply orb_false_iff in H as (Ha & Hp).
    rewrite Ha, (IH Hp). reflexivity.
Qed.

(** A variable named after the subgraph [prefix_number] is taken to belong
    to it. *)
Lemma subgraph_of_renamed prefix number slot :
  has_char "_" prefix = false -> has_char "_" number = false ->
  subgraph_of ((prefix ++ "_" ++ number) ++ "_" ++ slot) = (prefix ++ "_" ++ number)%string.
Proof.
  intros Hp Hn. unfold subgraph_of.
  rewrite append_assoc. cbn [String.append].
  rewrite (split_char_piece _ _ _ Hp), (split_char_piece _ _ _ Hn).
  reflexivity.
Qed.

Lemma map_result_fixed (f : expr -> result expr) l :
  (forall x, In x l -> f x = Returned x) -> map_result f l = Returned l.
Proof.
  induction l as [|x l IH]; intros H; cbn [map_result]; [reflexivity|].
  rewrite (H x (or_introl eq_refl)). cbn [Py.bind].
  rewrite IH by (intros y Hy; apply H; right; exact Hy). reflexivity.
Qed.

(** Nothing is renamed in a function whose variables belong to the
    subgraph already. *)
Lemma VarRenamer_fixed new e :
  Forall (fun n => subgraph_of n = new) (var_names e) ->
  VarRenamer new e = Returned e.
Proof.
  induction e as [e IH] using expr_size_ind. intros Hall.
  assert (Hl : forall l, (forall c, In c l -> In c (children e)) ->
             Forall (fun n => subgraph_of n = new) (flat_map var_names l) ->
             map_result (VarRenamer new) l = Returned l).
  { intros l Hl Hf. apply map_result_fixed. intros x Hx.
    apply IH; [apply Hl; exact Hx|].
    apply Forall_forall. intros n Hn.
    apply (proj1 (Forall_forall _ _) Hf). apply in_flat_map. exists x. split; assumption. }
  destruct e as [nh t|c|g|o|op args|fields|tv i|params body a];
    cbn [VarRenamer var_names] in *; try reflexivity.
  - unfold VarRenamer_visit_var. inversion Hall as [|? ? Hn _]; subst.
    rewrite String.eqb_refl. reflexivity.
  - apply Forall_app in Hall as (Hop & Hargs).
    rewrite (IH op (or_introl eq_refl) Hop). cbn [Py.bind].
    rewrite (Hl args (fun c Hc => or_intror Hc) Hargs). reflexivity.
  - rewrite (Hl fields (fun c Hc => Hc) Hall). reflexivity.
  - rewrite (IH tv (or_introl eq_refl) Hall). reflexivity.
  - apply Forall_app in Hall as (Hps & Hb).
    rewrite (Hl params (fun c Hc => in_or_app _ _ _ (or_introl Hc)) Hps). cbn [Py.bind].
    rewrite (IH body) by (try (apply in_or_app; right; left; reflexivity); exact Hb).
    reflexivity.
Qed.

Lemma map_result_Forall (f : expr -> result expr) (P : string -> Prop) l l' :
  (forall x x', In x l -> f x = Returned x' -> Forall P (var_names x')) ->
  map_result f l = Returned l' -> Forall P (flat_map var_names l').
Proof.
  revert l'. induction l as [|x l IH]; intros l' H Hm; cbn [map_result] in Hm.
  - injection Hm as <-. constructor.
  - destruct (f x) as [x'|] eqn:Hx; cbn [Py.bind] in Hm; [|discriminate].
    destruct (map_result f l) as [ys|] eqn:Hys; cbn [Py.bind] in Hm; [|discriminate].
    injection Hm as <-. cbn [flat_map]. apply Forall_app. split.
    + apply (H x x' (or_introl eq_refl) Hx).
    + apply IH; [|reflexivity]. intros y y' Hy. apply H. right. exact Hy.
Qed.

Lemma VarRenamer_names prefix number e e' :
  has_char "_" prefix = false -> has_char "_" number = false ->
  VarRenamer (prefix ++ "_" ++ number) e = Returned e' ->
  Forall (fun n => subgraph_of n = (prefix ++ "_" ++ number)%string) (var_names e').
Proof.
  intros Hp Hn. set (new := (prefix ++ "_" ++ number)%string).
  revert e'. induction e as [e IH] using expr_size_ind. intros e' H.
  assert (Hl : forall l l', (forall c, In c l -> In c (children e)) ->
             map_result (VarRenamer new) l = Returned l' ->
             Forall (fun n => subgraph_of n = new) (flat_map var_names l')).
  { intros l l' Hl. apply map_result_Forall. intros x x' Hx. apply IH, Hl, Hx. }
  destruct e as [nh t|c|g|o|op args|fields|tv i|params body a];
    cbn [VarRenamer] in H.
  - unfold VarRenamer_visit_var in H.
    destruct (String.eqb_spec (subgraph_of nh) new) as [E|E]; cbn [negb] in H.
    + injection H as <-. constructor; [exact E|constructor].
    + destruct (getitem (split_char "_" nh) 2) as [slot|]; cbn [Py.bind] in H;
        [|discriminate].
      injection H as <-. constructor; [|constructor].
      apply subgraph_of_renamed; assumption.
  - injection H as <-. constructor.
  - injection H as <-. constructor.
  - injection H as <-. constructor.
  - destruct (VarRenamer new op) as [op'|] eqn:Hop; cbn [Py.bind] in H; [|discriminate].
    destruct (map_result (VarRenamer new) args) as [args'|] eqn:Ha; cbn [Py.bind] in H;
      [|discriminate].
    injection H as <-. cbn [var_names]. apply Forall_app. split.
    + apply (IH op (or_introl eq_refl) _ Hop).
    + apply (Hl args args' (fun c Hc => or_intror Hc) Ha).
  - destruct (map_result (VarRenamer new) fields) as [fields'|] eqn:Hf;
      cbn [Py.bind] in H; [|discriminate].
    injection H as <-. cbn [var_names]. apply (Hl fields fields' (fun c Hc => Hc) Hf).
  - destruct (VarRenamer new tv) as [tv'|] eqn:Ht; cbn [Py.bind] in H; [|discriminate].
    injection H as <-. cbn [var_names]. apply (IH tv (or_introl eq_refl) _ Ht).
  - destruct (map_result (VarRenamer new) params) as [params'|] eqn:Hps;
      cbn [Py.bind] in H; [|discriminate].
    destruct (VarRenamer new body) as [body'|] eqn:Hb; cbn [Py.bind] in H; [|discriminate].
    injection H as <-. cbn [var_names]. apply Forall_app. split.
    + apply (Hl params params' (fun c Hc => in_or_app _ _ _ (or_introl Hc)) Hps).
    + apply (IH body) with (2 := Hb). apply in_or_app. right. left. reflexivity.
Qed.

Lemma VarRenamer_twice prefix number e e' :
  has_char "_" prefix = false -> has_char "_" number = false ->
  VarRenamer (prefix ++ "_" ++ number) e = Returned e' ->
  Forall (fun n => subgraph_of n = (prefix ++ "_" ++ number)%string) (var_names e')
  /\ VarRenamer (prefix ++ "_" ++ number) e' = Returned e'.
Proof.
  intros Hp Hn H. pose proof (VarRenamer_names _ _ _ _ Hp Hn H) as Hall.
  split; [exact Hall|]. apply VarRenamer_fixed. exact Hall.
Qed.

(** No piece of a split holds the separator. *)
Lemma split_char_pieces c s :
  Forall (fun piece => has_char c piece = false) (split_char c s).
Proof.
  induction s as [|a s IH]; cbn [split_char].
  - constructor; [reflexivity|constructor].
  - destruct (Ascii.eqb a c) eqn:Ha.
    + constructor; [reflexivity|exact IH].
    + destruct (split_char c s) as [|piece rest].
      * constructor; [simpl; rewrite Ha; reflexivity|constructor].
      * inversion IH as [|? ? Hpiece Hrest]; subst.
        constructor; [simpl; rewrite Ha; exact Hpiece|exact Hrest].
Qed.

Lemma digit_not_underscore n :
  Ascii.eqb (ascii_of_nat (48 + Nat.modulo n 10)) "_" = false.
Proof.
  pose proof (Nat.mod_upper_bound n 10 ltac:(lia)) as H.
  remember (Nat.modulo n 10) as k eqn:Hk. clear Hk.
  do 10 (destruct k as [|k]; [reflexivity|]). exfalso. lia.
Qed.

Lemma str_nat_aux_digits fuel n acc :
  has_char "_" acc = false -> has_char "_" (str_nat_aux fuel n acc) = false.
Proof.
  revert n acc. induction fuel as [|fuel IH]; intros n acc Hacc; cbn [str_nat_aux];
    [exact Hacc|].
  assert (Hd : has_char "_" (String (ascii_of_nat (48 + Nat.modulo n 10)) acc) = false).
  { cbn [has_char]. rewrite digit_not_underscore. exact Hacc. }
  cbv zeta. destruct (Nat.div n 10); [exact Hd|]. apply IH. exact Hd.
Qed.

(** X14: let the new name of a subgraph be built as [SubgraphRemover]
    builds it, from the first piece of the old name and the counter.  When
    [VarRenamer] returns, every variable of its result is named after the
    new subgraph (the first two pieces of its name spell the new name), and
    renaming the result once more changes nothing. *)
Theorem VarRenamer_idempotent name prefix count e e' :
  getitem (split_char "_" name) 0 = Returned prefix ->
  let new_name := (prefix ++ "_" ++ str_nat count)%string in
  VarRenamer new_name e = Returned e' ->
  Forall (fun n => subgraph_of n = new_name) (var_names e')
  /\ VarRenamer new_name e' = Returned e'.
Proof.
  intros Hprefix new_name H. apply (VarRenamer_twice prefix (str_nat count) e).
  - pose proof (split_char_pieces "_" name) as Hall.
    unfold getitem in Hprefix.
    destruct (split_char "_" name) as [|p rest]; [discriminate|].
    injection Hprefix as <-. inversion Hall; assumption.
  - apply str_nat_aux_digits. reflexivity.
  - exact H.
Qed.

End RenamerFacts.

(** Witness of X14: the variables of the subgraph [tidl_3] renamed for
    [tidl_0]. *)
Lemma VarRenamer_idempotent_witness :
  let e' :=
    Relay.Function [Relay.Var "tidl_0_i0" Samples.f32]
      (Relay.Call (Relay.Op "nn.relu") [Relay.Var "tidl_0_i0" Samples.f32])
      (Some [("Compiler", "tidl"); ("global_symbol", "tidl_3")]) in
  Forall (fun n => Prune.subgraph_of n = "tidl_0") (var_names e')
  /\ Prune.VarRenamer "tidl_0" e' = Py.Returned e'.
Proof.
  apply (VarRenamer_idempotent "tidl_3" "tidl" 0 (Samples.relu_subgraph "tidl_3" "tidl")).
  - reflexivity.
  - vm_compute. reflexivity.
Defined.

(** ** Import of the subgraphs: the first failure ends it *)

Section ImportLoopFacts.
Import Py Relay Eff Importer.
Context {params tensors : Type}.
Variable import_subgraph : IRModule -> params -> tensors -> string -> M bool.

Lemma import_all_app m p t names1 names2 h :
  import_all import_subgraph m p t (names1 ++ names2) h
  = bindM (import_all import_subgraph m p t names1)
      (fun ok => if ok : bool then import_all import_subgraph m p t names2
                 else ret false) h.
Proof.
  revert h. induction names1 as [|name names1 IH]; intros h; [reflexivity|].
  cbn [app import_all]. unfold bindM.
  destruct (import_subgraph m p t name h) as [[[|]|e] h1]; [|reflexivity|reflexivity].
  rewrite IH. reflexivity.
Qed.

(** X15: the subgraphs are imported in the order their names are met in
    [main], and the first one whose import returns False ends the whole
    import with False: what has happened is what the imports up to that
    one did, and no subgraph after it is looked at. *)
Theorem import_stops_at_first_failure target m p t names1 name names2 h h1 h2 :
  tidl_subgraphs target m = Returned (names1 ++ name :: names2) ->
  import_all import_subgraph m p t names1 h = (Returned true, h1) ->
  import_subgraph m p t name h1 = (Returned false, h2) ->
  ImportRelayIR target import_subgraph m p t h = (Returned false, h2).
Proof.
  intros Hnames Hbefore Hfail. unfold ImportRelayIR, bindM at 1, lift. rewrite Hnames.
  destruct (names1 ++ name :: names2) as [|n0 l] eqn:E;
    [destruct names1; discriminate E|].
  cbn [List.length Nat.eqb]. rewrite <- E.
  rewrite import_all_app. unfold bindM at 1. rewrite Hbefore.
  cbn [import_all]. unfold bindM. rewrite Hfail. reflexivity.
Qed.

End ImportLoopFacts.

(** Witness of X15: two calls of accelerator subgraphs, the import of the
    first one failing. *)
Lemma import_stops_at_first_failure_witness :
  let m :=
    [("main", Relay.Function [Samples.x]
                (Relay.Call (Relay.GlobalVar "tidl_1")
                   [Relay.Call (Relay.GlobalVar "tidl_0") [Samples.x]]) None);
     ("tidl_0", Samples.relu_subgraph "tidl_0" "tidl");
     ("tidl_1", Samples.relu_subgraph "tidl_1" "tidl")] in
  Importer.ImportRelayIR "tidl"
    (fun _ _ _ _ => Eff.ret false) m tt tt []
  = (Py.Returned false, []).
Proof.
  cbv zeta.
  apply (import_stops_at_first_failure _ "tidl" _ tt tt [] "tidl_1" ["tidl_0"] [] []).
  - vm_compute. reflexivity.
  - reflexivity.
  - reflexivity.
Defined.

(** ** Removing multiplications by one *)

Section MultiplyFacts.
Import Py Relay Prune.

(** Every call of the expression applies an operator other than
    [multiply]. *)
Fixpoint multiply_free (e : expr) : bool :=
  match e with
  | Call op args =>
      match op with
      | Op name => negb (String.eqb name "multiply")
      | _ => false
      end && forallb multiply_free args
  | Tuple fields => forallb multiply_free fields
  | TupleGetItem t _ => multiply_free t
  | Function params body _ => forallb multiply_free params && multiply_free body
  | _ => true
  end.

(** X16: the pass leaves a graph without [multiply] exactly as it is, when
    all its calls apply operators. *)
Theorem RemoveMultiplyByOne_frame e :
  multiply_free e = true -> RemoveMultiplyByOne e = Returned e.
Proof.
  induction e as [e IH] using expr_size_ind. intros Hfree.
  assert (Hl : forall l, (forall c, In c l -> In c (children e)) ->
             forallb multiply_free l = true ->
             map_result RemoveMultiplyByOne l = Returned l).
  { intros l Hl Hf. apply map_result_fixed. intros x Hx.
    apply IH; [apply Hl; exact Hx|].
    apply (proj1 (forallb_forall _ _) Hf x Hx). }
  destruct e as [nh t|c|g|o|op args|fields|tv i|params body a];
    cbn [RemoveMultiplyByOne multiply_free] in *; try reflexivity.
  - apply andb_true_iff in Hfree as (Hop & Hargs).
    destruct op as [| | |name| | | |]; try discriminate Hop.
    cbn [op_name Py.bind]. apply negb_true_iff in Hop. rewrite Hop.
    cbn [RemoveMultiplyByOne Py.bind].
    rewrite (Hl args (fun c Hc => or_intror Hc) Hargs). reflexivity.
  - rewrite (Hl fields (fun c Hc => Hc) Hfree). reflexivity.
  - rewrite (IH tv (or_introl eq_refl) Hfree). reflexivity.
  - apply andb_true_iff in Hfree as (Hps & Hb).
    rewrite (Hl params (fun c Hc => in_or_app _ _ _ (or_introl Hc)) Hps). cbn [Py.bind].
    rewrite (IH body) by (try (apply in_or_app; right; left; reflexivity); exact Hb).
    reflexivity.
Qed.

End MultiplyFacts.

(** Witness of X16: [main] of the sample without subgraphs. *)
Lemma RemoveMultiplyByOne_frame_witness :
  Prune.RemoveMultiplyByOne
    (Relay.Function [Samples.x] (Relay.Call (Relay.Op "nn.relu") [Samples.x]) None)
  = Py.Returned
      (Relay.Function [Samples.x] (Relay.Call (Relay.Op "nn.relu") [Samples.x]) None).
Proof.
  apply RemoveMultiplyByOne_frame. reflexivity.
Defined.

(** ** Calibration graph: names and outputs stay in step *)

Section CalibGraphFacts.
Import Py Relay CalibGraph.

(** The names given to the outputs one call of [add_new_outputs] adds:
    the fields of a Tuple are numbered, anything else is one output. *)
Definition named_outputs (call : string * expr * bool) : list (string * expr) :=
  let '(subgraph_name, e, was_input) := call in
  match e with
  | Tuple fields =>
      combine
        (map (fun i => (subgraph_name ++ (if was_input then "_" else "_o")
                          ++ str_nat i)%string)
           (seq 0 (List.length fields)))
        fields
  | _ => [(if was_input then subgraph_name else (subgraph_name ++ "_o0")%string, e)]
  end.

(** The state after a sequence of calls of [add_new_outputs]. *)
Definition after_calls (num_original_outputs : nat)
    (calls : list (string * expr * bool)) (st : outputs_state) : outputs_state :=
  fold_left (fun st call =>
               let '(subgraph_name, e, was_input) := call in
               add_new_outputs num_original_outputs subgraph_name e was_input st)
    calls st.

(** The state holds the outputs [named], keyed from [num] on. *)
Definition in_step (num : nat) (named : list (string * expr)) (st : outputs_state)
  : Prop :=
  additional_outputs st = map snd named
  /\ name_map st = combine (seq num (List.length named)) (map fst named).

Lemma int_dict_set_fresh {A} (d : int_dict A) k v :
  (forall k', In k' (map fst d) -> k' <> k) -> int_dict_set d k v = d ++ [(k, v)].
Proof.
  induction d as [|[k' v'] d IH]; simpl; intros H; [reflexivity|].
  destruct (Nat.eqb_spec k' k) as [->|Hne].
  - exfalso. apply (H k); [left; reflexivity|reflexivity].
  - rewrite IH; [reflexivity|]. intros k'' Hk. apply H. right. exact Hk.
Qed.

Lemma combine_snoc {A B} (l1 : list A) (l2 : list B) a b :
  List.length l1 = List.length l2 ->
  combine (l1 ++ [a]) (l2 ++ [b]) = combine l1 l2 ++ [(a, b)].
Proof.
  revert l2. induction l1 as [|x l1 IH]; intros [|y l2] H; simpl in *; try discriminate.
  - reflexivity.
  - rewrite IH by lia. reflexivity.
Qed.

Lemma add_output_in_step num named name out st :
  in_step num named st -> in_step num (named ++ [(name, out)]) (add_output num name out st).
Proof.
  intros (Hout & Hmap). unfold in_step, add_output. cbn [additional_outputs name_map].
  rewrite Hout, Hmap, !map_app, length_app, !length_map. cbn [map List.length fst snd].
  split; [reflexivity|].
  rewrite Nat.add_1_r, seq_S, combine_snoc by (rewrite length_seq, length_map; reflexivity).
  apply int_dict_set_fresh. intros k' Hk Heq.
  apply in_map_iff in Hk as ([k0 v0] & Hk0 & Hin). cbn [fst] in Hk0. subst k0.
  apply in_combine_l, in_seq in Hin. lia.
Qed.

Lemma add_fields_in_step num (subgraph_name : string) (was_input : bool) fields :
  forall i named st,
    in_step num named st ->
    in_step num
      (named ++ combine
                  (map (fun i => (subgraph_name ++ (if was_input then "_" else "_o")
                                    ++ str_nat i)%string)
                     (seq i (List.length fields)))
                  fields)
      (add_fields num subgraph_name was_input i fields st).
Proof.
  induction fields as [|out rest IH]; intros i named st H; cbn [add_fields].
  - cbn [List.length seq map combine]. rewrite app_nil_r. exact H.
  - cbn [List.length seq map combine].
    change (?a :: ?l) with ([a] ++ l) at 1.
    rewrite app_assoc. apply IH.
    destruct was_input; apply add_output_in_step; exact H.
Qed.

(** Calls made from a state that is in step leave it in step. *)
Lemma after_calls_in_step num calls :
  forall named st,
    in_step num named st ->
    in_step num (named ++ flat_map named_outputs calls) (after_calls num calls st).
Proof.
  unfold after_calls.
  induction calls as [|[[subgraph_name e] was_input] calls IH]; intros named st Hst.
  - cbn [flat_map fold_left]. rewrite app_nil_r. exact Hst.
  - cbn [flat_map fold_left]. rewrite app_assoc. apply IH.
    unfold add_new_outputs, named_outputs.
    destruct e; try (destruct was_input; apply add_output_in_step; exact Hst).
    apply add_fields_in_step. exact Hst.
Qed.

(** X17: whatever calls of [add_new_outputs] the visit makes, the name map
    and the list of additional outputs stay in step: the outputs are those
    of the calls in order, output number [k] is keyed
    [num_original_outputs + k], its position among the outputs of the
    calibration graph, no key is ever overwritten, and the name under the
    key is the name of that very output. *)
Theorem name_map_in_step num_original_outputs calls :
  in_step num_original_outputs (flat_map named_outputs calls)
    (after_calls num_original_outputs calls no_outputs).
Proof.
  apply (after_calls_in_step num_original_outputs calls [] no_outputs).
  split; reflexivity.
Qed.

Lemma str_dict_set_fresh {A} (d : str_dict A) k v :
  ~ In k (map fst d) -> str_dict_set d k v = d ++ [(k, v)].
Proof.
  induction d as [|[k' v'] d IH]; simpl; intros H; [reflexivity|].
  destruct (String.eqb_spec k' k) as [->|Hne]; [tauto|].
  rewrite IH by tauto. reflexivity.
Qed.

Lemma int_dict_get_combine num (names : list string) k :
  int_dict_get (combine (seq num (List.length names)) names) (num + k)
  = nth_error names k.
Proof.
  revert num k. induction names as [|n names IH]; intros num k; cbn [List.length seq combine].
  - destruct k; reflexivity.
  - cbn [int_dict_get]. destruct k as [|k].
    + rewrite Nat.add_0_r, Nat.eqb_refl. reflexivity.
    + destruct (Nat.eqb_spec num (num + S k)) as [E|_]; [lia|].
      replace (num + S k)%nat with (S num + k)%nat by lia. apply IH.
Qed.

Lemma int_dict_get_below num (names : list string) i :
  (i < num)%nat -> int_dict_get (combine (seq num (List.length names)) names) i = None.
Proof.
  revert num. induction names as [|n names IH]; intros num Hi; cbn [List.length seq combine];
    [reflexivity|].
  cbn [int_dict_get]. destruct (Nat.eqb_spec num i) as [E|_]; [lia|]. apply IH. lia.
Qed.

Lemma collect_originals {A} (names : list string) num (originals rest : list A) i acc :
  (i + List.length originals <= num)%nat ->
  collect_tensors (combine (seq num (List.length names)) names) (originals ++ rest) i acc
  = collect_tensors (combine (seq num (List.length names)) names) rest
      (i + List.length originals) acc.
Proof.
  revert i. induction originals as [|r originals IH]; intros i Hi; cbn [app List.length].
  - rewrite Nat.add_0_r. reflexivity.
  - cbn [collect_tensors]. cbn [List.length] in Hi.
    rewrite int_dict_get_below by lia. rewrite IH by lia. f_equal. lia.
Qed.

Lemma collect_extras {A} (all_names : list string) num (extras : list A) :
  forall k names acc,
    skipn k all_names = names ->
    List.length extras = List.length names ->
    NoDup (map fst acc ++ names) ->
    collect_tensors (combine (seq num (List.length all_names)) all_names) extras
      (num + k) acc
    = acc ++ combine names extras.
Proof.
  induction extras as [|r extras IH]; intros k names acc Hk Hlen Hnd.
  - destruct names; [|discriminate]. cbn [combine collect_tensors]. rewrite app_nil_r.
    reflexivity.
  - destruct names as [|n names]; [discriminate|]. cbn [collect_tensors].
    rewrite int_dict_get_combine.
    assert (Hnth : nth_error all_names k = Some n).
    { rewrite <- (firstn_skipn k all_names) at 1. rewrite Hk.
      assert (Hlk : List.length (firstn k all_names) = k).
      { rewrite length_firstn. apply Nat.min_l.
        apply (f_equal (@List.length string)) in Hk. rewrite length_skipn in Hk.
        simpl in Hk. lia. }
      rewrite nth_error_app2 by lia. rewrite Hlk, Nat.sub_diag. reflexivity. }
    rewrite Hnth.
    assert (Hfresh : ~ In n (map fst acc)).
    { apply NoDup_remove_2 in Hnd. intros Hin. apply Hnd. apply in_or_app. left. exact Hin. }
    rewrite (str_dict_set_fresh _ _ _ Hfresh).
    replace (S (num + k)) with (num + S k)%nat by lia.
    rewrite (IH (S k) names).
    + rewrite <- app_assoc. reflexivity.
    + replace (S k) with (1 + k)%nat by lia. rewrite <- skipn_skipn, Hk. reflexivity.
    + simpl in Hlen. lia.
    + rewrite map_app. cbn [map fst]. rewrite <- app_assoc. exact Hnd.
Qed.

(** X18: let the calibration graph return its original outputs followed by
    one tensor per additional output, and let the names given to the
    additional outputs be distinct.  Then the dictionary of captured
    tensors holds exactly the additional tensors, each under the name of
    its output, in order; no original output is captured. *)
Theorem captured_tensors_named {A} num_original_outputs calls
    (originals extras : list A) :
  let st := after_calls num_original_outputs calls no_outputs in
  let names := map fst (flat_map named_outputs calls) in
  List.length originals = num_original_outputs ->
  List.length extras = List.length (additional_outputs st) ->
  NoDup names ->
  collect_tensors (name_map st) (originals ++ extras) 0 [] = combine names extras.
Proof.
  intros st names Horig Hextras Hnd.
  destruct (after_calls_in_step num_original_outputs calls [] no_outputs)
    as (Hout & Hmap); [split; reflexivity|].
  cbn [app] in Hout, Hmap. fold st in Hout, Hmap. rewrite Hmap.
  rewrite <- (length_map fst (flat_map named_outputs calls)). fold names.
  rewrite collect_originals by (simpl; lia). cbn [Nat.add].
  rewrite Horig. rewrite <- (Nat.add_0_r num_original_outputs) at 2.
  rewrite (collect_extras names num_original_outputs extras 0 names []).
  - reflexivity.
  - reflexivity.
  - rewrite Hextras, Hout. unfold names. rewrite !length_map. reflexivity.
  - exact Hnd.
Qed.

End CalibGraphFacts.

(** Witness of X18: one subgraph with one input and one output. *)
Lemma captured_tensors_named_witness :
  let calls := [("tidl_0_i0", Samples.x, true);
                ("tidl_0", Relay.Call (Relay.Op "nn.relu") [Samples.x], false)] in
  CalibGraph.collect_tensors
    (CalibGraph.name_map (after_calls 1 calls CalibGraph.no_outputs))
    ([10] ++ [20; 30]) 0 []
  = combine (map fst (flat_map named_outputs calls)) [20; 30].
Proof.
  cbv zeta. apply captured_tensors_named.
  - reflexivity.
  - reflexivity.
  - repeat constructor; simpl; intuition discriminate.
Defined.

(** ** Import of one subgraph: its number and its input *)

Section SubgraphInputFacts.
Import Py Np SubgraphInput.

Lemma str_digit m :
  (m < 10)%nat ->
  is_digit (ascii_of_nat (48 + m)) = true
  /\ digit_val (ascii_of_nat (48 + m)) = Z.of_nat m.
Proof.
  intros H. do 10 (destruct m as [|m]; [split; reflexivity|]). exfalso. lia.
Qed.

(** Reading the digits [str_nat_aux] writes in front of [acc]. *)
Lemma int_digits_str_nat_aux fuel :
  forall n acc a b,
    (n < fuel)%nat ->
    exists k, int_digits (str_nat_aux fuel n acc) a b
              = int_digits acc (a * 10 ^ k + Z.of_nat n) true
              /\ 0 < k.
Proof.
  induction fuel as [|fuel IH]; intros n acc a b Hn; [lia|].
  cbn [str_nat_aux]. cbv zeta.
  pose proof (Nat.mod_upper_bound n 10 ltac:(lia)) as Hm.
  destruct (str_digit _ Hm) as (Hd & Hv).
  pose proof (Nat.div_mod_eq n 10) as Hdm.
  destruct (Nat.div n 10) as [|q] eqn:Hq.
  - exists 1. cbn [int_digits]. rewrite Hd, Hv. split; [|lia].
    f_equal. lia.
  - destruct (IH (S q) (String (ascii_of_nat (48 + Nat.modulo n 10)) acc) a b)
      as (k & Hk & Hpos).
    { assert (S q <= n / 2)%nat; [|lia].
      rewrite <- Hq. apply Nat.div_le_compat_l. lia. }
    exists (k + 1). rewrite Hk. cbn [int_digits]. rewrite Hd, Hv. split; [|lia].
    f_equal. rewrite Z.pow_add_r by lia. lia.
Qed.

Lemma str_nat_aux_digits_only fuel n acc :
  digits_only acc = true -> digits_only (str_nat_aux fuel n acc) = true.
Proof.
  revert n acc. induction fuel as [|fuel IH]; intros n acc Hacc; cbn [str_nat_aux];
    [exact Hacc|].
  pose proof (Nat.mod_upper_bound n 10 ltac:(lia)) as Hm.
  destruct (str_digit _ Hm) as (Hd & _).
  assert (H : digits_only (String (ascii_of_nat (48 + Nat.modulo n 10)) acc) = true)
    by (cbn [digits_only]; rewrite Hd; exact Hacc).
  cbv zeta. destruct (Nat.div n 10); [exact H|]. apply IH. exact H.
Qed.

Lemma str_nat_aux_nonempty fuel n acc :
  str_nat_aux (S fuel) n acc <> EmptyString.
Proof.
  revert n acc. induction fuel as [|fuel IH]; intros n acc.
  - cbn [str_nat_aux]. cbv zeta. destruct (Nat.div n 10); discriminate.
  - change (str_nat_aux (S (S fuel)) n acc)
      with (let d := ascii_of_nat (48 + Nat.modulo n 10) in
            match Nat.div n 10 with
            | O => String d acc
            | q => str_nat_aux (S fuel) q (String d acc)
            end).
    cbv zeta. destruct (Nat.div n 10); [discriminate|apply IH].
Qed.

Lemma str_nat_run n : digit_run (str_nat n).
Proof.
  split; [apply str_nat_aux_digits_only; reflexivity|apply str_nat_aux_nonempty].
Qed.

Lemma int_of_digit_run s :
  digit_run s -> int s = of_option ValueError (int_digits s 0 false).
Proof.
  intros Hrun. unfold int. rewrite (lstrip_run s Hrun).
  destruct Hrun as [Hd Hne]. rewrite (rstrip_digits s Hd).
  destruct s as [|c s']; [congruence|].
  simpl in Hd. apply andb_prop in Hd as [Hc _].
  destruct c as [[] [] [] [] [] [] [] []]; try discriminate Hc; reflexivity.
Qed.

(** [int(str(n))] gives [n] back. *)
Lemma int_str_nat n : int (str_nat n) = Returned (Z.of_nat n).
Proof.
  rewrite (int_of_digit_run _ (str_nat_run n)). unfold str_nat.
  destruct (int_digits_str_nat_aux (S n) n EmptyString 0 false ltac:(lia)) as (k & -> & _).
  cbn [int_digits of_option]. f_equal; lia.
Qed.

Lemma startswith_underscore target s :
  digits_only s = true -> startswith (target ++ "_") s = false.
Proof.
  revert s. induction target as [|a target IH]; intros s Hs.
  - destruct s as [|c s]; [reflexivity|]. cbn [String.append startswith].
    simpl in Hs. apply andb_prop in Hs as [Hc _].
    destruct (Ascii.eqb_spec "_" c) as [<-|]; [discriminate Hc|reflexivity].
  - destruct s as [|c s]; [reflexivity|]. cbn [String.append startswith].
    simpl in Hs. apply andb_prop in Hs as [_ Hs].
    rewrite (IH s Hs). apply andb_false_r.
Qed.

Lemma remove_aux_digits old s :
  (forall t, digits_only t = true -> startswith old t = false) ->
  digits_only s = true -> remove_aux old s 0 = s.
Proof.
  intros Hold. induction s as [|c s IH]; intros Hs; [reflexivity|].
  cbn [remove_aux]. rewrite (Hold _ Hs).
  simpl in Hs. apply andb_prop in Hs as [_ Hs]. rewrite (IH Hs). reflexivity.
Qed.

Lemma remove_aux_skip old p s :
  remove_aux old (p ++ s) (String.length p) = remove_aux old s 0.
Proof.
  induction p as [|a p IH]; [reflexivity|]. cbn [String.append String.length remove_aux].
  exact IH.
Qed.

Lemma startswith_app p s : startswith p (p ++ s) = true.
Proof.
  induction p as [|a p IH]; [reflexivity|]. cbn [String.append startswith].
  rewrite Ascii.eqb_refl. exact IH.
Qed.

Lemma remove_prefix target s :
  digits_only s = true ->
  remove (target ++ "_") ((target ++ "_") ++ s) = s.
Proof.
  intros Hs. unfold remove.
  destruct (target ++ "_")%string as [|a old] eqn:E.
  { destruct target; discriminate E. }
  cbn [String.append remove_aux].
  replace (startswith (String a old) (String a (old ++ s))) with true
    by (symmetry; apply (startswith_app (String a old) s)).
  cbn [len String.length Nat.sub]. rewrite Nat.sub_0_r.
  rewrite remove_aux_skip. apply remove_aux_digits; [|exact Hs].
  intros t Ht. rewrite <- E. apply startswith_underscore. exact Ht.
Qed.

(** X19: the number [ImportRelayIR] reads off the name of a subgraph is
    the counter [SubgraphRemover] wrote into it: for the name
    [<target>_<count>], removing the target and reading the rest as an
    integer gives [count] back, whatever the target. *)
Theorem subgraph_id_round_trip target count :
  int (remove (target ++ "_") (target ++ "_" ++ str_nat count))
  = Returned (Z.of_nat count).
Proof.
  rewrite <- append_assoc.
  rewrite remove_prefix by (apply str_nat_run). apply int_str_nat.
Qed.

(** X20: when no captured tensor carries the input name of the subgraph,
    the import does not return False: it raises IndexError, at the
    [input_fp[0]] that follows the two guards.  With two or more such
    tensors it returns False before anything is quantized. *)
Theorem missing_input_tensor_raises fmt target layout subgraph_tensors name id :
  int (remove (target ++ "_") name) = Returned id ->
  let found := obtain_subgraph_tensor subgraph_tensors (name ++ "_i") in
  (found = [] ->
   subgraph_input fmt target layout subgraph_tensors name = Raised IndexError)
  /\ ((2 <= List.length found)%nat ->
      subgraph_input fmt target layout subgraph_tensors name = Returned None).
Proof.
  intros Hid found. unfold subgraph_input. rewrite Hid. cbn [Py.bind]. fold found.
  split.
  - intros ->. reflexivity.
  - intros H. destruct (Nat.ltb_spec 1 (List.length found)) as [_|Hle]; [reflexivity|lia].
Qed.

End SubgraphInputFacts.

(** Witness of X20: the subgraph [tidl_0], of which only the output was
    captured. *)
Lemma missing_input_tensor_raises_witness :
  let subgraph_tensors := [("tidl_0_o0", Samples.input_data)] in
  let found := SubgraphInput.obtain_subgraph_tensor subgraph_tensors "tidl_0_i" in
  (found = [] ->
   SubgraphInput.subgraph_input Quant.binary32 "tidl" "NCHW" subgraph_tensors "tidl_0"
   = Py.Raised Py.IndexError)
  /\ ((2 <= List.length found)%nat ->
      SubgraphInput.subgraph_input Quant.binary32 "tidl" "NCHW" subgraph_tensors "tidl_0"
      = Py.Returned None).
Proof.
  apply (missing_input_tensor_raises Quant.binary32 "tidl" "NCHW"
           [("tidl_0_o0", Samples.input_data)] "tidl_0" 0).
  vm_compute. reflexivity.
Defined.

(** ** Configuration file: a list is printed with single spaces *)

Section CfgFacts.
Import Py Cfg.

Lemma has_char_app c a b :
  has_char c (a ++ b) = has_char c a || has_char c b.
Proof.
  induction a as [|x a IH]; simpl; [reflexivity|]. rewrite IH. apply orb_assoc.
Qed.

Lemma remove_char_absent c count a b :
  has_char c a = false -> remove_char c count (a ++ b) = (a ++ remove_char c count b)%string.
Proof.
  induction a as [|x a IH]; simpl; [reflexivity|]. intros H.
  apply orb_false_iff in H as (Hx & Ha). rewrite Hx, (IH Ha). reflexivity.
Qed.

Lemma remove_char_none c count a :
  has_char c a = false -> remove_char c count a = a.
Proof.
  induction a as [|x a IH]; simpl; [reflexivity|]. intros H.
  apply orb_false_iff in H as (Hx & Ha). rewrite Hx, (IH Ha). reflexivity.
Qed.

Lemma has_char_join c sep reprs :
  has_char c sep = false ->
  Forall (fun r => has_char c r = false) reprs ->
  has_char c (join sep reprs) = false.
Proof.
  intros Hsep. induction 1 as [|r reprs Hr Hall IH]; [reflexivity|].
  cbn [join]. destruct reprs as [|r2 rest]; [exact Hr|].
  rewrite !has_char_app, Hr, Hsep, IH. reflexivity.
Qed.

Lemma remove_commas reprs :
  Forall (fun r => has_char "," r = false) reprs ->
  remove_char "," (replace_count (Z.of_nat (List.length reprs) - 1))
    (join ", " reprs)
  = join " " reprs.
Proof.
  induction 1 as [|r reprs Hr Hall IH]; [reflexivity|].
  destruct reprs as [|r2 rest].
  - cbn [join]. apply remove_char_none. exact Hr.
  - change (join ", " (r :: r2 :: rest))
      with (r ++ ", " ++ join ", " (r2 :: rest))%string.
    change (join " " (r :: r2 :: rest))
      with (r ++ " " ++ join " " (r2 :: rest))%string.
    rewrite (remove_char_absent _ _ _ _ Hr). f_equal.
    unfold replace_count in *.
    destruct (Z.ltb_spec (Z.of_nat (List.length (r :: r2 :: rest)) - 1) 0) as [Hneg|_];
      [cbn [List.length] in Hneg; lia|].
    destruct (Z.ltb_spec (Z.of_nat (List.length (r2 :: rest)) - 1) 0) as [Hneg|_];
      [cbn [List.length] in Hneg; lia|].
    replace (Z.to_nat (Z.of_nat (List.length (r :: r2 :: rest)) - 1))
      with (S (Z.to_nat (Z.of_nat (List.length (r2 :: rest)) - 1)))
      by (cbn [List.length]; lia).
    cbn [String.append remove_char Ascii.eqb Bool.eqb]. f_equal. exact IH.
Qed.

(** X21: for elements whose printed form holds no bracket and no comma
    (numbers, for instance), [print_list] gives the elements separated by
    single spaces, and the empty string for the empty list. *)
Theorem print_list_spaces reprs :
  Forall (fun r => has_char "[" r = false /\ has_char "]" r = false
                   /\ has_char "," r = false) reprs ->
  print_list reprs = join " " reprs.
Proof.
  intros H.
  assert (Ho : Forall (fun r => has_char "[" r = false) reprs)
    by (eapply Forall_impl; [|exact H]; intros r Hr; apply Hr).
  assert (Hc : Forall (fun r => has_char "]" r = false) reprs)
    by (eapply Forall_impl; [|exact H]; intros r Hr; apply Hr).
  assert (Hm : Forall (fun r => has_char "," r = false) reprs)
    by (eapply Forall_impl; [|exact H]; intros r Hr; apply Hr).
  unfold print_list, str_list. cbv zeta.
  cbn [String.append remove_char Ascii.eqb Bool.eqb].
  rewrite (remove_char_absent "[" None (join ", " reprs) "]")
    by (apply has_char_join; [reflexivity|exact Ho]).
  cbn [remove_char Ascii.eqb Bool.eqb].
  rewrite (remove_char_absent "]" None (join ", " reprs) "]")
    by (apply has_char_join; [reflexivity|exact Hc]).
  cbn [remove_char Ascii.eqb Bool.eqb].
  assert (E : forall s : string, (s ++ "")%string = s)
    by (induction s as [|a s IHs]; simpl; [|rewrite IHs]; reflexivity).
  rewrite E. apply remove_commas. exact Hm.
Qed.

End CfgFacts.

(** Witness of X21: three flags. *)
Lemma print_list_spaces_witness :
  Cfg.print_list ["0"; "1"; "0"] = Py.join " " ["0"; "1"; "0"].
Proof.
  apply print_list_spaces. repeat constructor.
Defined.

(** ** The geometry given to the library and the quantized input agree *)

Section GeometryFacts.
Import Py Np Quant ImportInit.

Lemma tensor_quant_flatten_length fmt input_tensor data_layout out scale sign :
  well_formed input_tensor ->
  tensor_quant_flatten fmt input_tensor data_layout = Returned (out, scale, sign) ->
  List.length out = fold_right Nat.mul 1%nat (tl (shape input_tensor)).
Proof.
  intros Hwf H.
  destruct (batch0 input_tensor) as [t0|e] eqn:Hb;
    [|unfold tensor_quant_flatten in H; rewrite Hb in H; discriminate H].
  destruct (batch0_well_formed _ _ Hwf Hb) as (Hwf0 & Hs & _).
  rewrite Hs. cbn [tl]. rewrite <- Hwf0.
  destruct (calibration_slice_In input_tensor data_layout t0 Hb Hwf0)
    as (t & Ht & Hlen & _).
  rewrite tensor_quant_flatten_slice, Ht in H. cbn [Py.bind] in H.
  destruct (amin t) as [lo|]; cbn [Py.bind] in H; [|discriminate].
  destruct (amax t) as [hi|]; cbn [Py.bind] in H; [|discriminate].
  rewrite <- Hlen.
  destruct (SFleb (S754_zero false) lo); cbv zeta in H; injection H as <- _ _;
    apply length_map.
Qed.

(** X22: whenever the calibration input of a subgraph is quantized and the
    import is initialized from the shape of the same tensor, the two agree:
    the layout passed on is the compiler's, and the quantized vector has
    exactly channel x height x width elements, for inputs of four
    dimensions in either layout and for vectors, which count as one
    channel and one row. *)
Theorem geometry_matches_quantized_input
    fmt data_layout input_tensor out scale sign layout channel height width :
  well_formed input_tensor ->
  tensor_quant_flatten fmt input_tensor data_layout = Returned (out, scale, sign) ->
  geometry data_layout (shape input_tensor) = Some (layout, (channel, height, width)) ->
  layout = data_layout
  /\ List.length out = (channel * height * width)%nat
  /\ (List.length (shape input_tensor) = 2%nat -> channel = 1%nat /\ height = 1%nat).
Proof.
  intros Hwf Hq Hg.
  rewrite (tensor_quant_flatten_length _ _ _ _ _ _ Hwf Hq).
  unfold geometry, expand_shape in Hg.
  destruct (shape input_tensor) as [|n [|d1 [|d2 [|d3 [|? ?]]]]]; try discriminate Hg.
  - destruct (String.eqb_spec data_layout "NCHW") as [->|Hn].
    + injection Hg as <- <- <- <-. cbn [tl fold_right List.length].
      repeat split; lia.
    + destruct (String.eqb_spec data_layout "NHWC") as [->|Hh]; [|discriminate Hg].
      injection Hg as <- <- <- <-. cbn [tl fold_right List.length].
      repeat split; lia.
  - destruct (String.eqb_spec data_layout "NCHW") as [->|Hn].
    + injection Hg as <- <- <- <-. cbn [tl fold_right List.length].
      repeat split; lia.
    + destruct (String.eqb_spec data_layout "NHWC") as [->|Hh]; [|discriminate Hg].
      injection Hg as <- <- <- <-. cbn [tl fold_right List.length].
      repeat split; lia.
Qed.

End GeometryFacts.

(** Witness of X22: the sample input of shape (1, 3) in the NHWC layout. *)
Lemma geometry_matches_quantized_input_witness :
  "NHWC" = "NHWC"
  /\ List.length [S754_nan; S754_nan; S754_nan] = (1 * 1 * 3)%nat
  /\ (List.length (Np.shape Samples.input_data) = 2%nat -> 1%nat = 1%nat /\ 1%nat = 1%nat).
Proof.
  apply (geometry_matches_quantized_input Quant.binary32 "NHWC" Samples.input_data
           [S754_nan; S754_nan; S754_nan] (S754_infinity false) 0 "NHWC" 1 1 3).
  - reflexivity.
  - vm_compute. reflexivity.
  - reflexivity.
Defined.

(** ** Pruning by arity: which subgraphs are inlined *)

Section ArityFacts.
Import Py Relay Prune.

(** The global [name] is a subgraph of the compiler that does not take
    exactly one input, or takes one input of tuple type. *)
Definition offends (m : IRModule) (compiler name : string) : Prop :=
  exists f params,
    mod_get m name = Some f
    /\ is_tagged f compiler = Returned true
    /\ fn_params f = Returned params
    /\ (List.length params <> 1%nat
        \/ exists p t, params = [p] /\ checked_type_of p = Returned t
                       /\ is_TupleType t = true).

Lemma arity_offenders_spec m compiler names :
  forall offenders,
    arity_offenders m compiler names = Returned offenders ->
    forall name, In name offenders <-> In name names /\ offends m compiler name.
Proof.
  induction names as [|name0 rest IH]; intros offenders H name.
  - injection H as <-. simpl. tauto.
  - cbn [arity_offenders] in H. unfold mod_item in H.
    destruct (mod_get m name0) as [f0|] eqn:Hg; cbn [of_option Py.bind] in H;
      [|discriminate].
    destruct (is_tagged f0 compiler) as [tagged|] eqn:Ht; cbn [Py.bind] in H;
      [|discriminate].
    assert (Hother : forall l, (forall n, In n l <-> In n rest /\ offends m compiler n) ->
              ~ offends m compiler name0 ->
              (In name l <-> In name (name0 :: rest) /\ offends m compiler name)).
    { intros l Hl Hno. rewrite Hl. simpl. split; [intros [? ?]; auto|].
      intros [[<-|Hin] Ho]; [contradiction|auto]. }
    destruct tagged; cbn [negb] in H.
    + destruct (fn_params f0) as [params|] eqn:Hp; cbn [Py.bind] in H; [|discriminate].
      destruct (Nat.eqb_spec (List.length params) 1) as [Hlen|Hlen]; cbn [negb] in H.
      * destruct params as [|p [|? ?]]; try discriminate Hlen.
        cbn [getitem nth_error of_option Py.bind] in H.
        destruct (checked_type_of p) as [t|] eqn:Hty; cbn [Py.bind] in H; [|discriminate].
        destruct (arity_offenders m compiler rest) as [others|] eqn:Hrest;
          cbn [Py.bind] in H; [|discriminate].
        injection H as <-. specialize (IH others eq_refl).
        destruct (is_TupleType t) eqn:Htt.
        -- simpl. rewrite IH. split.
           ++ intros [<-|[Hin Ho]]; [|auto].
              split; [left; reflexivity|].
              exists f0, [p]. repeat split; try assumption. right.
              exists p, t. repeat split; assumption.
           ++ intros [[<-|Hin] Ho]; [left; reflexivity|right; auto].
        -- apply (Hother others IH).
           intros (f & params & Hf & _ & Hps & Hor).
           rewrite Hg in Hf. injection Hf as <-. rewrite Hp in Hps. injection Hps as <-.
           destruct Hor as [Hne|(p' & t' & Hpp & Hty' & Htt')]; [simpl in Hne; lia|].
           injection Hpp as <-. rewrite Hty in Hty'. injection Hty' as <-. congruence.
      * cbn [Py.bind] in H.
        destruct (arity_offenders m compiler rest) as [others|] eqn:Hrest;
          cbn [Py.bind] in H; [|discriminate].
        injection H as <-. specialize (IH others eq_refl).
        simpl. rewrite IH. split.
        -- intros [<-|[Hin Ho]]; [|auto].
           split; [left; reflexivity|].
           exists f0, params. repeat split; try assumption. left. exact Hlen.
        -- intros [[<-|Hin] Ho]; [left; reflexivity|right; auto].
    + apply (Hother offenders (IH offenders H)).
      intros (f & params & Hf & Htag & _).
      rewrite Hg in Hf. injection Hf as <-. congruence.
Qed.

(** X23: the subgraphs [PruneSubgraphsWithMoreThanOneInput] selects for
    inlining are exactly the global functions that carry the compiler's tag
    and either do not have exactly one parameter or have one parameter of
    tuple type; a tagged subgraph with one tensor input is never selected,
    and neither is a function without the tag. *)
Theorem arity_pruning_selects m compiler offenders :
  arity_offenders m compiler (get_global_vars m) = Returned offenders ->
  forall name, In name offenders <-> offends m compiler name.
Proof.
  intros H name. rewrite (arity_offenders_spec _ _ _ _ H name).
  split; [tauto|]. intros Ho. split; [|exact Ho].
  destruct Ho as (f & _ & Hf & _). apply (mod_get_In _ _ _ Hf).
Qed.

End ArityFacts.

(** Witness of X23: a subgraph with two inputs. *)
Lemma arity_pruning_selects_witness :
  let two_inputs :=
    Relay.Function [Relay.Var "tidl_0_i0" Samples.f32; Relay.Var "tidl_0_i1" Samples.f32]
      (Relay.Call (Relay.Op "add")
         [Relay.Var "tidl_0_i0" Samples.f32; Relay.Var "tidl_0_i1" Samples.f32])
      (Some [("Compiler", "tidl"); ("global_symbol", "tidl_0")]) in
  let m :=
    [("main", Relay.Function [Samples.x]
                (Relay.Call (Relay.GlobalVar "tidl_0") [Samples.x; Samples.x]) None);
     ("tidl_0", two_inputs)] in
  In "tidl_0" ["tidl_0"] <-> offends m "tidl" "tidl_0".
Proof.
  cbv zeta. apply arity_pruning_selects. vm_compute. reflexivity.
Defined.
